(** * PrismVote: encrypted on-chain voting

    A shallow embedding of [contracts/PrismVote.sol] and the proofs of its
    tally, lifecycle and disclosure properties.

    The contract is a Solidity 0.8 contract: unsigned integers are modelled
    as [N] with the checked arithmetic of the compiler written out (an
    overflow or an array index out of range is a [Panic]), storage mappings
    as finite maps read with the zero value as default, the fixed-size
    arrays [T[4]] as a record of four slots, and a call as a computation in
    a state-and-error monad whose failures the transaction wrapper
    [transact] turns into a revert of the whole state. *)

From Stdlib Require Import NArith ZArith String List Bool Lia.
From stdpp Require Import base option list gmap.
Import ListNotations.
Local Open Scope N_scope.

(** ** Solidity value types *)

Definition address := N.
Definition bytes32 := N.
Definition bytes := list Byte.byte.

Definition MAX_UINT256 : N := 2 ^ 256 - 1.

(** Explicit narrowing conversion [uint8(x)]: truncation to 8 bits. *)
Definition uint8 (x : N) : N := x mod 256.

(** ** Fixed-size arrays [T[4]] *)

Record Array4 (A : Type) : Type := mkArray4
  { slot0 : A; slot1 : A; slot2 : A; slot3 : A }.
Arguments mkArray4 {A} _ _ _ _.
Arguments slot0 {A} _.
Arguments slot1 {A} _.
Arguments slot2 {A} _.
Arguments slot3 {A} _.

Module Array4Ops.

Definition fill {A} (x : A) : Array4 A := mkArray4 x x x x.

(** [a[i]]; [None] stands for the out-of-range panic. *)
Definition get {A} (a : Array4 A) (i : N) : option A :=
  if i =? 0 then Some (slot0 a)
  else if i =? 1 then Some (slot1 a)
  else if i =? 2 then Some (slot2 a)
  else if i =? 3 then Some (slot3 a)
  else None.

(** [a[i] = v]; [None] stands for the out-of-range panic. *)
Definition set {A} (a : Array4 A) (i : N) (v : A) : option (Array4 A) :=
  if i =? 0 then Some (mkArray4 v (slot1 a) (slot2 a) (slot3 a))
  else if i =? 1 then Some (mkArray4 (slot0 a) v (slot2 a) (slot3 a))
  else if i =? 2 then Some (mkArray4 (slot0 a) (slot1 a) v (slot3 a))
  else if i =? 3 then Some (mkArray4 (slot0 a) (slot1 a) (slot2 a) v)
  else None.

Definition to_list {A} (a : Array4 A) : list A :=
  [slot0 a; slot1 a; slot2 a; slot3 a].

End Array4Ops.

(** ** ABI encoding of the cleartext tuple

    [abi.encode(uint32, ..., uint32)]: every value is a static type, so the
    encoding is the concatenation of one 32-byte big-endian word per
    value. *)

Definition byte_of_N (z : N) : Byte.byte :=
  match Byte.of_N (z mod 256) with
  | Some b => b
  | None => Byte.x00
  end.

Definition abi_word_uint32 (v : N) : bytes :=
  List.repeat Byte.x00 28 ++
  [byte_of_N (N.shiftr v 24); byte_of_N (N.shiftr v 16);
   byte_of_N (N.shiftr v 8); byte_of_N v].

Definition abi_encode (vs : list N) : bytes :=
  List.concat (List.map abi_word_uint32 vs).

(** The value a 32-byte big-endian word stands for. *)
Definition abi_decode_word (w : bytes) : N :=
  fold_left (fun acc b => acc * 256 + Byte.to_N b) w 0.

(** ** The FHE library

    [@fhevm/solidity/lib/FHE.sol] is an external collaborator of the
    contract: the contract only orchestrates it.  Its operations are the
    fields of the class below, deterministic functions of their operands,
    so every theorem holds for whatever implementation is linked.  The two
    operations that can make a call revert return an [option] or a [bool].
    The access-control list the library maintains is part of the chain
    state; it is kept as the two logs of the ciphertexts passed to
    [allowThis] and to [makePubliclyDecryptable], in call order. *)

Module FHE.

Class Lib : Type := {
  euint32 : Type;
  ebool : Type;
  externalEuint32 : Type;
  (** the zero value of a storage slot of type [euint32] *)
  uninitialized : euint32;
  (** trivial encryption of a cleartext *)
  asEuint32 : N -> euint32;
  (** [None]: the input proof is rejected and the call reverts *)
  fromExternal : externalEuint32 -> bytes -> option euint32;
  eq : euint32 -> euint32 -> ebool;
  select : ebool -> euint32 -> euint32 -> euint32;
  add : euint32 -> euint32 -> euint32;
  (** [euint32.unwrap] *)
  unwrap : euint32 -> bytes32;
  (** [false]: the signatures are rejected and the call reverts *)
  checkSignatures : list bytes32 -> bytes -> bytes -> bool
}.

Record ACL `{Lib} : Type := mkACL {
  allowed : list euint32;
  publiclyDecryptable : list euint32
}.

Definition allowThis `{Lib} (h : euint32) (acl : ACL) : ACL :=
  {| allowed := allowed acl ++ [h];
     publiclyDecryptable := publiclyDecryptable acl |}.

Definition makePubliclyDecryptable `{Lib} (h : euint32) (acl : ACL) : ACL :=
  {| allowed := allowed acl;
     publiclyDecryptable := publiclyDecryptable acl ++ [h] |}.

End FHE.

(** ** Errors *)

Inductive Error : Type :=
  | Revert (reason : string)      (* require(cond, reason) *)
  | Panic (code : N)               (* compiler-inserted checks *)
  | InvalidInputProof              (* FHE.fromExternal rejects *)
  | InvalidProof.                  (* FHE.checkSignatures rejects *)

Definition PANIC_OVERFLOW : N := 17.       (* 0x11 *)
Definition PANIC_INDEX : N := 50.          (* 0x32 *)

(** The failure taxonomy, as the reason strings of the contract. *)
Definition NotFound : Error := Revert "Poll does not exist".
Definition PollClosed : Error := Revert "Poll ended".
Definition NotStarted : Error := Revert "Poll not started".
Definition PollExpired : Error := Revert "Poll closed".
Definition DuplicateVote : Error := Revert "Already voted".
Definition AlreadyEnded : Error := Revert "Poll already ended".
Definition StillActive : Error := Revert "Poll still active".
Definition NotReady : Error := Revert "Results not public".
Definition AlreadyPublished : Error := Revert "Results already published".
Definition LengthMismatch : Error := Revert "Invalid results length".
Definition InvalidConfiguration (e : Error) : Prop :=
  e = Revert "Invalid option count" \/ e = Revert "Invalid time range".

(** ** Events *)

Inductive Event : Type :=
  | PollCreated (pollId : N) (creator : address) (title : string)
                (optionCount startTime endTime : N)
  | VoteCast (pollId : N) (voter : address)
  | PollEnded (pollId : N)
  | ResultsPublished (pollId : N).

(** ** The execution environment of a call *)

Record Env : Type := mkEnv {
  block_timestamp : N;
  msg_sender : address
}.

Section Contract.

Context {fhe : FHE.Lib}.

(** ** Storage *)

Record Poll : Type := mkPoll {
  title : string;
  options : Array4 string;
  optionCount : N;
  startTime : N;
  endTime : N;
  creator : address;
  ended : bool;
  publicReady : bool;
  resultsPublished : bool;
  encryptedCounts : Array4 FHE.euint32;
  publicCounts : Array4 N
}.

(** The zero value of a [Poll] storage slot. *)
Definition emptyPoll : Poll :=
  {| title := ""; options := Array4Ops.fill ""%string; optionCount := 0;
     startTime := 0; endTime := 0; creator := 0;
     ended := false; publicReady := false; resultsPublished := false;
     encryptedCounts := Array4Ops.fill FHE.uninitialized;
     publicCounts := Array4Ops.fill 0 |}.

Record State : Type := mkState {
  _polls : gmap N Poll;
  _hasVoted : gmap (N * address) bool;
  _pollCount : N;
  acl : FHE.ACL;
  events : list Event
}.

Definition initial : State :=
  {| _polls := ∅; _hasVoted := ∅; _pollCount := 0;
     acl := FHE.mkACL _ [] []; events := [] |}.

(** [_polls[pollId]] read as a value. *)
Definition poll_at (s : State) (pollId : N) : Poll :=
  default emptyPoll (_polls s !! pollId).

(** [_hasVoted[pollId][voter]] read as a value. *)
Definition voted_at (s : State) (pollId : N) (voter : address) : bool :=
  default false (_hasVoted s !! (pollId, voter)).

Definition set_poll (pollId : N) (p : Poll) (s : State) : State :=
  {| _polls := <[pollId := p]> (_polls s); _hasVoted := _hasVoted s;
     _pollCount := _pollCount s; acl := acl s; events := events s |}.

Definition set_voted (pollId : N) (voter : address) (b : bool) (s : State)
  : State :=
  {| _polls := _polls s; _hasVoted := <[(pollId, voter) := b]> (_hasVoted s);
     _pollCount := _pollCount s; acl := acl s; events := events s |}.

Definition set_pollCount (n : N) (s : State) : State :=
  {| _polls := _polls s; _hasVoted := _hasVoted s;
     _pollCount := n; acl := acl s; events := events s |}.

Definition set_acl (a : FHE.ACL) (s : State) : State :=
  {| _polls := _polls s; _hasVoted := _hasVoted s;
     _pollCount := _pollCount s; acl := a; events := events s |}.

Definition log_event (e : Event) (s : State) : State :=
  {| _polls := _polls s; _hasVoted := _hasVoted s;
     _pollCount := _pollCount s; acl := acl s; events := events s ++ [e] |}.

(** Field updates of a [Poll]. *)
Definition with_title (v : string) (p : Poll) : Poll :=
  {| title := v; options := options p; optionCount := optionCount p;
     startTime := startTime p; endTime := endTime p; creator := creator p;
     ended := ended p; publicReady := publicReady p;
     resultsPublished := resultsPublished p;
     encryptedCounts := encryptedCounts p; publicCounts := publicCounts p |}.
Definition with_options (v : Array4 string) (p : Poll) : Poll :=
  {| title := title p; options := v; optionCount := optionCount p;
     startTime := startTime p; endTime := endTime p; creator := creator p;
     ended := ended p; publicReady := publicReady p;
     resultsPublished := resultsPublished p;
     encryptedCounts := encryptedCounts p; publicCounts := publicCounts p |}.
Definition with_optionCount (v : N) (p : Poll) : Poll :=
  {| title := title p; options := options p; optionCount := v;
     startTime := startTime p; endTime := endTime p; creator := creator p;
     ended := ended p; publicReady := publicReady p;
     resultsPublished := resultsPublished p;
     encryptedCounts := encryptedCounts p; publicCounts := publicCounts p |}.
Definition with_startTime (v : N) (p : Poll) : Poll :=
  {| title := title p; options := options p; optionCount := optionCount p;
     startTime := v; endTime := endTime p; creator := creator p;
     ended := ended p; publicReady := publicReady p;
     resultsPublished := resultsPublished p;
     encryptedCounts := encryptedCounts p; publicCounts := publicCounts p |}.
Definition with_endTime (v : N) (p : Poll) : Poll :=
  {| title := title p; options := options p; optionCount := optionCount p;
     startTime := startTime p; endTime := v; creator := creator p;
     ended := ended p; publicReady := publicReady p;
     resultsPublished := resultsPublished p;
     encryptedCounts := encryptedCounts p; publicCounts := publicCounts p |}.
Definition with_creator (v : address) (p : Poll) : Poll :=
  {| title := title p; options := options p; optionCount := optionCount p;
     startTime := startTime p; endTime := endTime p; creator := v;
     ended := ended p; publicReady := publicReady p;
     resultsPublished := resultsPublished p;
     encryptedCounts := encryptedCounts p; publicCounts := publicCounts p |}.
Definition with_ended (v : bool) (p : Poll) : Poll :=
  {| title := title p; options := options p; optionCount := optionCount p;
     startTime := startTime p; endTime := endTime p; creator := creator p;
     ended := v; publicReady := publicReady p;
     resultsPublished := resultsPublished p;
     encryptedCounts := encryptedCounts p; publicCounts := publicCounts p |}.
Definition with_publicReady (v : bool) (p : Poll) : Poll :=
  {| title := title p; options := options p; optionCount := optionCount p;
     startTime := startTime p; endTime := endTime p; creator := creator p;
     ended := ended p; publicReady := v;
     resultsPublished := resultsPublished p;
     encryptedCounts := encryptedCounts p; publicCounts := publicCounts p |}.
Definition with_resultsPublished (v : bool) (p : Poll) : Poll :=
  {| title := title p; options := options p; optionCount := optionCount p;
     startTime := startTime p; endTime := endTime p; creator := creator p;
     ended := ended p; publicReady := publicReady p;
     resultsPublished := v;
     encryptedCounts := encryptedCounts p; publicCounts := publicCounts p |}.
Definition with_encryptedCounts (v : Array4 FHE.euint32) (p : Poll) : Poll :=
  {| title := title p; options := options p; optionCount := optionCount p;
     startTime := startTime p; endTime := endTime p; creator := creator p;
     ended := ended p; publicReady := publicReady p;
     resultsPublished := resultsPublished p;
     encryptedCounts := v; publicCounts := publicCounts p |}.
Definition with_publicCounts (v : Array4 N) (p : Poll) : Poll :=
  {| title := title p; options := options p; optionCount := optionCount p;
     startTime := startTime p; endTime := endTime p; creator := creator p;
     ended := ended p; publicReady := publicReady p;
     resultsPublished := resultsPublished p;
     encryptedCounts := encryptedCounts p; publicCounts := v |}.

(** ** The call monad

    A call body runs on the storage and either returns a value with the
    storage it has reached or stops at the first failing check; the state
    at the point of failure is kept so that what a body had already written
    can be stated, and [transact] discards it as the EVM does. *)

Inductive Result (A : Type) : Type :=
  | Success (a : A) (s : State)
  | Failure (e : Error) (s : State).
Arguments Success {A} _ _.
Arguments Failure {A} _ _.

Definition M (A : Type) : Type := State -> Result A.

Definition ret {A} (a : A) : M A := fun s => Success a s.

Definition bind {A B} (m : M A) (k : A -> M B) : M B :=
  fun s => match m s with
           | Success a s' => k a s'
           | Failure e s' => Failure e s'
           end.

Definition fail {A} (e : Error) : M A := fun s => Failure e s.

Definition get_state : M State := fun s => Success s s.

Definition modify (f : State -> State) : M unit := fun s => Success tt (f s).

Definition require (cond : bool) (reason : string) : M unit :=
  if cond then ret tt else fail (Revert reason).

(** A checked array access: the panic of an index out of range. *)
Definition checked {A} (o : option A) : M A :=
  match o with
  | Some a => ret a
  | None => fail (Panic PANIC_INDEX)
  end.

End Contract.

Arguments Success {fhe A} a s.
Arguments Failure {fhe A} e s.

Declare Scope call_scope.
Delimit Scope call_scope with call.
Notation "'do' x <- m ; k" := (bind m (fun x => k))
  (at level 10, x name, m at level 100, k at level 200) : call_scope.

Section Functions.

Context {fhe : FHE.Lib}.
Local Open Scope call_scope.

(** ** Storage access from a call body *)

(** [_polls[pollId].f] *)
Definition poll_field {A} (pollId : N) (f : Poll -> A) : M A :=
  do s <- get_state; ret (f (poll_at s pollId)).

(** [_polls[pollId].f = v] for the field update [upd] *)
Definition write_poll (pollId : N) (upd : Poll -> Poll) : M unit :=
  modify (fun s => set_poll pollId (upd (poll_at s pollId)) s).

Definition emit (e : Event) : M unit := modify (log_event e).

Definition FHE_allowThis (h : FHE.euint32) : M unit :=
  modify (fun s => set_acl (FHE.allowThis h (acl s)) s).

Definition FHE_makePubliclyDecryptable (h : FHE.euint32) : M unit :=
  modify (fun s => set_acl (FHE.makePubliclyDecryptable h (acl s)) s).

(** [for (uint8 i = i0; cond(i); i++) body(i)], with the local variables
    the body assigns threaded as [l].  A [uint8] counter takes at most 256
    values: with 256 units of [fuel] from [i0 = 0] the exhausted case is
    exactly the checked overflow of [i++] at 255. *)
Fixpoint for_uint8 {L} (fuel : nat) (i : N) (cond : N -> M bool)
    (body : N -> L -> M L) (l : L) : M L :=
  match fuel with
  | O => fail (Panic PANIC_OVERFLOW)
  | S fuel' =>
      do c <- cond i;
      if c : bool
      then do l' <- body i l; for_uint8 fuel' (i + 1) cond body l'
      else ret l
  end.

(** ** The contract *)

Definition _requirePollExists (pollId : N) : M unit :=
  do s <- get_state;
  require (pollId <? _pollCount s) "Poll does not exist".

Definition getPollCount : M N :=
  do s <- get_state; ret (_pollCount s).

Definition getPoll (pollId : N)
  : M (string * Array4 string * N * N * N * address * bool * bool * bool) :=
  do _ <- _requirePollExists pollId;
  do s <- get_state;
  let poll := poll_at s pollId in
  ret (title poll, options poll, optionCount poll, startTime poll,
       endTime poll, creator poll, ended poll, publicReady poll,
       resultsPublished poll).

Definition getEncryptedCounts (pollId : N) : M (Array4 FHE.euint32) :=
  do _ <- _requirePollExists pollId;
  poll_field pollId encryptedCounts.

Definition getPublicCounts (pollId : N) : M (Array4 N) :=
  do _ <- _requirePollExists pollId;
  poll_field pollId publicCounts.

Definition hasVoted (pollId : N) (voter : address) : M bool :=
  do _ <- _requirePollExists pollId;
  do s <- get_state; ret (voted_at s pollId voter).

(** The copy of the labels by [createPoll]: lines 108-110. *)
Definition createPoll_options (pollId : N) (options_ : list string) : M unit :=
  for_uint8 256 0
    (fun i => do n <- poll_field pollId optionCount; ret (i <? n))
    (fun i (_ : unit) =>
       do o <- checked (options_ !! N.to_nat i);
       do cur <- poll_field pollId options;
       do a <- checked (Array4Ops.set cur i o);
       write_poll pollId (with_options a))
    tt.

(** The zero-initialisation of the tally by [createPoll]: lines 112-115. *)
Definition createPoll_counts (pollId : N) : M unit :=
  for_uint8 256 0
    (fun i => ret (i <? 4))
    (fun i (_ : unit) =>
       do cur <- poll_field pollId encryptedCounts;
       do a <- checked (Array4Ops.set cur i (FHE.asEuint32 0));
       do _ <- write_poll pollId (with_encryptedCounts a);
       do cur' <- poll_field pollId encryptedCounts;
       do h <- checked (Array4Ops.get cur' i);
       FHE_allowThis h)
    tt.

Definition createPoll (env : Env) (title_ : string) (options_ : list string)
    (startTime_ endTime_ : N) : M N :=
  let len := N.of_nat (length options_) in
  do _ <- require ((2 <=? len) && (len <=? 4)) "Invalid option count";
  do _ <- require (startTime_ <? endTime_) "Invalid time range";
  do s <- get_state;
  let pollId := _pollCount s in
  do _ <- (if _pollCount s + 1 <=? MAX_UINT256
           then modify (set_pollCount (_pollCount s + 1))
           else fail (Panic PANIC_OVERFLOW));
  do _ <- write_poll pollId (with_title title_);
  do _ <- write_poll pollId (with_optionCount (uint8 len));
  do _ <- write_poll pollId (with_startTime startTime_);
  do _ <- write_poll pollId (with_endTime endTime_);
  do _ <- write_poll pollId (with_creator (msg_sender env));
  do _ <- createPoll_options pollId options_;
  do _ <- createPoll_counts pollId;
  do n <- poll_field pollId optionCount;
  do _ <- emit (PollCreated pollId (msg_sender env) title_ n
                            startTime_ endTime_);
  ret pollId.

(** The homomorphic tally update of [vote]: lines 133-138. *)
Definition vote_tally (pollId : N) (choice one zero : FHE.euint32) : M unit :=
  for_uint8 256 0
    (fun i => do n <- poll_field pollId optionCount; ret (i <? n))
    (fun i (_ : unit) =>
       let isChoice := FHE.eq choice (FHE.asEuint32 i) in
       let increment := FHE.select isChoice one zero in
       do cur <- poll_field pollId encryptedCounts;
       do old <- checked (Array4Ops.get cur i);
       do a <- checked (Array4Ops.set cur i (FHE.add old increment));
       do _ <- write_poll pollId (with_encryptedCounts a);
       do cur' <- poll_field pollId encryptedCounts;
       do h <- checked (Array4Ops.get cur' i);
       FHE_allowThis h)
    tt.

Definition vote (env : Env) (pollId : N)
    (encryptedChoice : FHE.externalEuint32) (inputProof : bytes) : M unit :=
  do _ <- _requirePollExists pollId;
  do e <- poll_field pollId ended;
  do _ <- require (negb e) "Poll ended";
  do st <- poll_field pollId startTime;
  do _ <- require (st <=? block_timestamp env) "Poll not started";
  do en <- poll_field pollId endTime;
  do _ <- require (block_timestamp env <? en) "Poll closed";
  do s <- get_state;
  do _ <- require (negb (voted_at s pollId (msg_sender env))) "Already voted";
  do choice <- match FHE.fromExternal encryptedChoice inputProof with
               | Some c => ret c
               | None => fail InvalidInputProof
               end;
  let one := FHE.asEuint32 1 in
  let zero := FHE.asEuint32 0 in
  do _ <- vote_tally pollId choice one zero;
  do _ <- modify (set_voted pollId (msg_sender env) true);
  emit (VoteCast pollId (msg_sender env)).

(** The marking of the tally by [endPoll]: lines 154-156. *)
Definition endPoll_mark (pollId : N) : M unit :=
  for_uint8 256 0
    (fun i => do n <- poll_field pollId optionCount; ret (i <? n))
    (fun i (_ : unit) =>
       do cur <- poll_field pollId encryptedCounts;
       do h <- checked (Array4Ops.get cur i);
       FHE_makePubliclyDecryptable h)
    tt.

Definition endPoll (env : Env) (pollId : N) : M unit :=
  do _ <- _requirePollExists pollId;
  do e <- poll_field pollId ended;
  do _ <- require (negb e) "Poll already ended";
  do en <- poll_field pollId endTime;
  do _ <- require (en <=? block_timestamp env) "Poll still active";
  do _ <- write_poll pollId (with_ended true);
  do _ <- write_poll pollId (with_publicReady true);
  do _ <- endPoll_mark pollId;
  emit (PollEnded pollId).

(** [clearCounts[k]] of the calldata array. *)
Definition calldata_at (clearCounts : list N) (k : N) : M N :=
  checked (clearCounts !! N.to_nat k).

(** The handle list of [publishResults]: lines 173-176. *)
Definition publishResults_handles (pollId : N) : M (list bytes32) :=
  do n0 <- poll_field pollId optionCount;
  for_uint8 256 0
    (fun i => do n <- poll_field pollId optionCount; ret (i <? n))
    (fun i (handles : list bytes32) =>
       do cur <- poll_field pollId encryptedCounts;
       do h <- checked (Array4Ops.get cur i);
       checked (if i <? N.of_nat (length handles)
                then Some (<[N.to_nat i := FHE.unwrap h]> handles)
                else None))
    (List.repeat 0 (N.to_nat n0)).

(** The encoding of the cleartexts by [publishResults]: lines 178-185. *)
Definition publishResults_cleartexts (pollId : N) (clearCounts : list N)
  : M bytes :=
  do n <- poll_field pollId optionCount;
  if n =? 2 then
    do c0 <- calldata_at clearCounts 0;
    do c1 <- calldata_at clearCounts 1;
    ret (abi_encode [c0; c1])
  else if n =? 3 then
    do c0 <- calldata_at clearCounts 0;
    do c1 <- calldata_at clearCounts 1;
    do c2 <- calldata_at clearCounts 2;
    ret (abi_encode [c0; c1; c2])
  else
    do c0 <- calldata_at clearCounts 0;
    do c1 <- calldata_at clearCounts 1;
    do c2 <- calldata_at clearCounts 2;
    do c3 <- calldata_at clearCounts 3;
    ret (abi_encode [c0; c1; c2; c3]).

(** The storing of the results by [publishResults]: lines 189-191. *)
Definition publishResults_store (pollId : N) (clearCounts : list N) : M unit :=
  for_uint8 256 0
    (fun i => do n <- poll_field pollId optionCount; ret (i <? n))
    (fun i (_ : unit) =>
       do c <- calldata_at clearCounts i;
       do cur <- poll_field pollId publicCounts;
       do a <- checked (Array4Ops.set cur i c);
       write_poll pollId (with_publicCounts a))
    tt.

Definition publishResults (env : Env) (pollId : N) (clearCounts : list N)
    (decryptionProof : bytes) : M unit :=
  do _ <- _requirePollExists pollId;
  do pr <- poll_field pollId publicReady;
  do _ <- require pr "Results not public";
  do rp <- poll_field pollId resultsPublished;
  do _ <- require (negb rp) "Results already published";
  do n <- poll_field pollId optionCount;
  do _ <- require (N.of_nat (length clearCounts) =? n) "Invalid results length";
  do handles <- publishResults_handles pollId;
  do cleartexts <- publishResults_cleartexts pollId clearCounts;
  do _ <- (if FHE.checkSignatures handles cleartexts decryptionProof
           then ret tt else fail InvalidProof);
  do _ <- publishResults_store pollId clearCounts;
  do _ <- write_poll pollId (with_resultsPublished true);
  emit (ResultsPublished pollId).

(** ** Transactions

    A call that fails reverts: nothing it wrote is kept. *)

Inductive Outcome (A : Type) : Type :=
  | Ok (a : A)
  | Reverted (e : Error).
Arguments Ok {A} _.
Arguments Reverted {A} _.

Definition transact {A} (body : M A) (s : State) : Outcome A * State :=
  match body s with
  | Success a s' => (Ok a, s')
  | Failure e _ => (Reverted e, s)
  end.

Inductive Call : Type :=
  | CreatePoll (title_ : string) (options_ : list string)
               (startTime_ endTime_ : N)
  | Vote (pollId : N) (encryptedChoice : FHE.externalEuint32)
         (inputProof : bytes)
  | EndPoll (pollId : N)
  | PublishResults (pollId : N) (clearCounts : list N)
                   (decryptionProof : bytes).

(** The body of a call, its return value dropped. *)
Definition body_of (env : Env) (c : Call) : M unit :=
  match c with
  | CreatePoll t o st en => do _ <- createPoll env t o st en; ret tt
  | Vote pollId ec ip => vote env pollId ec ip
  | EndPoll pollId => endPoll env pollId
  | PublishResults pollId cc dp => publishResults env pollId cc dp
  end.

Definition step (env : Env) (c : Call) (s : State) : Outcome unit * State :=
  transact (body_of env c) s.

(** The states of the contract: from deployment, by any calls made by any
    senders at any times. *)
Inductive reachable : State -> Prop :=
  | reachable_initial : reachable initial
  | reachable_step s env c :
      reachable s -> reachable (snd (step env c s)).

End Functions.

Arguments Ok {A} a.
Arguments Reverted {A} e.

(** ** A cleartext implementation of the FHE library

    Handles are the cleartexts themselves, as in the mock coprocessor of
    the test suite; it instantiates the theorems on concrete polls. *)

Module Mock.

Fixpoint bytes_eqb (a b : bytes) : bool :=
  match a, b with
  | [], [] => true
  | x :: a', y :: b' => Byte.eqb x y && bytes_eqb a' b'
  | _, _ => false
  end.

Definition lib : FHE.Lib :=
  {| FHE.euint32 := N;
     FHE.ebool := bool;
     FHE.externalEuint32 := N;
     FHE.uninitialized := 0;
     FHE.asEuint32 := fun v => v mod 2 ^ 32;
     FHE.fromExternal := fun e proof =>
       match proof with [] => None | _ :: _ => Some (e mod 2 ^ 32) end;
     FHE.eq := N.eqb;
     FHE.select := fun (c : bool) a b => if c then a else b;
     FHE.add := fun a b => (a + b) mod 2 ^ 32;
     FHE.unwrap := fun h => h;
     FHE.checkSignatures := fun handles cleartexts proof =>
       bytes_eqb cleartexts (abi_encode handles)
       && match proof with [] => false | _ :: _ => true end |}.

End Mock.

Module Scenario.

Definition env_at (t : N) (who : address) : Env := mkEnv t who.

Definition vote_for (id choice : N) : Call (fhe := Mock.lib) :=
  @Vote Mock.lib id choice [Byte.x01].

Definition create : Call (fhe := Mock.lib) :=
  CreatePoll "City Budget" ["Parks"; "Transit"]%string 100 3700.

Definition opened : State (fhe := Mock.lib) :=
  snd (step (env_at 50 1) create initial).
Definition voted_a : State (fhe := Mock.lib) :=
  snd (step (env_at 101 2) (vote_for 0 0) opened).
Definition voted_b : State (fhe := Mock.lib) :=
  snd (step (env_at 102 3) (vote_for 0 1) voted_a).
Definition closed : State (fhe := Mock.lib) :=
  snd (step (env_at 3701 1) (EndPoll 0) voted_b).
Definition final : State (fhe := Mock.lib) :=
  snd (step (env_at 3702 1) (PublishResults 0 [1; 1] [Byte.x01]) closed).

End Scenario.

Section Specs.
Context {fhe : FHE.Lib}.

(** [f i] applied to the slots [i < n] of an array, the others kept. *)
Definition map_below {A} (n : N) (f : N -> A -> A) (a : Array4 A) : Array4 A :=
  mkArray4 (if 0 <? n then f 0 (slot0 a) else slot0 a)
           (if 1 <? n then f 1 (slot1 a) else slot1 a)
           (if 2 <? n then f 2 (slot2 a) else slot2 a)
           (if 3 <? n then f 3 (slot3 a) else slot3 a).

(** What the rest of the storage looks like when only poll [id] and the
    access-control list may have changed. *)
Definition same_except_poll (id : N) (s s' : State) : Prop :=
  (forall id', id' <> id -> poll_at s' id' = poll_at s id') /\
  (forall id' v, voted_at s' id' v = voted_at s id' v) /\
  _pollCount s' = _pollCount s /\
  events s' = events s.

(** The poll that [createPoll] leaves in the storage slot that held [p0]. *)
Definition created_poll (env : Env) (title_ : string) (options_ : list string)
    (startTime_ endTime_ : N) (p0 : Poll) : Poll :=
  with_encryptedCounts (Array4Ops.fill (FHE.asEuint32 0))
    (with_options
       (map_below (N.of_nat (length options_))
          (fun i _ => default ""%string (options_ !! N.to_nat i)) (options p0))
       (with_creator (msg_sender env)
          (with_endTime endTime_
             (with_startTime startTime_
                (with_optionCount (N.of_nat (length options_))
                   (with_title title_ p0)))))).

(** The effect of a successful [createPoll] from [s] to [s']. *)
Definition created (env : Env) (title_ : string) (options_ : list string)
    (startTime_ endTime_ : N) (s s' : State) : Prop :=
  let id := _pollCount s in
  _pollCount s' = id + 1 /\
  poll_at s' id =
    created_poll env title_ options_ startTime_ endTime_ (poll_at s id) /\
  (forall id', id' <> id -> poll_at s' id' = poll_at s id') /\
  (forall id' v, voted_at s' id' v = voted_at s id' v) /\
  FHE.allowed (acl s') =
    FHE.allowed (acl s) ++ List.repeat (FHE.asEuint32 0) 4 /\
  FHE.publiclyDecryptable (acl s') = FHE.publiclyDecryptable (acl s) /\
  events s' =
    events s ++ [PollCreated id (msg_sender env) title_
                   (N.of_nat (length options_)) startTime_ endTime_].

(** The ciphertext [vote] writes to slot [i] for the decoded [choice]. *)
Definition incremented (choice : FHE.euint32) (i : N) (old : FHE.euint32)
  : FHE.euint32 :=
  FHE.add old
    (FHE.select (FHE.eq choice (FHE.asEuint32 i))
       (FHE.asEuint32 1) (FHE.asEuint32 0)).

(** The checks of [vote] pass. *)
Definition admissible (env : Env) (id : N) (s : State) : Prop :=
  id < _pollCount s /\
  ended (poll_at s id) = false /\
  startTime (poll_at s id) <= block_timestamp env /\
  block_timestamp env < endTime (poll_at s id) /\
  voted_at s id (msg_sender env) = false.

(** The effect of a successful [vote] from [s] to [s']. *)
Definition tallied (env : Env) (id : N) (choice : FHE.euint32)
    (s s' : State) : Prop :=
  let p := poll_at s id in
  let counts :=
    map_below (optionCount p) (incremented choice) (encryptedCounts p) in
  poll_at s' id = with_encryptedCounts counts p /\
  (forall id', id' <> id -> poll_at s' id' = poll_at s id') /\
  voted_at s' id (msg_sender env) = true /\
  (forall id' v, (id, msg_sender env) <> (id', v) ->
                 voted_at s' id' v = voted_at s id' v) /\
  _pollCount s' = _pollCount s /\
  FHE.allowed (acl s') =
    FHE.allowed (acl s) ++
    take (N.to_nat (optionCount p)) (Array4Ops.to_list counts) /\
  FHE.publiclyDecryptable (acl s') = FHE.publiclyDecryptable (acl s) /\
  events s' = events s ++ [VoteCast id (msg_sender env)].

(** The effect of a successful [endPoll] from [s] to [s']. *)
Definition sealed (id : N) (s s' : State) : Prop :=
  let p := poll_at s id in
  poll_at s' id = with_publicReady true (with_ended true p) /\
  (forall id', id' <> id -> poll_at s' id' = poll_at s id') /\
  (forall id' v, voted_at s' id' v = voted_at s id' v) /\
  _pollCount s' = _pollCount s /\
  FHE.allowed (acl s') = FHE.allowed (acl s) /\
  FHE.publiclyDecryptable (acl s') =
    FHE.publiclyDecryptable (acl s) ++
    take (N.to_nat (optionCount p)) (Array4Ops.to_list (encryptedCounts p)) /\
  events s' = events s ++ [PollEnded id].

(** The handle list and the encoding [publishResults] hands to
    [FHE.checkSignatures]. *)
Definition tallyHandles (p : Poll) : list bytes32 :=
  map FHE.unwrap
      (take (N.to_nat (optionCount p)) (Array4Ops.to_list (encryptedCounts p))).

(** The effect of a successful [publishResults] from [s] to [s']. *)
Definition published (id : N) (clearCounts : list N) (s s' : State) : Prop :=
  let p := poll_at s id in
  let counts :=
    map_below (optionCount p)
      (fun i _ => default 0 (clearCounts !! N.to_nat i)) (publicCounts p) in
  poll_at s' id = with_resultsPublished true (with_publicCounts counts p) /\
  (forall id', id' <> id -> poll_at s' id' = poll_at s id') /\
  (forall id' v, voted_at s' id' v = voted_at s id' v) /\
  _pollCount s' = _pollCount s /\
  acl s' = acl s /\
  events s' = events s ++ [ResultsPublished id].

(** What one successful call does to the storage. *)
Inductive effect (env : Env) : Call -> State -> State -> Prop :=
  | effect_create title_ options_ startTime_ endTime_ s s' :
      2 <= N.of_nat (length options_) <= 4 ->
      startTime_ < endTime_ ->
      _pollCount s + 1 <= MAX_UINT256 ->
      created env title_ options_ startTime_ endTime_ s s' ->
      effect env (CreatePoll title_ options_ startTime_ endTime_) s s'
  | effect_vote id ec ip choice s s' :
      admissible env id s ->
      optionCount (poll_at s id) <= 4 ->
      FHE.fromExternal ec ip = Some choice ->
      tallied env id choice s s' ->
      effect env (Vote id ec ip) s s'
  | effect_end id s s' :
      id < _pollCount s ->
      ended (poll_at s id) = false ->
      endTime (poll_at s id) <= block_timestamp env ->
      optionCount (poll_at s id) <= 4 ->
      sealed id s s' ->
      effect env (EndPoll id) s s'
  | effect_publish id clearCounts proof s s' :
      id < _pollCount s ->
      publicReady (poll_at s id) = true ->
      resultsPublished (poll_at s id) = false ->
      N.of_nat (length clearCounts) = optionCount (poll_at s id) ->
      2 <= optionCount (poll_at s id) <= 4 ->
      FHE.checkSignatures (tallyHandles (poll_at s id))
                          (abi_encode clearCounts) proof = true ->
      published id clearCounts s s' ->
      effect env (PublishResults id clearCounts proof) s s'.

(** The storage invariant. *)
Definition poll_wf (p : Poll) : Prop :=
  2 <= optionCount p <= 4 /\
  startTime p < endTime p /\
  ended p = publicReady p /\
  (resultsPublished p = true -> publicReady p = true).

Definition wf (s : State) : Prop :=
  forall id,
    (id < _pollCount s -> poll_wf (poll_at s id)) /\
    (_pollCount s <= id -> poll_at s id = emptyPoll).

(** The state after a sequence of calls. *)
Fixpoint run_calls (calls : list (Env * Call)) (s : State) : State :=
  match calls with
  | [] => s
  | (env, c) :: rest => run_calls rest (snd (step env c s))
  end.

(** The lifecycle state the three flags of a poll encode; [Closed] and
    [PubliclyReadable] are one state. *)
Inductive Lifecycle : Type := Open | PubliclyReadable | Published.

Definition lifecycleState (p : Poll) : option Lifecycle :=
  match ended p, publicReady p, resultsPublished p with
  | false, false, false => Some Open
  | true, true, false => Some PubliclyReadable
  | true, true, true => Some Published
  | _, _, _ => None
  end.

Definition stage (l : Lifecycle) : nat :=
  match l with Open => 0 | PubliclyReadable => 1 | Published => 2 end.

End Specs.

(** * Observations on the storage and the log *)

Section Observations.
Context {fhe : FHE.Lib}.

(** ** Reading the event log *)

(** The ids of the [PollCreated] events, in log order. *)
Definition created_ids (evs : list Event) : list N :=
  omap (fun e => match e with
                 | PollCreated id _ _ _ _ _ => Some id
                 | _ => None
                 end) evs.

(** The (poll, voter) pairs of the [VoteCast] events, in log order. *)
Definition cast_votes (evs : list Event) : list (N * address) :=
  omap (fun e => match e with
                 | VoteCast id voter => Some (id, voter)
                 | _ => None
                 end) evs.

(** The ids of the [PollEnded] events, in log order. *)
Definition ended_ids (evs : list Event) : list N :=
  omap (fun e => match e with PollEnded id => Some id | _ => None end) evs.

(** The ids of the [ResultsPublished] events, in log order. *)
Definition published_ids (evs : list Event) : list N :=
  omap (fun e => match e with ResultsPublished id => Some id | _ => None end)
       evs.

(** The fields of a poll that only [createPoll] writes. *)
Definition metadata (p : Poll)
  : string * Array4 string * N * N * N * address :=
  (title p, options p, optionCount p, startTime p, endTime p, creator p).

(** The poll a call is about; [createPoll] is about the next free id. *)
Definition target (s : State) (c : Call) : N :=
  match c with
  | CreatePoll _ _ _ _ => _pollCount s
  | Vote id _ _ => id
  | EndPoll id => id
  | PublishResults id _ _ => id
  end.

(** The voters of the [VoteCast] events of poll [id], in log order. *)
Definition voters (id : N) (evs : list Event) : list address :=
  omap (fun e => match e with
                 | VoteCast id' voter =>
                     if decide (id' = id) then Some voter else None
                 | _ => None
                 end) evs.

(** The sum of the cleartexts of the tally slots of a poll in use, for a
    decryption [dec]. *)
Definition tally_total (dec : FHE.euint32 -> N) (p : Poll) : N :=
  foldr N.add 0
    (dec <$> take (N.to_nat (optionCount p))
                  (Array4Ops.to_list (encryptedCounts p))).

End Observations.

(** * The web client

    [VoteApp] reads the polls through the views of the contract and
    decides from what it read which actions a poll card offers.  A JS
    number that holds a count or a time is modelled by the integer it
    stands for; [NaN] is [None] where it can arise.  The reads of one
    refresh are taken to be served from one state of the contract, and
    the client to be configured: the guards on the contract address, the
    wallet and the encryption instance, which only alert and return, are
    left out. *)

Module PollItem.

Record t : Type := mk {
  id : N;
  title : string;
  options : list string;
  optionCount : N;
  startTime : N;
  endTime : N;
  creator : address;
  ended : bool;
  publicReady : bool;
  resultsPublished : bool;
  encryptedCounts : list bytes32;
  publicCounts : list N;
  hasVoted : bool
}.

End PollItem.

Module VoteApp.

(** [Number(x)] for a [bigint] [x >= 0]: the nearest double, ties to the
    even significand.  Exact below [2 ^ 53]. *)
Definition Number (x : N) : N :=
  let e := N.log2 x - 52 in
  if e =? 0 then x
  else
    let q := N.shiftr x e in
    let r := x - N.shiftl q e in
    let half := N.shiftl 1 (e - 1) in
    if (half <? r) || ((r =? half) && N.odd q)
    then N.shiftl (q + 1) e
    else N.shiftl q e.

(** The largest length of a JS array. *)
Definition MAX_ARRAY_LENGTH : N := 2 ^ 32 - 1.

Section Client.
Context {fhe : FHE.Lib}.
Local Open Scope call_scope.

(** The body of [ids.map(async (pollId) => ...)] in [loadPolls]; [address]
    is the connected account, if any. *)
Definition loadPoll (address : option address) (pollId : N)
  : M PollItem.t :=
  do pollResult <- getPoll pollId;
  let '(title, optionsRaw, optionCountRaw, startTimeRaw, endTimeRaw,
        creator, ended, publicReady, resultsPublished) := pollResult in
  do encryptedCountsRaw <- getEncryptedCounts pollId;
  do publicCountsRaw <- getPublicCounts pollId;
  do hasVoted <- match address with
                 | Some a => hasVoted pollId a
                 | None => ret false
                 end;
  let optionCount := optionCountRaw in
  let options := take (N.to_nat optionCount) (Array4Ops.to_list optionsRaw) in
  let encryptedCounts :=
    FHE.unwrap <$> Array4Ops.to_list encryptedCountsRaw in
  let publicCounts :=
    take (N.to_nat optionCount) (Array4Ops.to_list publicCountsRaw) in
  ret (PollItem.mk pollId title options optionCount
         (Number startTimeRaw) (Number endTimeRaw) creator
         ended publicReady resultsPublished
         encryptedCounts publicCounts hasVoted).

(** [Promise.all(ids.map(f))]: the first failure fails the whole. *)
Fixpoint promise_all {A B} (f : A -> M B) (ids : list A) : M (list B) :=
  match ids with
  | [] => ret []
  | x :: rest =>
      do y <- f x;
      do ys <- promise_all f rest;
      ret (y :: ys)
  end.

(** [loadPolls]: [Some polls] is the argument of [setPolls]; [None] is the
    [catch] branch, which sets the error banner. *)
Definition loadPolls (address : option address) (s : State)
  : option (list PollItem.t) :=
  match getPollCount s with
  | Failure _ _ => None
  | Success pollCount s1 =>
      let count := Number pollCount in
      if MAX_ARRAY_LENGTH <? count then None
      else
        let ids := N.of_nat <$> seq 0 (N.to_nat count) in
        match promise_all (loadPoll address) ids s1 with
        | Success pollData _ => Some pollData
        | Failure _ _ => None
        end
  end.

(** ** What a poll card shows *)

Definition isUpcoming (nowSeconds : N) (poll : PollItem.t) : bool :=
  nowSeconds <? PollItem.startTime poll.

Definition isActive (nowSeconds : N) (poll : PollItem.t) : bool :=
  (PollItem.startTime poll <=? nowSeconds)
  && (nowSeconds <? PollItem.endTime poll)
  && negb (PollItem.ended poll).


(** The text of the status chip. *)
Definition statusChip (nowSeconds : N) (poll : PollItem.t) : string :=
  if isActive nowSeconds poll then "Live"
  else if isUpcoming nowSeconds poll then "Upcoming"
  else "Closed".



(** The buttons "Decrypt results" and "Publish on-chain" are shown. *)
Definition resultActions (poll : PollItem.t) : bool :=
  PollItem.publicReady poll.


(** The two counters of the hero card. *)
Definition activePolls (nowSeconds : N) (polls : list PollItem.t) : nat :=
  length (filter (fun poll => nowSeconds < PollItem.endTime poll) polls).

Definition publicResults (polls : list PollItem.t) : nat :=
  length (filter (fun poll => PollItem.resultsPublished poll = true) polls).

(** ** Decrypting and publishing *)

(** The answer of [instance.publicDecrypt]. *)
Record PublicDecryptResults : Type := mkPublicDecryptResults {
  clearValues : gmap bytes32 N;
  decryptionProof : bytes
}.

Record DecryptedResult : Type := mkDecryptedResult {
  counts : list (option N);
  proof : bytes
}.

(** [handleDecrypt]: the new value of [decryptedResults]; [None] is the
    [catch] branch, which leaves it as it is. *)
Definition handleDecrypt
    (publicDecrypt : list bytes32 -> option PublicDecryptResults)
    (decryptedResults : gmap N DecryptedResult) (poll : PollItem.t)
  : option (gmap N DecryptedResult) :=
  let handles :=
    take (N.to_nat (PollItem.optionCount poll))
         (PollItem.encryptedCounts poll) in
  match publicDecrypt handles with
  | None => None
  | Some result =>
      let counts :=
        (fun handle => Number <$> clearValues result !! handle) <$> handles in
      Some (<[PollItem.id poll :=
                mkDecryptedResult counts (decryptionProof result)]>
              decryptedResults)
  end.

(** The encoding of a [uint32[]] argument: a value that is not an integer
    of 32 bits is refused before anything is sent. *)
Fixpoint encode_uint32s (values : list (option N)) : option (list N) :=
  match values with
  | [] => Some []
  | Some v :: rest =>
      if v <? 2 ^ 32
      then match encode_uint32s rest with
           | Some vs => Some (v :: vs)
           | None => None
           end
      else None
  | None :: _ => None
  end.

(** [handlePublish]: the transaction sent, if one is. *)
Definition handlePublish (decryptedResults : gmap N DecryptedResult)
    (pollId : N) : option Call :=
  match decryptedResults !! pollId with
  | None => None
  | Some decrypted =>
      match encode_uint32s (counts decrypted) with
      | Some clearCounts =>
          Some (PublishResults pollId clearCounts (proof decrypted))
      | None => None
      end
  end.

End Client.

End VoteApp.

(** * The command-line tasks

    [task:create-poll] builds the arguments of [createPoll] from the
    strings of the command line. *)

(** ** JS strings, as sequences of UTF-16 code units *)

Module JS.

Definition string16 : Type := list N.

(** [WhiteSpace] and [LineTerminator] of ECMAScript, what [trim] strips. *)
Definition isWhiteSpace (c : N) : bool :=
  (c =? 9) || (c =? 10) || (c =? 11) || (c =? 12) || (c =? 13)
  || (c =? 32) || (c =? 160) || (c =? 5760)
  || ((8192 <=? c) && (c <=? 8202))
  || (c =? 8232) || (c =? 8233) || (c =? 8239) || (c =? 8287)
  || (c =? 12288) || (c =? 65279).

Fixpoint trimStart (s : string16) : string16 :=
  match s with
  | c :: rest => if isWhiteSpace c then trimStart rest else s
  | [] => []
  end.

Definition trimEnd (s : string16) : string16 := reverse (trimStart (reverse s)).

Definition trim (s : string16) : string16 := trimEnd (trimStart s).

(** [s.split(sep)] for a separator of one code unit. *)
Fixpoint split (sep : N) (s : string16) : list string16 :=
  match s with
  | [] => [[]]
  | c :: rest =>
      if c =? sep then [] :: split sep rest
      else match split sep rest with
           | w :: ws => (c :: w) :: ws
           | [] => [[c]]
           end
  end.

(** [Boolean(s)] for a string. *)
Definition Boolean (s : string16) : bool :=
  match s with [] => false | _ :: _ => true end.

Definition COMMA : N := 44.

End JS.

Module Tasks.

Section Actions.
Context {fhe : FHE.Lib}.

(** The encoding of a [string] argument into UTF-8 by the client library;
    [None]: it refuses the string. *)
Variable toUtf8Bytes : JS.string16 -> option string.

(** The encoding of a [uint64] argument; [None]: out of range. *)
Definition encode_uint64 (v : Z) : option N :=
  if ((0 <=? v) && (v <? 2 ^ 64))%Z then Some (Z.to_N v) else None.

(** [options] of [task:create-poll]. *)
Definition create_poll_options (options : JS.string16) : list JS.string16 :=
  List.filter JS.Boolean (JS.trim <$> JS.split JS.COMMA options).

(** [task:create-poll]: the call sent, if one is; [startTime] and [endTime]
    are the values of [BigInt(taskArguments.start)] and
    [BigInt(taskArguments.end)]. *)
Definition create_poll (title options : JS.string16) (startTime endTime : Z)
  : option Call :=
  let options := create_poll_options options in
  if (length options <? 2)%nat || (4 <? length options)%nat then None
  else
    match toUtf8Bytes title, mapM toUtf8Bytes options,
          encode_uint64 startTime, encode_uint64 endTime with
    | Some title_, Some options_, Some startTime_, Some endTime_ =>
        Some (CreatePoll title_ options_ startTime_ endTime_)
    | _, _, _, _ => None
    end.

End Actions.

End Tasks.

(** ** Inputs of the scenario on the client side *)

Module ClientScenario.

(** A gateway that knows the two tallies of the scenario's poll. *)
Definition publicDecrypt (handles : list bytes32)
  : option VoteApp.PublicDecryptResults :=
  if decide (handles = [1; 1])
  then Some (VoteApp.mkPublicDecryptResults {[1 := 1]} [Byte.x01])
  else None.

(** The code units of an ASCII literal. *)
Definition of_ascii (s : string) : JS.string16 :=
  Ascii.N_of_ascii <$> list_ascii_of_string s.

(** UTF-8 of the strings that are ASCII; the others are refused. *)
Definition toUtf8Bytes (s : JS.string16) : option string :=
  string_of_list_ascii <$>
    mapM (fun c => if c <? 128 then Some (Ascii.ascii_of_N c) else None) s.

End ClientScenario.

(** * Reasoning about call bodies *)

Section Facts.
Context {fhe : FHE.Lib}.
Local Open Scope call_scope.

(** ** Reads after writes *)

Lemma poll_at_set_poll_eq s id p : poll_at (set_poll id p s) id = p.
Proof. unfold poll_at, set_poll; cbn [_polls]. by rewrite lookup_insert_eq. Qed.

Lemma poll_at_set_poll_ne s id id' p :
  id <> id' -> poll_at (set_poll id p s) id' = poll_at s id'.
Proof.
  intros. unfold poll_at, set_poll; cbn [_polls]. by rewrite lookup_insert_ne.
Qed.

Lemma poll_at_set_voted s id v b id' :
  poll_at (set_voted id v b s) id' = poll_at s id'.
Proof. reflexivity. Qed.
Lemma poll_at_set_pollCount s n id' :
  poll_at (set_pollCount n s) id' = poll_at s id'.
Proof. reflexivity. Qed.
Lemma poll_at_set_acl s a id' : poll_at (set_acl a s) id' = poll_at s id'.
Proof. reflexivity. Qed.
Lemma poll_at_log_event s e id' : poll_at (log_event e s) id' = poll_at s id'.
Proof. reflexivity. Qed.

Lemma voted_at_set_voted_eq s id v b : voted_at (set_voted id v b s) id v = b.
Proof.
  unfold voted_at, set_voted; cbn [_hasVoted]. by rewrite lookup_insert_eq.
Qed.
Lemma voted_at_set_voted_ne s id v b id' v' :
  (id, v) <> (id', v') -> voted_at (set_voted id v b s) id' v' = voted_at s id' v'.
Proof.
  intros. unfold voted_at, set_voted; cbn [_hasVoted].
  by rewrite lookup_insert_ne.
Qed.
Lemma voted_at_set_poll s id p id' v :
  voted_at (set_poll id p s) id' v = voted_at s id' v.
Proof. reflexivity. Qed.
Lemma voted_at_set_pollCount s n id' v :
  voted_at (set_pollCount n s) id' v = voted_at s id' v.
Proof. reflexivity. Qed.
Lemma voted_at_set_acl s a id' v : voted_at (set_acl a s) id' v = voted_at s id' v.
Proof. reflexivity. Qed.
Lemma voted_at_log_event s e id' v :
  voted_at (log_event e s) id' v = voted_at s id' v.
Proof. reflexivity. Qed.

Lemma pollCount_set_poll s id p : _pollCount (set_poll id p s) = _pollCount s.
Proof. reflexivity. Qed.
Lemma pollCount_set_voted s id v b :
  _pollCount (set_voted id v b s) = _pollCount s.
Proof. reflexivity. Qed.
Lemma pollCount_set_pollCount s n : _pollCount (set_pollCount n s) = n.
Proof. reflexivity. Qed.
Lemma pollCount_set_acl s a : _pollCount (set_acl a s) = _pollCount s.
Proof. reflexivity. Qed.
Lemma pollCount_log_event s e : _pollCount (log_event e s) = _pollCount s.
Proof. reflexivity. Qed.

Lemma acl_set_poll s id p : acl (set_poll id p s) = acl s.
Proof. reflexivity. Qed.
Lemma acl_set_voted s id v b : acl (set_voted id v b s) = acl s.
Proof. reflexivity. Qed.
Lemma acl_set_pollCount s n : acl (set_pollCount n s) = acl s.
Proof. reflexivity. Qed.
Lemma acl_set_acl s a : acl (set_acl a s) = a.
Proof. reflexivity. Qed.
Lemma acl_log_event s e : acl (log_event e s) = acl s.
Proof. reflexivity. Qed.

Lemma events_set_poll s id p : events (set_poll id p s) = events s.
Proof. reflexivity. Qed.
Lemma events_set_voted s id v b : events (set_voted id v b s) = events s.
Proof. reflexivity. Qed.
Lemma events_set_pollCount s n : events (set_pollCount n s) = events s.
Proof. reflexivity. Qed.
Lemma events_set_acl s a : events (set_acl a s) = events s.
Proof. reflexivity. Qed.
Lemma events_log_event s e : events (log_event e s) = events s ++ [e].
Proof. reflexivity. Qed.

Lemma for_uint8_unfold {L} fuel i cond (body : N -> L -> M L) l :
  for_uint8 (S fuel) i cond body l =
  (do c <- cond i;
   if c : bool then do l' <- body i l; for_uint8 fuel (i + 1) cond body l'
   else ret l).
Proof. reflexivity. Qed.

End Facts.

Create Rewrite HintDb storage.
#[global] Hint Rewrite
  @poll_at_set_poll_eq @poll_at_set_voted @poll_at_set_pollCount
  @poll_at_set_acl @poll_at_log_event
  @voted_at_set_voted_eq @voted_at_set_poll @voted_at_set_pollCount
  @voted_at_set_acl @voted_at_log_event
  @pollCount_set_poll @pollCount_set_voted @pollCount_set_pollCount
  @pollCount_set_acl @pollCount_log_event
  @acl_set_poll @acl_set_voted @acl_set_pollCount @acl_set_acl @acl_log_event
  @events_set_poll @events_set_voted @events_set_pollCount @events_set_acl
  @events_log_event : storage.
#[global] Hint Rewrite @poll_at_set_poll_ne @voted_at_set_voted_ne
  using congruence : storage.

(** Evaluation of comparisons and increments on literals. *)
Ltac eval_closed :=
  repeat match goal with
  | |- context [N.ltb ?a ?b] =>
      let v := eval vm_compute in (N.ltb a b) in
      match v with true => idtac | false => idtac end;
      change (N.ltb a b) with v
  | |- context [N.eqb ?a ?b] =>
      let v := eval vm_compute in (N.eqb a b) in
      match v with true => idtac | false => idtac end;
      change (N.eqb a b) with v
  | |- context [@lookup nat ?A (list ?A) _ (N.to_nat ?k) ?l] =>
      let v := eval vm_compute in (@lookup nat A (list A) _ (N.to_nat k) l) in
      match v with Some _ => idtac | None => idtac end;
      change (@lookup nat A (list A) _ (N.to_nat k) l) with v
  | |- context [N.add ?a 1] =>
      let v := eval vm_compute in (N.add a 1) in
      match v with Npos _ => idtac end;
      change (N.add a 1) with v
  end.

(** One step of a call body: the monad's combinators and the storage
    reads they expose. *)
Ltac mred :=
  cbn [andb negb];
  cbv beta iota zeta delta
    [bind ret fail get_state modify require checked poll_field write_poll emit
     FHE_allowThis FHE_makePubliclyDecryptable calldata_at _requirePollExists
     Array4Ops.get Array4Ops.set];
  autorewrite with storage;
  cbn [title options optionCount startTime endTime creator ended publicReady
       resultsPublished encryptedCounts publicCounts
       with_title with_options with_optionCount with_startTime with_endTime
       with_creator with_ended with_publicReady with_resultsPublished
       with_encryptedCounts with_publicCounts
       slot0 slot1 slot2 slot3].

(** One iteration of a loop whose condition and body are the local
    definitions [c] and [b]; the tactic [bound] rewrites with what is known
    of the loop bound. *)
Ltac loop_iter c b bound :=
  rewrite for_uint8_unfold; unfold c at 1; mred; bound; eval_closed;
  cbv beta iota; try (unfold b at 1; mred; bound; eval_closed; mred).

(** Names the condition and the body of the loop in the goal. *)
Ltac name_loop c b :=
  match goal with
  | |- context [for_uint8 _ _ ?cond ?body _] => set (c := cond); set (b := body)
  end.

(** The unchanged part of the storage, read through the writes. *)
Ltac frame := repeat split; intros; autorewrite with storage; reflexivity.

(** The loop conditions that hold below a bound above 4. *)
Ltac bound_facts n H0 H1 H2 H3 H4 :=
  assert (H0 : (0 <? n) = true) by (apply N.ltb_lt; lia);
  assert (H1 : (1 <? n) = true) by (apply N.ltb_lt; lia);
  assert (H2 : (2 <? n) = true) by (apply N.ltb_lt; lia);
  assert (H3 : (3 <? n) = true) by (apply N.ltb_lt; lia);
  assert (H4 : (4 <? n) = true) by (apply N.ltb_lt; lia).

(** The five values of a bound of at most 4. *)
Ltac count_cases n H :=
  let Hc := fresh "Hc" in
  assert (Hc : n = 0 \/ n = 1 \/ n = 2 \/ n = 3 \/ n = 4) by lia;
  destruct Hc as [H|[H|[H|[H|H]]]].

Section LoopFacts.
Context {fhe : FHE.Lib}.

Lemma Array4_eta {A} (a : Array4 A) :
  mkArray4 (slot0 a) (slot1 a) (slot2 a) (slot3 a) = a.
Proof. by destruct a. Qed.

Lemma with_encryptedCounts_id p : with_encryptedCounts (encryptedCounts p) p = p.
Proof. by destruct p. Qed.

Lemma same_except_poll_refl id s : same_except_poll id s s.
Proof. by repeat split. Qed.

Lemma vote_tally_ok s id choice one zero :
  let p := poll_at s id in
  let f := fun i old =>
    FHE.add old (FHE.select (FHE.eq choice (FHE.asEuint32 i)) one zero) in
  let counts := map_below (optionCount p) f (encryptedCounts p) in
  optionCount p <= 4 ->
  exists s1,
    vote_tally id choice one zero s = Success tt s1 /\
    poll_at s1 id = with_encryptedCounts counts p /\
    same_except_poll id s s1 /\
    FHE.allowed (acl s1) =
      FHE.allowed (acl s) ++
      take (N.to_nat (optionCount p)) (Array4Ops.to_list counts) /\
    FHE.publiclyDecryptable (acl s1) = FHE.publiclyDecryptable (acl s).
Proof.
  intros p f counts Hn. subst p f counts.
  assert (Hc : optionCount (poll_at s id) = 0 \/ optionCount (poll_at s id) = 1
               \/ optionCount (poll_at s id) = 2 \/ optionCount (poll_at s id) = 3
               \/ optionCount (poll_at s id) = 4) by lia.
  unfold vote_tally. name_loop cond body.
  destruct Hc as [H|[H|[H|[H|H]]]]; rewrite !H; unfold map_below; eval_closed;
    do 5 (try loop_iter cond body ltac:(rewrite ?H));
    (eexists; split; [reflexivity|]); autorewrite with storage;
    (split; [|split; [frame|split]]);
    rewrite ?Array4_eta, ?with_encryptedCounts_id; try reflexivity;
    cbn [FHE.allowed FHE.publiclyDecryptable FHE.allowThis Array4Ops.to_list
         slot0 slot1 slot2 slot3 N.to_nat Pos.to_nat Pos.iter_op Nat.add take];
    rewrite <- ?app_assoc; try reflexivity.
  - by rewrite app_nil_r.
Qed.
End LoopFacts.

Section BodyFacts.
Context {fhe : FHE.Lib}.

Lemma vote_tally_overflow s id choice one zero :
  4 < optionCount (poll_at s id) ->
  exists s1, vote_tally id choice one zero s = Failure (Panic PANIC_INDEX) s1.
Proof.
  intros Hn. unfold vote_tally. name_loop cond body.
  assert (H0 : (0 <? optionCount (poll_at s id)) = true) by (apply N.ltb_lt; lia).
  assert (H1 : (1 <? optionCount (poll_at s id)) = true) by (apply N.ltb_lt; lia).
  assert (H2 : (2 <? optionCount (poll_at s id)) = true) by (apply N.ltb_lt; lia).
  assert (H3 : (3 <? optionCount (poll_at s id)) = true) by (apply N.ltb_lt; lia).
  assert (H4 : (4 <? optionCount (poll_at s id)) = true) by (apply N.ltb_lt; lia).
  do 5 (loop_iter cond body ltac:(rewrite ?H0, ?H1, ?H2, ?H3, ?H4)).
  eexists; reflexivity.
Qed.

(** [vote] as the list of its checks followed by the tally update. *)
Lemma vote_unfold env id ec ip s :
  vote env id ec ip s =
  if negb (id <? _pollCount s) then Failure NotFound s
  else if ended (poll_at s id) then Failure PollClosed s
  else if negb (startTime (poll_at s id) <=? block_timestamp env)
       then Failure NotStarted s
  else if negb (block_timestamp env <? endTime (poll_at s id))
       then Failure PollExpired s
  else if voted_at s id (msg_sender env) then Failure DuplicateVote s
  else match FHE.fromExternal ec ip with
       | None => Failure InvalidInputProof s
       | Some choice =>
           match vote_tally id choice (FHE.asEuint32 1) (FHE.asEuint32 0) s with
           | Success _ s1 =>
               Success tt (log_event (VoteCast id (msg_sender env))
                             (set_voted id (msg_sender env) true s1))
           | Failure e s1 => Failure e s1
           end
       end.
Proof.
  unfold vote. mred.
  destruct (id <? _pollCount s); cbn [negb]; mred; [|reflexivity].
  destruct (ended (poll_at s id)); cbn [negb]; mred; [reflexivity|].
  destruct (startTime (poll_at s id) <=? block_timestamp env);
    cbn [negb]; mred; [|reflexivity].
  destruct (block_timestamp env <? endTime (poll_at s id));
    cbn [negb]; mred; [|reflexivity].
  destruct (voted_at s id (msg_sender env)); cbn [negb]; mred; [reflexivity|].
  destruct (FHE.fromExternal ec ip); mred; [|reflexivity].
  destruct (vote_tally _ _ _ _ s); reflexivity.
Qed.

Lemma endPoll_mark_ok s id :
  let p := poll_at s id in
  optionCount p <= 4 ->
  exists s1,
    endPoll_mark id s = Success tt s1 /\
    (forall id', poll_at s1 id' = poll_at s id') /\
    same_except_poll id s s1 /\
    FHE.allowed (acl s1) = FHE.allowed (acl s) /\
    FHE.publiclyDecryptable (acl s1) =
      FHE.publiclyDecryptable (acl s) ++
      take (N.to_nat (optionCount p)) (Array4Ops.to_list (encryptedCounts p)).
Proof.
  intros p Hn. subst p.
  unfold endPoll_mark. name_loop cond body.
  count_cases (optionCount (poll_at s id)) H; rewrite !H;
    do 5 (try loop_iter cond body ltac:(rewrite ?H));
    (eexists; split; [reflexivity|]); autorewrite with storage;
    (split; [|split; [frame|split]]); try (intros; autorewrite with storage); try reflexivity;
    cbn [FHE.allowed FHE.publiclyDecryptable FHE.makePubliclyDecryptable Array4Ops.to_list
         N.to_nat Pos.to_nat Pos.iter_op Nat.add take];
    rewrite <- ?app_assoc; try reflexivity.
  - by rewrite app_nil_r.
Qed.

Lemma endPoll_mark_overflow s id :
  4 < optionCount (poll_at s id) ->
  exists s1, endPoll_mark id s = Failure (Panic PANIC_INDEX) s1.
Proof.
  intros Hn. unfold endPoll_mark. name_loop cond body.
  bound_facts (optionCount (poll_at s id)) H0 H1 H2 H3 H4.
  do 5 (loop_iter cond body ltac:(rewrite ?H0, ?H1, ?H2, ?H3, ?H4)).
  eexists; reflexivity.
Qed.

Lemma publishResults_handles_ok s id :
  let p := poll_at s id in
  optionCount p <= 4 ->
  publishResults_handles id s =
  Success (map FHE.unwrap (take (N.to_nat (optionCount p))
                                (Array4Ops.to_list (encryptedCounts p)))) s.
Proof.
  intros p Hn. subst p.
  unfold publishResults_handles. mred. name_loop cond body.
  count_cases (optionCount (poll_at s id)) H; rewrite !H;
    do 5 (try loop_iter cond body ltac:(rewrite ?H)); reflexivity.
Qed.

Lemma publishResults_handles_overflow s id :
  4 < optionCount (poll_at s id) ->
  exists s1, publishResults_handles id s = Failure (Panic PANIC_INDEX) s1.
Proof.
  intros Hn. unfold publishResults_handles. mred. name_loop cond body.
  bound_facts (optionCount (poll_at s id)) H0 H1 H2 H3 H4.
  do 5 (loop_iter cond body
          ltac:(rewrite ?length_insert, ?repeat_length, ?N2Nat.id,
                        ?H0, ?H1, ?H2, ?H3, ?H4)).
  eexists; reflexivity.
Qed.


Lemma publishResults_cleartexts_ok s id clearCounts :
  let n := optionCount (poll_at s id) in
  2 <= n <= 4 -> N.of_nat (length clearCounts) = n ->
  publishResults_cleartexts id clearCounts s = Success (abi_encode clearCounts) s.
Proof.
  intros n Hn Hlen. subst n. unfold publishResults_cleartexts. mred.
  assert (Hc : optionCount (poll_at s id) = 2 \/ optionCount (poll_at s id) = 3
               \/ optionCount (poll_at s id) = 4) by lia.
  destruct Hc as [H|[H|H]]; rewrite H in *; eval_closed; cbv beta iota;
    destruct clearCounts as [|c0 [|c1 [|c2 [|c3 [|c4 l]]]]];
    cbn [length] in Hlen; try lia; reflexivity.
Qed.

Lemma publishResults_cleartexts_short s id clearCounts :
  let n := optionCount (poll_at s id) in
  n < 2 -> N.of_nat (length clearCounts) = n ->
  publishResults_cleartexts id clearCounts s = Failure (Panic PANIC_INDEX) s.
Proof.
  intros n Hn Hlen. subst n. unfold publishResults_cleartexts. mred.
  assert (Hc : optionCount (poll_at s id) = 0 \/ optionCount (poll_at s id) = 1)
    by lia.
  destruct Hc as [H|H]; rewrite H in *; eval_closed; cbv beta iota;
    destruct clearCounts as [|c0 [|c1 l]];
    cbn [length] in Hlen; try lia; reflexivity.
Qed.

Lemma publishResults_store_ok s id clearCounts :
  let p := poll_at s id in
  let counts :=
    map_below (optionCount p)
      (fun i _ => default 0 (clearCounts !! N.to_nat i)) (publicCounts p) in
  optionCount p <= 4 -> N.of_nat (length clearCounts) = optionCount p ->
  exists s1,
    publishResults_store id clearCounts s = Success tt s1 /\
    poll_at s1 id = with_publicCounts counts p /\
    same_except_poll id s s1 /\
    acl s1 = acl s.
Proof.
  intros p counts Hn Hlen. subst p counts.
  unfold publishResults_store. name_loop cond body.
  count_cases (optionCount (poll_at s id)) H; rewrite !H in *;
    unfold map_below; eval_closed;
    destruct clearCounts as [|c0 [|c1 [|c2 [|c3 [|c4 l]]]]];
    cbn [length] in Hlen; try lia;
    do 5 (try loop_iter cond body ltac:(rewrite ?H));
    (eexists; split; [reflexivity|]); autorewrite with storage;
    (split; [|split; [frame|]]);
    rewrite ?Array4_eta; try reflexivity.
  - by destruct (poll_at s id).
Qed.

Lemma createPoll_options_ok s id options_ :
  let p := poll_at s id in
  let labels :=
    map_below (optionCount p)
      (fun i _ => default ""%string (options_ !! N.to_nat i)) (options p) in
  optionCount p <= 4 -> N.of_nat (length options_) = optionCount p ->
  exists s1,
    createPoll_options id options_ s = Success tt s1 /\
    poll_at s1 id = with_options labels p /\
    same_except_poll id s s1 /\
    acl s1 = acl s.
Proof.
  intros p labels Hn Hlen. subst p labels.
  unfold createPoll_options. name_loop cond body.
  count_cases (optionCount (poll_at s id)) H; rewrite !H in *;
    unfold map_below; eval_closed;
    destruct options_ as [|c0 [|c1 [|c2 [|c3 [|c4 l]]]]];
    cbn [length] in Hlen; try lia;
    do 5 (try loop_iter cond body ltac:(rewrite ?H));
    (eexists; split; [reflexivity|]); autorewrite with storage;
    (split; [|split; [frame|]]);
    rewrite ?Array4_eta; try reflexivity.
  - by destruct (poll_at s id).
Qed.

Lemma createPoll_counts_ok s id :
  exists s1,
    createPoll_counts id s = Success tt s1 /\
    poll_at s1 id =
      with_encryptedCounts (Array4Ops.fill (FHE.asEuint32 0)) (poll_at s id) /\
    same_except_poll id s s1 /\
    FHE.allowed (acl s1) =
      FHE.allowed (acl s) ++ List.repeat (FHE.asEuint32 0) 4 /\
    FHE.publiclyDecryptable (acl s1) = FHE.publiclyDecryptable (acl s).
Proof.
  unfold createPoll_counts. name_loop cond body.
  do 5 (loop_iter cond body idtac).
  eexists; split; [reflexivity|]. autorewrite with storage.
  split; [reflexivity|]. split; [frame|].
  cbn [FHE.allowed FHE.publiclyDecryptable FHE.allowThis List.repeat].
  rewrite <- !app_assoc. split; reflexivity.
Qed.

Lemma uint8_small n : n <= 4 -> uint8 n = n.
Proof. intros. unfold uint8. apply N.mod_small. lia. Qed.

Lemma createPoll_cases env title_ options_ startTime_ endTime_ s :
  let len := N.of_nat (length options_) in
  let run := createPoll env title_ options_ startTime_ endTime_ s in
  (~ 2 <= len <= 4 /\ run = Failure (Revert "Invalid option count") s) \/
  (2 <= len <= 4 /\ endTime_ <= startTime_ /\
   run = Failure (Revert "Invalid time range") s) \/
  (2 <= len <= 4 /\ startTime_ < endTime_ /\ MAX_UINT256 < _pollCount s + 1 /\
   run = Failure (Panic PANIC_OVERFLOW) s) \/
  (2 <= len <= 4 /\ startTime_ < endTime_ /\ _pollCount s + 1 <= MAX_UINT256 /\
   exists s', run = Success (_pollCount s) s' /\
              created env title_ options_ startTime_ endTime_ s s').
Proof.
  intros len run. subst run. unfold createPoll. fold len.
  destruct (N.leb_spec 2 len) as [H2|H2]; [|left; split; [lia|reflexivity]].
  destruct (N.leb_spec len 4) as [H4|H4]; [|left; split; [lia|reflexivity]].
  right. mred.
  destruct (N.ltb_spec startTime_ endTime_) as [Ht|Ht];
    [|left; repeat split; try lia]. 
  right. mred.
  destruct (N.leb_spec (_pollCount s + 1) MAX_UINT256) as [Hc|Hc];
    [|left; repeat split; try lia].
  right. repeat split; try lia. mred.
  set (s0 := set_poll _ _ _).
  assert (Hp0 : poll_at s0 (_pollCount s) =
     with_creator (msg_sender env) (with_endTime endTime_ (with_startTime startTime_
       (with_optionCount len (with_title title_ (poll_at s (_pollCount s))))))).
  { subst s0. autorewrite with storage. rewrite uint8_small by lia. reflexivity. }
  destruct (createPoll_options_ok s0 (_pollCount s) options_) as (s1 & -> & Hp1 & Hf1 & Ha1).
  { rewrite Hp0. cbn. lia. }
  { rewrite Hp0. reflexivity. }
  destruct (createPoll_counts_ok s1 (_pollCount s)) as (s2 & -> & Hp2 & Hf2 & Ha2 & Hd2).
  mred. eexists; split; [f_equal|].
  destruct Hf1 as (Hf1a & Hf1b & Hf1c & Hf1d), Hf2 as (Hf2a & Hf2b & Hf2c & Hf2d).
  unfold created; cbv zeta; autorewrite with storage.
  rewrite Hp2, Hp1, Hp0, Hf2c, Hf1c, Hf2d, Hf1d, Ha2, Hd2, Ha1.
  repeat split; intros; autorewrite with storage;
    rewrite ?Hf2a, ?Hf1a by done; rewrite ?Hf2b, ?Hf1b;
    subst s0; autorewrite with storage; reflexivity.
Qed.


Lemma vote_cases env id ec ip s :
  let p := poll_at s id in
  let run := vote env id ec ip s in
  (_pollCount s <= id /\ run = Failure NotFound s) \/
  (id < _pollCount s /\ ended p = true /\ run = Failure PollClosed s) \/
  (id < _pollCount s /\ ended p = false /\
   block_timestamp env < startTime p /\ run = Failure NotStarted s) \/
  (id < _pollCount s /\ ended p = false /\
   startTime p <= block_timestamp env /\ endTime p <= block_timestamp env /\
   run = Failure PollExpired s) \/
  (id < _pollCount s /\ ended p = false /\
   startTime p <= block_timestamp env /\ block_timestamp env < endTime p /\
   voted_at s id (msg_sender env) = true /\ run = Failure DuplicateVote s) \/
  (admissible env id s /\ FHE.fromExternal ec ip = None /\
   run = Failure InvalidInputProof s) \/
  (admissible env id s /\ 4 < optionCount p /\
   exists s1, run = Failure (Panic PANIC_INDEX) s1) \/
  (admissible env id s /\ optionCount p <= 4 /\
   exists choice s1 s',
     FHE.fromExternal ec ip = Some choice /\
     vote_tally id choice (FHE.asEuint32 1) (FHE.asEuint32 0) s
       = Success tt s1 /\
     voted_at s1 id (msg_sender env) = false /\
     s' = log_event (VoteCast id (msg_sender env))
            (set_voted id (msg_sender env) true s1) /\
     run = Success tt s' /\
     tallied env id choice s s').
Proof.
  intros p run. subst p run. rewrite vote_unfold. unfold admissible.
  destruct (N.ltb_spec id (_pollCount s)) as [He|He]; cbn [negb];
    [|left; by split].
  right. destruct (ended (poll_at s id)) eqn:Hended; [left; by repeat split|].
  right.
  destruct (N.leb_spec (startTime (poll_at s id)) (block_timestamp env))
    as [Hs|Hs]; cbn [negb]; [|left; by repeat split].
  right.
  destruct (N.ltb_spec (block_timestamp env) (endTime (poll_at s id)))
    as [Hen|Hen]; cbn [negb]; [|left; by repeat split].
  right. destruct (voted_at s id (msg_sender env)) eqn:Hv;
    [left; by repeat split|].
  right. destruct (FHE.fromExternal ec ip) as [choice|] eqn:Hx;
    [|left; by repeat split].
  right. destruct (N.le_gt_cases (optionCount (poll_at s id)) 4) as [Hn|Hn].
  - right. repeat split; try done.
    destruct (vote_tally_ok s id choice (FHE.asEuint32 1) (FHE.asEuint32 0) Hn)
      as (s1 & Ht & Hp & (Hfa & Hfb & Hfc & Hfd) & Ha & Hd).
    rewrite Ht. exists choice, s1. eexists.
    split; [done|]. split; [done|]. split; [by rewrite Hfb|].
    split; [reflexivity|]. split; [reflexivity|].
    unfold tallied; cbv zeta.
    repeat split; intros; autorewrite with storage;
      rewrite ?Hfb, ?Hfc, ?Hfd; try done.
    by rewrite Hfa.
  - left. repeat split; try done.
    destruct (vote_tally_overflow s id choice (FHE.asEuint32 1)
                (FHE.asEuint32 0) Hn) as (s1 & ->).
    by exists s1.
Qed.


Lemma endPoll_cases env id s :
  let p := poll_at s id in
  let run := endPoll env id s in
  (_pollCount s <= id /\ run = Failure NotFound s) \/
  (id < _pollCount s /\ ended p = true /\ run = Failure AlreadyEnded s) \/
  (id < _pollCount s /\ ended p = false /\
   block_timestamp env < endTime p /\ run = Failure StillActive s) \/
  (id < _pollCount s /\ ended p = false /\
   endTime p <= block_timestamp env /\ 4 < optionCount p /\
   exists s1, run = Failure (Panic PANIC_INDEX) s1) \/
  (id < _pollCount s /\ ended p = false /\
   endTime p <= block_timestamp env /\ optionCount p <= 4 /\
   exists s', run = Success tt s' /\ sealed id s s').
Proof.
  intros p run. subst p run. unfold endPoll. mred.
  destruct (N.ltb_spec id (_pollCount s)) as [He|He]; mred; [|left; by split].
  right. destruct (ended (poll_at s id)) eqn:Hended; mred;
    [left; by repeat split|].
  right.
  destruct (N.leb_spec (endTime (poll_at s id)) (block_timestamp env))
    as [Hen|Hen]; mred; [|left; by repeat split].
  right. set (s0 := set_poll _ _ _).
  assert (Hp0 : poll_at s0 id =
                with_publicReady true (with_ended true (poll_at s id)))
    by (subst s0; by autorewrite with storage).
  assert (Hn0 : optionCount (poll_at s0 id) = optionCount (poll_at s id))
    by (by rewrite Hp0).
  destruct (N.le_gt_cases (optionCount (poll_at s id)) 4) as [Hn|Hn].
  - right. repeat split; try done.
    destruct (endPoll_mark_ok s0 id) as
      (s1 & -> & Hp & (Hfa & Hfb & Hfc & Hfd) & Ha & Hd); [by rewrite Hn0|].
    eexists; split; [reflexivity|]. unfold sealed; cbv zeta.
    rewrite Hp0 in Hd. cbn [optionCount encryptedCounts with_publicReady
                            with_ended] in Hd.
    repeat split; intros; autorewrite with storage;
      rewrite ?Hp, ?Hfb, ?Hfc, ?Hfd, ?Ha, ?Hd; try done;
      subst s0; by autorewrite with storage.
  - left. repeat split; try done.
    destruct (endPoll_mark_overflow s0 id) as (s1 & ->); [by rewrite Hn0|].
    by exists s1.
Qed.

Lemma publishResults_cases env id clearCounts proof s :
  let p := poll_at s id in
  let run := publishResults env id clearCounts proof s in
  (_pollCount s <= id /\ run = Failure NotFound s) \/
  (id < _pollCount s /\ publicReady p = false /\ run = Failure NotReady s) \/
  (id < _pollCount s /\ publicReady p = true /\ resultsPublished p = true /\
   run = Failure AlreadyPublished s) \/
  (id < _pollCount s /\ publicReady p = true /\ resultsPublished p = false /\
   N.of_nat (length clearCounts) <> optionCount p /\
   run = Failure LengthMismatch s) \/
  (id < _pollCount s /\ publicReady p = true /\ resultsPublished p = false /\
   N.of_nat (length clearCounts) = optionCount p /\
   ~ 2 <= optionCount p <= 4 /\
   exists s1, run = Failure (Panic PANIC_INDEX) s1) \/
  (id < _pollCount s /\ publicReady p = true /\ resultsPublished p = false /\
   N.of_nat (length clearCounts) = optionCount p /\
   2 <= optionCount p <= 4 /\
   FHE.checkSignatures (tallyHandles p) (abi_encode clearCounts) proof = false /\
   run = Failure InvalidProof s) \/
  (id < _pollCount s /\ publicReady p = true /\ resultsPublished p = false /\
   N.of_nat (length clearCounts) = optionCount p /\
   2 <= optionCount p <= 4 /\
   FHE.checkSignatures (tallyHandles p) (abi_encode clearCounts) proof = true /\
   exists s', run = Success tt s' /\ published id clearCounts s s').
Proof.
  intros p run. subst p run. unfold publishResults. mred.
  destruct (N.ltb_spec id (_pollCount s)) as [He|He]; mred; [|left; by split].
  right. destruct (publicReady (poll_at s id)) eqn:Hpr; mred;
    [|left; by repeat split].
  right. destruct (resultsPublished (poll_at s id)) eqn:Hrp; mred;
    [left; by repeat split|].
  right.
  destruct (N.eqb_spec (N.of_nat (length clearCounts))
                       (optionCount (poll_at s id))) as [Hlen|Hlen]; mred;
    [|left; by repeat split].
  right.
  destruct (N.le_gt_cases (optionCount (poll_at s id)) 4) as [Hn|Hn].
  2:{ left. repeat split; try done; try lia.
      destruct (publishResults_handles_overflow s id Hn) as (s1 & ->).
      by exists s1. }
  rewrite publishResults_handles_ok by done.
  destruct (N.le_gt_cases 2 (optionCount (poll_at s id))) as [Hn2|Hn2].
  2:{ left. repeat split; try done; try lia.
      rewrite publishResults_cleartexts_short by done. by exists s. }
  right. rewrite publishResults_cleartexts_ok by done.
  fold (tallyHandles (poll_at s id)).
  destruct (FHE.checkSignatures _ _ _) eqn:Hsig; mred;
    [right|left; by repeat split].
  repeat split; try done.
  destruct (publishResults_store_ok s id clearCounts Hn Hlen)
    as (s1 & -> & Hp & (Hfa & Hfb & Hfc & Hfd) & Ha).
  mred. eexists; split; [reflexivity|]. unfold published; cbv zeta.
  repeat split; intros; autorewrite with storage;
    rewrite ?Hp, ?Hfb, ?Hfc, ?Hfd, ?Ha; try done.
  by rewrite Hfa.
Qed.

End BodyFacts.

(** * Transactions and the invariant *)

Section Invariants.
Context {fhe : FHE.Lib}.

Lemma transact_Success {A} (body : M A) s a s' :
  body s = Success a s' -> transact body s = (Ok a, s').
Proof. intros H. unfold transact. by rewrite H. Qed.

Lemma transact_Failure {A} (body : M A) s e s1 :
  body s = Failure e s1 -> transact body s = (Reverted e, s).
Proof. intros H. unfold transact. by rewrite H. Qed.

Lemma step_create env title_ options_ startTime_ endTime_ s :
  step env (CreatePoll title_ options_ startTime_ endTime_) s =
  match createPoll env title_ options_ startTime_ endTime_ s with
  | Success _ s' => (Ok tt, s')
  | Failure e _ => (Reverted e, s)
  end.
Proof.
  unfold step, transact, body_of, bind, ret.
  by destruct (createPoll _ _ _ _ _ s).
Qed.

Lemma step_cases env c s :
  (exists e, step env c s = (Reverted e, s)) \/
  (exists s', step env c s = (Ok tt, s') /\ effect env c s s').
Proof.
  destruct c as [t o st en|id ec ip|id|id cc proof].
  - rewrite step_create.
    destruct (createPoll_cases env t o st en s)
      as [(_ & ->)|[(_ & _ & ->)|[(_ & _ & _ & ->)|(? & ? & ? & s' & -> & ?)]]];
      [left; eauto..|right].
    exists s'. split; [done|]. by constructor.
  - unfold step, body_of.
    destruct (vote_cases env id ec ip s)
      as [(_ & H)|[(_ & _ & H)|[(_ & _ & _ & H)|[(_ & _ & _ & _ & H)|
          [(_ & _ & _ & _ & _ & H)|[(_ & _ & H)|[(_ & _ & s1 & H)|
          (? & ? & choice & s1 & s' & ? & _ & _ & _ & H & ?)]]]]]]];
      try (left; eexists; by apply (transact_Failure _ _ _ _ H)).
    right. exists s'. split; [by apply transact_Success|].
    by econstructor.
  - unfold step, body_of.
    destruct (endPoll_cases env id s)
      as [(_ & H)|[(_ & _ & H)|[(_ & _ & _ & H)|[(_ & _ & _ & _ & s1 & H)|
          (? & ? & ? & ? & s' & H & ?)]]]];
      try (left; eexists; by apply (transact_Failure _ _ _ _ H)).
    right. exists s'. split; [by apply transact_Success|].
    by constructor.
  - unfold step, body_of.
    destruct (publishResults_cases env id cc proof s)
      as [(_ & H)|[(_ & _ & H)|[(_ & _ & _ & H)|[(_ & _ & _ & _ & H)|
          [(_ & _ & _ & _ & _ & s1 & H)|[(_ & _ & _ & _ & _ & _ & H)|
          (? & ? & ? & ? & ? & ? & s' & H & ?)]]]]]];
      try (left; eexists; by apply (transact_Failure _ _ _ _ H)).
    right. exists s'. split; [by apply transact_Success|].
    by constructor.
Qed.

Lemma wf_initial : wf initial.
Proof.
  intros id. split.
  - unfold initial; cbn [_pollCount]. lia.
  - intros _. unfold poll_at, initial; cbn [_polls]. by rewrite lookup_empty.
Qed.

Lemma effect_wf env c s s' : wf s -> effect env c s s' -> wf s'.
Proof.
  intros Hwf Heff id'. destruct (Hwf id') as [Hlt Hge].
  inversion Heff as
    [t o st en ? ? Hlen Ht Hc (Hcount & Hp & Hoth & _)
    |id ec ip choice ? ? Hadm Hn Hx (Hp & Hoth & _ & _ & Hcount & _)
    |id ? ? Hid He Hen Hn (Hp & Hoth & _ & Hcount & _)
    |id cc proof ? ? Hid Hpr Hrp Hlen Hn Hsig (Hp & Hoth & _ & Hcount & _)];
    subst; rewrite Hcount.
  - destruct (N.eq_dec id' (_pollCount s)) as [->|Hne].
    + split; [intros _|intros; lia]. rewrite Hp.
      rewrite (proj2 (Hwf (_pollCount s))) by lia.
      repeat split; cbn; try done; lia.
    + rewrite Hoth by done. split; intros; [apply Hlt|apply Hge]; lia.
  - destruct (N.eq_dec id' id) as [->|Hne]; [|by rewrite Hoth].
    destruct Hadm as (Hid & _). rewrite Hp. split; [intros _|intros; lia].
    destruct (Hlt Hid) as (? & ? & ? & ?). unfold poll_wf. by cbn.
  - destruct (N.eq_dec id' id) as [->|Hne]; [|by rewrite Hoth].
    rewrite Hp. split; [intros _|intros; lia].
    destruct (Hlt Hid) as (? & ? & ? & ?). unfold poll_wf. by cbn.
  - destruct (N.eq_dec id' id) as [->|Hne]; [|by rewrite Hoth].
    rewrite Hp. split; [intros _|intros; lia].
    destruct (Hlt Hid) as (? & ? & ? & ?). unfold poll_wf. by cbn.
Qed.

Lemma step_wf env c s : wf s -> wf (snd (step env c s)).
Proof.
  intros Hwf. destruct (step_cases env c s) as [(e & ->)|(s' & -> & Heff)];
    [done|]. by eapply effect_wf.
Qed.

Lemma reachable_wf s : reachable s -> wf s.
Proof.
  induction 1 as [|s env c _ IH]; [apply wf_initial|by apply step_wf].
Qed.

End Invariants.

(** * Properties of the contract *)

Section Properties.
Context {fhe : FHE.Lib}.

Lemma step_Ok env c s s' : step env c s = (Ok tt, s') -> effect env c s s'.
Proof.
  intros H. destruct (step_cases env c s) as [(e & He)|(s'' & He & Heff)];
    congruence.
Qed.

Lemma step_Reverted env c s e s' : step env c s = (Reverted e, s') -> s' = s.
Proof.
  unfold step, transact. destruct (body_of env c s); congruence.
Qed.

Lemma step_unit env c s : exists out s', step env c s = (out, s') /\
  (out = Ok tt \/ exists e, out = Reverted e /\ s' = s).
Proof.
  destruct (step_cases env c s) as [(e & He)|(s' & He & _)]; eauto 8.
Qed.

Lemma get_ge4 {A} (a : Array4 A) i : 4 <= i -> Array4Ops.get a i = None.
Proof.
  intros H. unfold Array4Ops.get.
  by rewrite !(proj2 (N.eqb_neq _ _)) by lia.
Qed.

Lemma get_map_below {A} n (f : N -> A -> A) (a : Array4 A) i :
  Array4Ops.get (map_below n f a) i =
  if i <? n then f i <$> Array4Ops.get a i else Array4Ops.get a i.
Proof.
  destruct (N.le_gt_cases 4 i) as [Hi|Hi].
  - rewrite !get_ge4 by done. by destruct (i <? n).
  - assert (Hc : i = 0 \/ i = 1 \/ i = 2 \/ i = 3) by lia.
    destruct Hc as [-> | [-> | [-> | ->]]]; unfold Array4Ops.get, map_below;
      cbn [N.eqb Pos.eqb slot0 slot1 slot2 slot3];
      by match goal with |- context [?k <? n] => destruct (k <? n) end.
Qed.

Lemma get_lt4 {A} (a : Array4 A) i : i < 4 -> is_Some (Array4Ops.get a i).
Proof.
  intros H. assert (Hc : i = 0 \/ i = 1 \/ i = 2 \/ i = 3) by lia.
  destruct Hc as [-> | [-> | [-> | ->]]]; by eexists.
Qed.

(** C1. Every vote leaves every tally slot at or above [optionCount], and
    every slot of every other poll, as it was.  A successful vote decodes
    the external input to a ciphertext and replaces, for every slot [i]
    below [optionCount], the old slot by
    [add(old, select(eq(ciphertext, encrypt(i)), 1, 0))]; the contract is
    re-allowed on each of these new ciphertexts, in slot order. *)
Theorem vote_updates_every_slot env id ec ip s out s' :
  step env (Vote id ec ip) s = (out, s') ->
  let n := optionCount (poll_at s id) in
  (forall id' i,
     id' <> id \/ optionCount (poll_at s id') <= i ->
     Array4Ops.get (encryptedCounts (poll_at s' id')) i =
     Array4Ops.get (encryptedCounts (poll_at s id')) i) /\
  (out = Ok tt ->
   exists ciphertext,
     FHE.fromExternal ec ip = Some ciphertext /\
     (forall i, i < n ->
        exists old,
          Array4Ops.get (encryptedCounts (poll_at s id)) i = Some old /\
          Array4Ops.get (encryptedCounts (poll_at s' id)) i =
            Some (FHE.add old
                    (FHE.select (FHE.eq ciphertext (FHE.asEuint32 i))
                       (FHE.asEuint32 1) (FHE.asEuint32 0)))) /\
     FHE.allowed (acl s') =
       FHE.allowed (acl s) ++
       take (N.to_nat n) (Array4Ops.to_list (encryptedCounts (poll_at s' id)))).
Proof.
  intros Hstep n.
  destruct (step_unit env (Vote id ec ip) s)
    as (out' & s'' & Hs & [-> | (e & -> & ->)]);
    rewrite Hs in Hstep; injection Hstep as <- <-.
  2:{ split; [done|congruence]. }
  apply step_Ok in Hs.
  inversion Hs as [|? ? ? choice ? ? Hadm Hn Hx (Hp & Hoth & _ & _ & _ & Ha & _)| |];
    subst.
  split.
  - intros id' i [Hne|Hi]; [by rewrite Hoth|].
    destruct (N.eq_dec id' id) as [->|Hne]; [|by rewrite Hoth].
    rewrite Hp. cbn [encryptedCounts with_encryptedCounts].
    rewrite get_map_below. by rewrite (proj2 (N.ltb_ge _ _)).
  - intros _. exists choice. split; [done|]. split.
    + intros i Hi.
      destruct (get_lt4 (encryptedCounts (poll_at s id)) i) as [old Hold];
        [subst n; lia|].
      exists old. split; [done|]. rewrite Hp.
      cbn [encryptedCounts with_encryptedCounts]. rewrite get_map_below.
      rewrite (proj2 (N.ltb_lt _ _)) by done. by rewrite Hold.
    + by rewrite Ha, Hp.
Qed.


Lemma take_to_list_lookup {A} (a : Array4 A) n k h :
  n <= 4 ->
  take (N.to_nat n) (Array4Ops.to_list a) !! k = Some h <->
  N.of_nat k < n /\ Array4Ops.get a (N.of_nat k) = Some h.
Proof.
  intros Hn. count_cases n H; subst n;
    destruct k as [|[|[|[|k]]]];
    (split; [intros Hk; vm_compute in Hk;
             first [discriminate | split; [lia|exact Hk]]
            |intros [Hlt Hg]; first [lia | exact Hg]]).
Qed.

Lemma reachable_poll_wf s id :
  reachable s -> id < _pollCount s -> poll_wf (poll_at s id).
Proof. intros Hr. by apply (reachable_wf s Hr id). Qed.

(** C3. [vote] checks in this order: the poll exists ([NotFound]), it has
    not been ended ([PollClosed]), the time has reached [startTime]
    ([NotStarted]), the time is before [endTime] ([PollExpired], whether or
    not [endPoll] was ever called), the voter holds no receipt
    ([DuplicateVote], whatever ballot is submitted).  The five failures are
    distinct; a vote that succeeds passed all the checks, and its receipt is
    written on the state the tally update has produced, in which it was
    still absent. *)
Theorem vote_checks_in_order env id ec ip s :
  reachable s ->
  let p := poll_at s id in
  let now := block_timestamp env in
  let voter := msg_sender env in
  let r := step env (Vote id ec ip) s in
  (_pollCount s <= id -> r = (Reverted NotFound, s)) /\
  (id < _pollCount s -> ended p = true -> r = (Reverted PollClosed, s)) /\
  (id < _pollCount s -> ended p = false -> now < startTime p ->
   r = (Reverted NotStarted, s)) /\
  (id < _pollCount s -> ended p = false -> endTime p <= now ->
   r = (Reverted PollExpired, s)) /\
  (id < _pollCount s -> ended p = false -> startTime p <= now < endTime p ->
   voted_at s id voter = true -> r = (Reverted DuplicateVote, s)) /\
  NoDup [NotFound; PollClosed; NotStarted; PollExpired; DuplicateVote] /\
  (forall s', r = (Ok tt, s') ->
     admissible env id s /\
     exists ciphertext s1,
       FHE.fromExternal ec ip = Some ciphertext /\
       vote_tally id ciphertext (FHE.asEuint32 1) (FHE.asEuint32 0) s
         = Success tt s1 /\
       voted_at s1 id voter = false /\
       s' = log_event (VoteCast id voter) (set_voted id voter true s1) /\
       voted_at s' id voter = true).
Proof.
  intros Hr p now voter r. subst p now voter r. unfold step, body_of.
  assert (Hw : id < _pollCount s -> startTime (poll_at s id) < endTime (poll_at s id))
    by (intros Hid; by destruct (reachable_poll_wf s id Hr Hid) as (_ & ? & _)).
  pose proof (vote_cases env id ec ip s) as Hc. cbv zeta in Hc.
  unfold admissible in Hc.
  split; [|split; [|split; [|split; [|split; [|split]]]]].
  1-5: intros;
    try match goal with H : _ <= _ < _ |- _ => destruct H end;
    try match goal with H : _ < _pollCount _ |- _ => specialize (Hw H) end;
    destruct Hc as [(? & H')|[(? & ? & H')|[(? & ? & ? & H')|
      [(? & ? & ? & ? & H')|[(? & ? & ? & ? & ? & H')|
      [((? & ? & ? & ? & ?) & ? & H')|[((? & ? & ? & ? & ?) & ? & s1 & H')|
      ((? & ? & ? & ? & ?) & ? & c & s1 & s' & ? & ? & ? & ? & H' & ?)]]]]]]];
    try lia; try congruence; by rewrite (transact_Failure _ _ _ _ H').
  - repeat constructor; rewrite ?list_elem_of_In; cbn; intuition discriminate.
  - intros s' Hs.
    destruct Hc as [(? & H')|[(? & ? & H')|[(? & ? & ? & H')|
      [(? & ? & ? & ? & H')|[(? & ? & ? & ? & ? & H')|
      [((? & ? & ? & ? & ?) & ? & H')|[((? & ? & ? & ? & ?) & ? & s1 & H')|
      ((? & ? & ? & ? & ?) & ? & c & s1 & s'' & ? & ? & ? & -> & H' & Ht)]]]]]]];
      try (rewrite (transact_Failure _ _ _ _ H') in Hs; discriminate).
    rewrite (transact_Success _ _ _ _ H') in Hs. injection Hs as <-.
    split; [by repeat split|].
    exists c, s1. repeat split; try done. by autorewrite with storage.
Qed.

(** The list of marked ciphertexts only grows. *)
Lemma effect_marks_grow env c s s' :
  effect env c s s' ->
  FHE.publiclyDecryptable (acl s) `prefix_of` FHE.publiclyDecryptable (acl s').
Proof.
  intros Heff.
  inversion Heff as
    [t o st en ? ? Hlen Ht Hcnt (_ & _ & _ & _ & _ & Hd & _)
    |id0 ec ip choice ? ? Hadm Hn Hx (_ & _ & _ & _ & _ & _ & Hd & _)
    |id0 ? ? Hid0 He Hen Hn (_ & _ & _ & _ & _ & Hd & _)
    |id0 cc proof ? ? Hid0 Hpr Hrp Hlen Hn Hsig (_ & _ & _ & _ & Hd & _)];
    subst; rewrite Hd; [done|done|by eexists|done].
Qed.

Lemma run_calls_marks_grow calls s :
  FHE.publiclyDecryptable (acl s)
    `prefix_of` FHE.publiclyDecryptable (acl (run_calls calls s)).
Proof.
  revert s. induction calls as [|[env c] calls IH]; intros s; cbn [run_calls];
    [done|].
  etrans; [|apply IH].
  destruct (step_cases env c s) as [(e & ->)|(s' & -> & Heff)]; [done|].
  by eapply effect_marks_grow.
Qed.

(** C5. [endPoll] fails with [NotFound] on an unassigned id, with
    [AlreadyEnded] on an ended poll and with [StillActive] before
    [endTime]; otherwise it succeeds.  A successful call finds both flags
    unset and leaves both set, keeps the tally, and marks as publicly
    decryptable exactly the [optionCount] first slots, in slot order: the
    marks it appends are the ciphertexts of the slots below [optionCount]
    and nothing else, and no later call removes a mark. *)
Theorem endPoll_seals_the_tally env id s :
  reachable s ->
  let p := poll_at s id in
  let n := optionCount p in
  let now := block_timestamp env in
  let r := step env (EndPoll id) s in
  (_pollCount s <= id -> r = (Reverted NotFound, s)) /\
  (id < _pollCount s -> ended p = true -> r = (Reverted AlreadyEnded, s)) /\
  (id < _pollCount s -> ended p = false -> now < endTime p ->
   r = (Reverted StillActive, s)) /\
  (id < _pollCount s -> ended p = false -> endTime p <= now ->
   exists s', r = (Ok tt, s')) /\
  (forall s', r = (Ok tt, s') ->
     ended p = false /\ publicReady p = false /\
     ended (poll_at s' id) = true /\ publicReady (poll_at s' id) = true /\
     encryptedCounts (poll_at s' id) = encryptedCounts p /\
     FHE.publiclyDecryptable (acl s') =
       FHE.publiclyDecryptable (acl s) ++
       take (N.to_nat n) (Array4Ops.to_list (encryptedCounts p)) /\
     length (take (N.to_nat n) (Array4Ops.to_list (encryptedCounts p)))
       = N.to_nat n /\
     (forall k h,
        take (N.to_nat n) (Array4Ops.to_list (encryptedCounts p)) !! k = Some h
        <-> N.of_nat k < n /\
            Array4Ops.get (encryptedCounts p) (N.of_nat k) = Some h) /\
     (forall calls,
        FHE.publiclyDecryptable (acl s')
          `prefix_of` FHE.publiclyDecryptable (acl (run_calls calls s')))).
Proof.
  intros Hr p n now r. subst p n now r. unfold step, body_of.
  assert (Hw : id < _pollCount s -> poll_wf (poll_at s id))
    by apply (reachable_poll_wf s id Hr).
  pose proof (endPoll_cases env id s) as Hc. cbv zeta in Hc.
  split; [|split; [|split; [|split]]].
  1-4: intros;
    try match goal with H : _ < _pollCount _ |- _ =>
          destruct (Hw H) as ((? & ?) & ? & ? & ?) end;
    destruct Hc as [(? & H')|[(? & ? & H')|[(? & ? & ? & H')|
      [(? & ? & ? & ? & s1 & H')|(? & ? & ? & ? & s' & H' & ?)]]]];
    try lia; try congruence;
    first [by rewrite (transact_Failure _ _ _ _ H')
          |rewrite (transact_Success _ _ _ _ H'); by eexists].
  intros s' Hs.
  destruct Hc as [(? & H')|[(? & ? & H')|[(? & ? & ? & H')|
      [(? & ? & ? & ? & s1 & H')|
       (Hid & He & ? & Hn & s'' & H' & (Hp & _ & _ & _ & _ & Hd & _))]]]];
    try (rewrite (transact_Failure _ _ _ _ H') in Hs; discriminate).
  rewrite (transact_Success _ _ _ _ H') in Hs. injection Hs as <-.
  destruct (Hw Hid) as (_ & _ & Hflags & _).
  rewrite Hp. cbn [ended publicReady encryptedCounts with_publicReady with_ended].
  do 6 (split; [done || congruence|]).
  split; [rewrite length_take; cbn [Array4Ops.to_list length]; lia|].
  split; [intros k h; by apply take_to_list_lookup|].
  intros calls. apply run_calls_marks_grow.
Qed.

(** In a reachable state a call body that fails has written nothing. *)
Lemma body_failure_unchanged env c s e s1 :
  wf s -> body_of env c s = Failure e s1 -> s1 = s.
Proof.
  intros Hwf. destruct c as [t o st en|id ec ip|id|id cc proof]; cbn [body_of].
  - unfold bind, ret.
    destruct (createPoll_cases env t o st en s)
      as [(_ & ->)|[(_ & _ & ->)|[(_ & _ & _ & ->)|(? & ? & ? & s' & -> & ?)]]];
      congruence.
  - destruct (vote_cases env id ec ip s)
      as [(? & ->)|[(? & ? & ->)|[(? & ? & ? & ->)|
      [(? & ? & ? & ? & ->)|[(? & ? & ? & ? & ? & ->)|
      [(? & ? & ->)|[((Hid & ?) & Hn & s2 & ->)|
      (? & ? & c & s2 & s' & ? & ? & ? & ? & -> & ?)]]]]]]]; try congruence.
    destruct (proj1 (Hwf id) Hid) as ((? & ?) & _). lia.
  - destruct (endPoll_cases env id s)
      as [(? & ->)|[(? & ? & ->)|[(? & ? & ? & ->)|
      [(Hid & ? & ? & ? & s2 & ->)|(? & ? & ? & ? & s' & -> & ?)]]]];
      try congruence.
    destruct (proj1 (Hwf id) Hid) as ((? & ?) & _). lia.
  - destruct (publishResults_cases env id cc proof s)
      as [(? & ->)|[(? & ? & ->)|[(? & ? & ? & ->)|[(? & ? & ? & ? & ->)|
      [(Hid & ? & ? & ? & ? & s2 & ->)|[(? & ? & ? & ? & ? & ? & ->)|
       (? & ? & ? & ? & ? & ? & s' & -> & ?)]]]]]]; try congruence.
    by destruct (proj1 (Hwf id) Hid) as (? & _).
Qed.

(** C9. A call that fails leaves the whole state as it was before the call;
    in a reachable state the body of the call had not even written
    anything when it failed. *)
Theorem failure_is_atomic env c s e s' :
  step env c s = (Reverted e, s') ->
  s' = s /\ (reachable s -> body_of env c s = Failure e s).
Proof.
  intros Hs. split; [by eapply step_Reverted|].
  intros Hr. unfold step, transact in Hs.
  destruct (body_of env c s) as [a s1|e1 s1] eqn:Hb; [discriminate|].
  injection Hs as -> _.
  by rewrite (body_failure_unchanged env c s e s1 (reachable_wf s Hr) Hb).
Qed.

Lemma reachable_run_calls calls s : reachable s -> reachable (run_calls calls s).
Proof.
  revert s. induction calls as [|[env c] calls IH]; intros s Hr; cbn; [done|].
  apply IH. by constructor.
Qed.

(** One successful call never unsets a lifecycle flag. *)
Lemma effect_flags env c s s' id :
  wf s -> effect env c s s' ->
  let p := poll_at s id in
  let p' := poll_at s' id in
  (ended p = true -> ended p' = true) /\
  (publicReady p = true -> publicReady p' = true) /\
  (resultsPublished p = true -> resultsPublished p' = true).
Proof.
  intros Hwf Heff p p'. subst p p'.
  inversion Heff as
    [t o st en ? ? Hlen Ht Hc (Hcount & Hp & Hoth & _)
    |id0 ec ip choice ? ? Hadm Hn Hx (Hp & Hoth & _)
    |id0 ? ? Hid He Hen Hn (Hp & Hoth & _)
    |id0 cc proof ? ? Hid Hpr Hrp Hlen Hn Hsig (Hp & Hoth & _)]; subst.
  - destruct (N.eq_dec id (_pollCount s)) as [->|Hne]; [|by rewrite Hoth].
    rewrite (proj2 (Hwf (_pollCount s))) by lia. by cbn.
  - destruct (N.eq_dec id id0) as [->|Hne]; [|by rewrite Hoth].
    by rewrite Hp.
  - destruct (N.eq_dec id id0) as [->|Hne]; [|by rewrite Hoth].
    rewrite Hp. by cbn.
  - destruct (N.eq_dec id id0) as [->|Hne]; [|by rewrite Hoth].
    rewrite Hp. by cbn.
Qed.

Lemma step_flags env c s id :
  wf s ->
  let p := poll_at s id in
  let p' := poll_at (snd (step env c s)) id in
  (ended p = true -> ended p' = true) /\
  (publicReady p = true -> publicReady p' = true) /\
  (resultsPublished p = true -> resultsPublished p' = true).
Proof.
  intros Hwf. destruct (step_cases env c s) as [(e & ->)|(s' & -> & Heff)];
    [done|]. by eapply effect_flags.
Qed.

Lemma run_calls_flags calls s id :
  reachable s ->
  let p := poll_at s id in
  let p' := poll_at (run_calls calls s) id in
  (ended p = true -> ended p' = true) /\
  (publicReady p = true -> publicReady p' = true) /\
  (resultsPublished p = true -> resultsPublished p' = true).
Proof.
  revert s. induction calls as [|[env c] calls IH]; intros s Hr; cbn; [done|].
  destruct (step_flags env c s id (reachable_wf s Hr)) as (H1 & H2 & H3).
  destruct (IH (snd (step env c s)) (reachable_step s env c Hr))
    as (G1 & G2 & G3).
  cbv zeta in *. auto.
Qed.

Lemma wf_lifecycle s id :
  wf s ->
  ended (poll_at s id) = publicReady (poll_at s id) /\
  (resultsPublished (poll_at s id) = true -> publicReady (poll_at s id) = true).
Proof.
  intros Hwf. destruct (N.lt_ge_cases id (_pollCount s)) as [Hid|Hid].
  - by destruct (proj1 (Hwf id) Hid) as (_ & _ & ? & ?).
  - rewrite (proj2 (Hwf id) Hid). by cbn.
Qed.

(** C6. In every reachable state every poll has [ended = publicReady] and
    [resultsPublished] only with [publicReady], so its flags encode exactly
    one lifecycle state (Open, Closed/PubliclyReadable or Published); and
    after any further sequence of calls each flag that was set is still
    set, so the state is the same or a later one. *)
Theorem lifecycle_is_monotone s id calls :
  reachable s ->
  let p := poll_at s id in
  let p' := poll_at (run_calls calls s) id in
  ended p = publicReady p /\
  (resultsPublished p = true -> publicReady p = true) /\
  (ended p = true -> ended p' = true) /\
  (publicReady p = true -> publicReady p' = true) /\
  (resultsPublished p = true -> resultsPublished p' = true) /\
  exists l l',
    lifecycleState p = Some l /\ lifecycleState p' = Some l' /\
    (stage l <= stage l')%nat.
Proof.
  intros Hr p p'.
  destruct (wf_lifecycle s id (reachable_wf s Hr)) as (He & Hp).
  destruct (wf_lifecycle (run_calls calls s) id
              (reachable_wf _ (reachable_run_calls calls s Hr))) as (He' & Hp').
  destruct (run_calls_flags calls s id Hr) as (M1 & M2 & M3).
  fold p in He, Hp, M1, M2, M3. fold p' in He', Hp', M1, M2, M3.
  do 5 (split; [done|]).
  unfold lifecycleState.
  destruct (ended p), (publicReady p), (resultsPublished p);
    try discriminate; try (by specialize (Hp eq_refl));
    destruct (ended p'), (publicReady p'), (resultsPublished p');
    try discriminate; try (by specialize (Hp' eq_refl));
    try (by specialize (M1 eq_refl)); try (by specialize (M3 eq_refl));
    do 2 eexists; (split; [reflexivity|]); (split; [reflexivity|]); cbn; lia.
Qed.


(** One successful call never rewrites the tally of an ended poll. *)
Lemma effect_frozen env c s s' id :
  wf s -> effect env c s s' -> ended (poll_at s id) = true ->
  encryptedCounts (poll_at s' id) = encryptedCounts (poll_at s id).
Proof.
  intros Hwf Heff Hended.
  assert (Hid : id < _pollCount s).
  { destruct (N.lt_ge_cases id (_pollCount s)) as [?|Hge]; [done|].
    rewrite (proj2 (Hwf id) Hge) in Hended. discriminate. }
  inversion Heff as
    [t o st en ? ? Hlen Ht Hc (Hcount & Hp & Hoth & _)
    |id0 ec ip choice ? ? Hadm Hn Hx (Hp & Hoth & _)
    |id0 ? ? Hid0 He Hen Hn (Hp & Hoth & _)
    |id0 cc proof ? ? Hid0 Hpr Hrp Hlen Hn Hsig (Hp & Hoth & _)]; subst.
  - rewrite Hoth; [done|lia].
  - destruct (N.eq_dec id id0) as [->|Hne]; [|by rewrite Hoth].
    destruct Hadm as (_ & ? & _). congruence.
  - destruct (N.eq_dec id id0) as [->|Hne]; [|by rewrite Hoth]. congruence.
  - destruct (N.eq_dec id id0) as [->|Hne]; [|by rewrite Hoth].
    by rewrite Hp.
Qed.

Lemma run_calls_frozen calls s id :
  reachable s -> ended (poll_at s id) = true ->
  encryptedCounts (poll_at (run_calls calls s) id)
    = encryptedCounts (poll_at s id).
Proof.
  revert s. induction calls as [|[env c] calls IH]; intros s Hr He; cbn;
    [done|].
  pose proof (reachable_wf s Hr) as Hwf.
  rewrite IH.
  - destruct (step_cases env c s) as [(e & ->)|(s' & -> & Heff)]; [done|].
    by eapply effect_frozen.
  - by constructor.
  - by apply (step_flags env c s id Hwf).
Qed.

(** Only a successful [endPoll] extends the list of marked ciphertexts. *)
Lemma effect_marks env c s s' :
  effect env c s s' -> (forall id, c <> EndPoll id) ->
  FHE.publiclyDecryptable (acl s') = FHE.publiclyDecryptable (acl s).
Proof.
  intros Heff Hc.
  inversion Heff as
    [t o st en ? ? Hlen Ht Hcnt (_ & _ & _ & _ & _ & Hd & _)
    |id0 ec ip choice ? ? Hadm Hn Hx (_ & _ & _ & _ & _ & _ & Hd & _)
    |id0 ? ? Hid0 He Hen Hn _
    |id0 cc proof ? ? Hid0 Hpr Hrp Hlen Hn Hsig (_ & _ & _ & _ & Hd & _)];
    subst; try done.
  - by destruct (Hc id0).
  - by rewrite Hd.
Qed.

Lemma endPoll_ended env id s :
  ended (poll_at s id) = true -> id < _pollCount s ->
  endPoll env id s = Failure AlreadyEnded s.
Proof.
  intros He Hid.
  destruct (endPoll_cases env id s)
    as [(? & H')|[(? & ? & H')|[(? & ? & ? & H')|
       [(? & ? & ? & ? & s1 & H')|(? & ? & ? & ? & s' & H' & ?)]]]];
    try lia; congruence.
Qed.

(** The read operations leave the storage as it is. *)
Lemma views_unchanged s id voter :
  snd (transact getPollCount s) = s /\
  snd (transact (getPoll id) s) = s /\
  snd (transact (getEncryptedCounts id) s) = s /\
  snd (transact (getPublicCounts id) s) = s /\
  snd (transact (hasVoted id voter) s) = s.
Proof.
  unfold transact, getPollCount, getPoll, getEncryptedCounts, getPublicCounts,
    hasVoted.
  mred. by destruct (id <? _pollCount s).
Qed.

(** C7. Once a poll is ended, no sequence of calls changes any slot of its
    encrypted tally; every further [endPoll] on it fails with
    [AlreadyEnded] at the check, with nothing written and so before the
    marking loop; no call other than an [endPoll] extends the list of marked
    ciphertexts; and the read operations leave the state as it is. *)
Theorem tally_frozen_after_end s id calls :
  reachable s -> ended (poll_at s id) = true ->
  let s' := run_calls calls s in
  encryptedCounts (poll_at s' id) = encryptedCounts (poll_at s id) /\
  (forall env,
     endPoll env id s' = Failure AlreadyEnded s' /\
     step env (EndPoll id) s' = (Reverted AlreadyEnded, s')) /\
  (forall env c,
     (forall id', c <> EndPoll id') ->
     FHE.publiclyDecryptable (acl (snd (step env c s')))
       = FHE.publiclyDecryptable (acl s')) /\
  (forall id' voter,
     snd (transact getPollCount s') = s' /\
     snd (transact (getPoll id') s') = s' /\
     snd (transact (getEncryptedCounts id') s') = s' /\
     snd (transact (getPublicCounts id') s') = s' /\
     snd (transact (hasVoted id' voter) s') = s').
Proof.
  intros Hr He s'. subst s'.
  pose proof (reachable_run_calls calls s Hr) as Hr'.
  pose proof (reachable_wf _ Hr') as Hwf'.
  assert (He' : ended (poll_at (run_calls calls s) id) = true)
    by (by apply (run_calls_flags calls s id Hr)).
  assert (Hid' : id < _pollCount (run_calls calls s)).
  { destruct (N.lt_ge_cases id (_pollCount (run_calls calls s))) as [?|Hge];
      [done|]. rewrite (proj2 (Hwf' id) Hge) in He'. discriminate. }
  split; [by apply run_calls_frozen|]. split; [|split].
  - intros env. pose proof (endPoll_ended env id _ He' Hid') as Hf.
    split; [done|]. by apply (transact_Failure _ _ _ _ Hf).
  - intros env c Hc.
    destruct (step_cases env c (run_calls calls s))
      as [(e & ->)|(s'' & -> & Heff)]; [done|]. by eapply effect_marks.
  - intros id' voter. apply views_unchanged.
Qed.

Lemma created_poll_fields env t o st en p0 :
  let p' := created_poll env t o st en p0 in
  title p' = t /\ optionCount p' = N.of_nat (length o) /\
  startTime p' = st /\ endTime p' = en /\ creator p' = msg_sender env /\
  ended p' = ended p0 /\ publicReady p' = publicReady p0 /\
  resultsPublished p' = resultsPublished p0 /\
  encryptedCounts p' = Array4Ops.fill (FHE.asEuint32 0) /\
  publicCounts p' = publicCounts p0 /\
  options p' =
    map_below (N.of_nat (length o))
      (fun i _ => default ""%string (o !! N.to_nat i)) (options p0).
Proof. by repeat split. Qed.

(** C8. [createPoll] fails with [InvalidConfiguration] exactly when there
    are fewer than 2 or more than 4 options or [endTime <= startTime].
    Otherwise, while the id counter has not reached the top of [uint256], it
    returns the counter as the new id, an id whose storage slot was never
    written, increments the counter, stores the metadata, leaves the poll
    Open, sets all four tally slots to the encryption of zero and logs
    [PollCreated(pollId, creator, title, optionCount, startTime, endTime)];
    the other polls are untouched. *)
Theorem createPoll_allocates env title_ options_ startTime_ endTime_ s :
  reachable s ->
  let len := N.of_nat (length options_) in
  let id := _pollCount s in
  let r := transact (createPoll env title_ options_ startTime_ endTime_) s in
  ((exists e, r = (Reverted e, s) /\ InvalidConfiguration e) <->
   (len < 2 \/ 4 < len \/ endTime_ <= startTime_)) /\
  (2 <= len <= 4 -> startTime_ < endTime_ -> _pollCount s < MAX_UINT256 ->
   exists s',
     r = (Ok id, s') /\
     poll_at s id = emptyPoll /\
     ~ id < _pollCount s /\ _pollCount s' = id + 1 /\
     (forall id', id' <> id -> poll_at s' id' = poll_at s id') /\
     let p' := poll_at s' id in
     title p' = title_ /\ optionCount p' = len /\
     startTime p' = startTime_ /\ endTime p' = endTime_ /\
     creator p' = msg_sender env /\
     (forall i, i < len ->
        Array4Ops.get (options p') i = options_ !! N.to_nat i) /\
     lifecycleState p' = Some Open /\
     encryptedCounts p' = Array4Ops.fill (FHE.asEuint32 0) /\
     FHE.allowed (acl s') =
       FHE.allowed (acl s) ++ List.repeat (FHE.asEuint32 0) 4 /\
     events s' =
       events s ++ [PollCreated id (msg_sender env) title_ len
                                startTime_ endTime_]).
Proof.
  intros Hr len id r. subst len id r.
  pose proof (reachable_wf s Hr) as Hwf.
  pose proof (createPoll_cases env title_ options_ startTime_ endTime_ s) as Hc.
  cbv zeta in Hc. split.
  - split.
    + intros (e & He & Hcfg).
      destruct Hc as [(? & H')|[(? & ? & H')|[(? & ? & ? & H')|
         (? & ? & ? & s' & H' & ?)]]];
        [lia|lia| |];
        [rewrite (transact_Failure _ _ _ _ H') in He
        |rewrite (transact_Success _ _ _ _ H') in He]; [|discriminate].
      injection He as <-. destruct Hcfg; discriminate.
    + intros Hbad.
      destruct Hc as [(? & H')|[(? & ? & H')|[(? & ? & ? & H')|
         (? & ? & ? & s' & H' & ?)]]]; try lia;
        rewrite (transact_Failure _ _ _ _ H'); eexists;
        (split; [reflexivity|]); [by left|by right].
  - intros Hlen Ht Hmax. unfold MAX_UINT256 in *.
    destruct Hc as [(? & H')|[(? & ? & H')|[(? & ? & ? & H')|
       (_ & _ & _ & s' & H' & (Hcount & Hp & Hoth & _ & Ha & _ & Hev))]]];
      try lia.
    exists s'. rewrite (transact_Success _ _ _ _ H').
    pose proof (proj2 (Hwf (_pollCount s)) (N.le_refl _)) as Hempty.
    split; [done|]. split; [done|]. split; [lia|]. split; [done|].
    split; [done|]. cbv zeta. rewrite Hp, Hempty.
    destruct (created_poll_fields env title_ options_ startTime_ endTime_
                emptyPoll)
      as (-> & -> & -> & -> & -> & He & Hpr & Hrp & -> & _ & ->).
    do 5 (split; [done|]). split.
    { intros i Hi. rewrite get_map_below.
      rewrite (proj2 (N.ltb_lt _ _)) by done.
      destruct (get_lt4 (options emptyPoll) i) as [x ->]; [lia|].
      cbn [fmap option_fmap option_map].
      destruct (options_ !! N.to_nat i) as [o|] eqn:Ho; [done|].
      apply lookup_ge_None in Ho. lia. }
    split; [|by repeat split].
    unfold lifecycleState. by rewrite He, Hpr, Hrp.
Qed.

Lemma step_create_Ok env t o st en s id s' :
  transact (createPoll env t o st en) s = (Ok id, s') ->
  step env (CreatePoll t o st en) s = (Ok tt, s').
Proof.
  rewrite step_create. unfold transact.
  destruct (createPoll env t o st en s); congruence.
Qed.

(** The window of an assigned poll is never rewritten. *)
Lemma effect_window env c s s' id :
  effect env c s s' -> id < _pollCount s ->
  startTime (poll_at s' id) = startTime (poll_at s id) /\
  endTime (poll_at s' id) = endTime (poll_at s id) /\
  id < _pollCount s'.
Proof.
  intros Heff Hid.
  inversion Heff as
    [t o st en ? ? Hlen Ht Hc (Hcount & Hp & Hoth & _)
    |id0 ec ip choice ? ? Hadm Hn Hx (Hp & Hoth & _ & _ & Hcount & _)
    |id0 ? ? Hid0 He Hen Hn (Hp & Hoth & _ & Hcount & _)
    |id0 cc proof ? ? Hid0 Hpr Hrp Hlen Hn Hsig (Hp & Hoth & _ & Hcount & _)];
    subst; rewrite Hcount.
  - rewrite Hoth by lia. repeat split; lia.
  - destruct (N.eq_dec id id0) as [->|Hne]; [by rewrite Hp|by rewrite Hoth].
  - destruct (N.eq_dec id id0) as [->|Hne]; [by rewrite Hp|by rewrite Hoth].
  - destruct (N.eq_dec id id0) as [->|Hne]; [by rewrite Hp|by rewrite Hoth].
Qed.

Lemma run_calls_window calls s id :
  id < _pollCount s ->
  startTime (poll_at (run_calls calls s) id) = startTime (poll_at s id) /\
  endTime (poll_at (run_calls calls s) id) = endTime (poll_at s id) /\
  id < _pollCount (run_calls calls s).
Proof.
  revert s. induction calls as [|[env c] calls IH]; intros s Hid; cbn; [done|].
  destruct (step_cases env c s) as [(e & ->)|(s' & -> & Heff)]; cbn [snd];
    [by apply IH|].
  destruct (effect_window env c s s' id Heff Hid) as (<- & <- & Hid').
  by apply IH.
Qed.

(** A vote on an assigned poll whose [endTime] has passed fails at the
    lifecycle or at the time-window check. *)
Lemma vote_after_endTime env id ec ip s :
  id < _pollCount s ->
  startTime (poll_at s id) <= block_timestamp env ->
  endTime (poll_at s id) <= block_timestamp env ->
  step env (Vote id ec ip) s =
    (Reverted (if ended (poll_at s id) then PollClosed else PollExpired), s).
Proof.
  intros Hid Hst Hen. unfold step, body_of.
  destruct (vote_cases env id ec ip s)
    as [(? & H2)|[(? & He & H2)|[(? & ? & Hs & H2)|
    [(? & He & ? & ? & H2)|[(? & ? & ? & ? & ? & H2)|
    [((? & ? & ? & ? & ?) & ? & H2)|[((? & ? & ? & ? & ?) & ? & s1 & H2)|
    ((? & ? & ? & ? & ?) & ? & c & s1 & s2 & ? & ? & ? & ? & H2 & ?)]]]]]]];
    try lia; rewrite He; by apply (transact_Failure _ _ _ _ H2).
Qed.

(** C10. [createPoll] does not read the clock: the same call at another
    time does the same, and a valid configuration is accepted whatever the
    relation of its window to the current time, a start far in the future
    included.  When the window is already over at creation, every later
    vote on the new poll fails at the time-window check with [PollExpired]
    ([PollClosed] once the poll has been ended), through any sequence of
    calls, while [endPoll] succeeds at once. *)
Theorem createPoll_ignores_the_clock env title_ options_ startTime_ endTime_ s :
  reachable s ->
  2 <= N.of_nat (length options_) <= 4 -> startTime_ < endTime_ ->
  _pollCount s < MAX_UINT256 ->
  let id := _pollCount s in
  (forall env',
     msg_sender env' = msg_sender env ->
     createPoll env' title_ options_ startTime_ endTime_ s
       = createPoll env title_ options_ startTime_ endTime_ s) /\
  exists s',
    transact (createPoll env title_ options_ startTime_ endTime_) s
      = (Ok id, s') /\
    startTime (poll_at s' id) = startTime_ /\
    endTime (poll_at s' id) = endTime_ /\
    (endTime_ <= block_timestamp env ->
     forall env2,
       block_timestamp env <= block_timestamp env2 ->
       (forall ec ip, step env2 (Vote id ec ip) s' = (Reverted PollExpired, s'))
       /\ (exists s'', step env2 (EndPoll id) s' = (Ok tt, s''))
       /\ (forall calls ec ip,
             let s2 := run_calls calls s' in
             step env2 (Vote id ec ip) s2 =
               (Reverted (if ended (poll_at s2 id)
                          then PollClosed else PollExpired), s2))).
Proof.
  intros Hr Hlen Ht Hmax id. subst id. split.
  { intros env' Hs. unfold createPoll. by rewrite Hs. }
  pose proof (reachable_wf s Hr) as Hwf.
  pose proof (proj2 (Hwf (_pollCount s)) (N.le_refl _)) as Hempty.
  unfold MAX_UINT256 in Hmax.
  destruct (createPoll_cases env title_ options_ startTime_ endTime_ s)
    as [(? & H')|[(? & ? & H')|[(? & ? & ? & H')|
       (_ & _ & _ & s' & H' & (Hcount & Hp & _))]]];
    try (unfold MAX_UINT256 in *; lia).
  exists s'. pose proof (transact_Success _ _ _ _ H') as Htx.
  split; [done|].
  rewrite Hempty in Hp.
  assert (Hst : startTime (poll_at s' (_pollCount s)) = startTime_)
    by (by rewrite Hp).
  assert (Hen : endTime (poll_at s' (_pollCount s)) = endTime_)
    by (by rewrite Hp).
  assert (He : ended (poll_at s' (_pollCount s)) = false) by (by rewrite Hp).
  assert (Hn : optionCount (poll_at s' (_pollCount s)) <= 4)
    by (rewrite Hp; cbn; lia).
  do 2 (split; [done|]).
  intros Hpast env2 Hlater.
  assert (Hid : _pollCount s < _pollCount s') by lia.
  split; [|split].
  - intros ec ip.
    rewrite (vote_after_endTime env2 (_pollCount s) ec ip s') by lia.
    by rewrite He.
  - destruct (endPoll_cases env2 (_pollCount s) s')
      as [(? & H2)|[(? & ? & H2)|[(? & ? & ? & H2)|
         [(? & ? & ? & ? & s1 & H2)|(? & ? & ? & ? & s2 & H2 & ?)]]]];
      try lia; try congruence.
    exists s2. by apply transact_Success.
  - intros calls ec ip s2. subst s2.
    destruct (run_calls_window calls s' (_pollCount s) Hid) as (Hs2 & He2 & Hi2).
    apply vote_after_endTime; [done|lia|lia].
Qed.

Lemma abi_word_uint32_length v : length (abi_word_uint32 v) = 32%nat.
Proof. reflexivity. Qed.

Lemma abi_encode_length vs : length (abi_encode vs) = (32 * length vs)%nat.
Proof.
  unfold abi_encode. induction vs as [|v vs IH]; [done|].
  cbn [map concat]. rewrite length_app, IH, abi_word_uint32_length.
  cbn [length]. lia.
Qed.

(** The [k]-th 32-byte word of the encoding is the word of the [k]-th
    value. *)
Lemma abi_encode_word vs k v :
  vs !! k = Some v ->
  take 32 (drop (32 * k) (abi_encode vs)) = abi_word_uint32 v.
Proof.
  unfold abi_encode. revert k.
  induction vs as [|v0 vs IH]; intros [|k] Hk; try discriminate.
  - injection Hk as ->. cbn [map concat]. rewrite Nat.mul_0_r, drop_0.
    apply take_app_length'. by rewrite abi_word_uint32_length.
  - cbn [map concat].
    replace (32 * S k)%nat with (length (abi_word_uint32 v0) + 32 * k)%nat
      by (rewrite abi_word_uint32_length; lia).
    rewrite drop_app_add. by apply IH.
Qed.

Lemma to_N_byte_of_N z : Byte.to_N (byte_of_N z) = z mod 256.
Proof.
  unfold byte_of_N. destruct (Byte.of_N (z mod 256)) as [b|] eqn:Hb.
  - by apply Byte.to_of_N.
  - apply Byte.of_N_None_iff in Hb.
    pose proof (N.mod_upper_bound z 256). lia.
Qed.

Lemma abi_decode_word_encode v :
  v < 2 ^ 32 -> abi_decode_word (abi_word_uint32 v) = v.
Proof.
  intros Hv. unfold abi_decode_word, abi_word_uint32.
  cbn [List.repeat app fold_left Byte.to_N].
  rewrite !to_N_byte_of_N, !N.shiftr_div_pow2.
  change (2 ^ 24) with 16777216. change (2 ^ 16) with 65536.
  change (2 ^ 8) with 256. change (2 ^ 32) with 4294967296 in Hv.
  replace (v / 65536) with (v / 256 / 256) by (by rewrite N.Div0.div_div).
  replace (v / 16777216) with (v / 256 / 256 / 256)
    by (by rewrite !N.Div0.div_div).
  zify. Z.to_euclidean_division_equations. lia.
Qed.

Lemma abi_word_uint32_inj v w :
  v < 2 ^ 32 -> w < 2 ^ 32 -> abi_word_uint32 v = abi_word_uint32 w -> v = w.
Proof.
  intros Hv Hw H.
  by rewrite <- (abi_decode_word_encode v Hv), <- (abi_decode_word_encode w Hw), H.
Qed.

(** Vectors of [uint32] values of the same length with the same encoding
    are the same vector. *)
Lemma abi_encode_inj vs ws :
  length vs = length ws ->
  Forall (fun v => v < 2 ^ 32) vs -> Forall (fun v => v < 2 ^ 32) ws ->
  abi_encode vs = abi_encode ws -> vs = ws.
Proof.
  unfold abi_encode. revert ws.
  induction vs as [|v vs IH]; intros [|w ws] Hlen Hvs Hws H;
    try discriminate; [done|].
  cbn [map concat] in H.
  apply app_inj_1 in H as [Hw Hrest]; [|done].
  inversion Hvs; inversion Hws; subst.
  f_equal; [by apply abi_word_uint32_inj|].
  apply IH; auto.
Qed.

Lemma tallyHandles_length p :
  optionCount p <= 4 -> length (tallyHandles p) = N.to_nat (optionCount p).
Proof.
  intros Hn. unfold tallyHandles. rewrite length_map, length_take.
  cbn [Array4Ops.to_list length]. lia.
Qed.

Lemma tallyHandles_lookup p k :
  optionCount p <= 4 -> N.of_nat k < optionCount p ->
  tallyHandles p !! k
    = FHE.unwrap <$> Array4Ops.get (encryptedCounts p) (N.of_nat k).
Proof.
  intros Hn Hk. unfold tallyHandles. rewrite list_lookup_fmap.
  destruct (get_lt4 (encryptedCounts p) (N.of_nat k)) as [h Hh]; [lia|].
  rewrite Hh.
  by rewrite (proj2 (take_to_list_lookup (encryptedCounts p) (optionCount p)
                       k h Hn) (conj Hk Hh)).
Qed.

(** C2. For a publishable poll and cleartexts of the right length,
    [publishResults] builds the handle list of the [optionCount] first
    tally slots of this poll, in slot order, and the encoding made of one
    32-byte word per cleartext, in order, [optionCount] words in all, which
    no other vector of as many [uint32] values shares; it succeeds exactly
    when [FHE.checkSignatures] accepts this pair with the proof, and
    otherwise fails with [InvalidProof] with the state, and so the public
    tally, unchanged. *)
Theorem publishResults_binds_the_proof env id clearCounts proof s :
  reachable s -> id < _pollCount s ->
  publicReady (poll_at s id) = true ->
  resultsPublished (poll_at s id) = false ->
  N.of_nat (length clearCounts) = optionCount (poll_at s id) ->
  let p := poll_at s id in
  let n := optionCount p in
  let handles := tallyHandles p in
  let encoding := abi_encode clearCounts in
  let r := step env (PublishResults id clearCounts proof) s in
  publishResults_handles id s = Success handles s /\
  length handles = N.to_nat n /\
  (forall k, N.of_nat k < n ->
     handles !! k
       = FHE.unwrap <$> Array4Ops.get (encryptedCounts p) (N.of_nat k)) /\
  publishResults_cleartexts id clearCounts s = Success encoding s /\
  length encoding = (32 * N.to_nat n)%nat /\
  (forall k v, clearCounts !! k = Some v ->
     take 32 (drop (32 * k) encoding) = abi_word_uint32 v) /\
  (forall others,
     length others = length clearCounts ->
     Forall (fun v => v < 2 ^ 32) clearCounts ->
     Forall (fun v => v < 2 ^ 32) others ->
     abi_encode others = encoding -> others = clearCounts) /\
  (FHE.checkSignatures handles encoding proof = true ->
   exists s', r = (Ok tt, s') /\ published id clearCounts s s') /\
  (FHE.checkSignatures handles encoding proof = false ->
   r = (Reverted InvalidProof, s)).
Proof.
  intros Hr Hid Hpr Hrp Hlen p n handles encoding r.
  subst p n handles encoding r.
  destruct (reachable_poll_wf s id Hr Hid) as ((Hn2 & Hn4) & _).
  split; [by apply publishResults_handles_ok|].
  split; [by apply tallyHandles_length|].
  split; [intros k Hk; by apply tallyHandles_lookup|].
  split; [by apply publishResults_cleartexts_ok|].
  split; [rewrite abi_encode_length; lia|].
  split; [intros k v; apply abi_encode_word|].
  split; [intros others ? ? ? ?; by apply abi_encode_inj|].
  unfold step, body_of.
  destruct (publishResults_cases env id clearCounts proof s)
    as [(? & H')|[(? & ? & H')|[(? & ? & ? & H')|[(? & ? & ? & ? & H')|
       [(? & ? & ? & ? & ? & s1 & H')|[(? & ? & ? & ? & ? & Hsig & H')|
        (? & ? & ? & ? & ? & Hsig & s' & H' & ?)]]]]]];
    try lia; try congruence.
  - split; [congruence|]. intros _. by apply (transact_Failure _ _ _ _ H').
  - split; [|congruence]. intros _. exists s'.
    split; [by apply transact_Success|done].
Qed.

(** C4. On an assigned poll [publishResults] checks, in this order, that
    [publicReady] is set ([NotReady]), that [resultsPublished] is unset
    ([AlreadyPublished]) and that the number of cleartexts is [optionCount]
    ([LengthMismatch]): a wrong length fails at one of the three, whatever
    the proof, and never gets to the proof verification.  A successful call stores the cleartexts in the slots below
    [optionCount], keeps the other slots, sets [resultsPublished], and
    every later [publishResults] on the poll fails with [AlreadyPublished]
    leaving the state unchanged. *)
Theorem publishResults_checks env id clearCounts proof s :
  reachable s -> id < _pollCount s ->
  let p := poll_at s id in
  let n := optionCount p in
  let r := step env (PublishResults id clearCounts proof) s in
  (publicReady p = false -> r = (Reverted NotReady, s)) /\
  (resultsPublished p = true -> r = (Reverted AlreadyPublished, s)) /\
  (publicReady p = true -> resultsPublished p = false ->
   N.of_nat (length clearCounts) <> n -> r = (Reverted LengthMismatch, s)) /\
  (N.of_nat (length clearCounts) <> n ->
   r = (Reverted NotReady, s) \/ r = (Reverted AlreadyPublished, s) \/
   r = (Reverted LengthMismatch, s)) /\
  (forall s', r = (Ok tt, s') ->
     publicReady p = true /\ resultsPublished p = false /\
     N.of_nat (length clearCounts) = n /\
     (forall i, i < n ->
        Array4Ops.get (publicCounts (poll_at s' id)) i
          = clearCounts !! N.to_nat i) /\
     (forall i, n <= i ->
        Array4Ops.get (publicCounts (poll_at s' id)) i
          = Array4Ops.get (publicCounts p) i) /\
     resultsPublished (poll_at s' id) = true /\
     forall env2 clearCounts2 proof2,
       step env2 (PublishResults id clearCounts2 proof2) s'
         = (Reverted AlreadyPublished, s')).
Proof.
  intros Hr Hid p n r. subst p n r.
  destruct (reachable_poll_wf s id Hr Hid) as ((Hn2 & Hn4) & _ & _ & Hinv).
  unfold step, body_of.
  pose proof (publishResults_cases env id clearCounts proof s) as Hc.
  cbv zeta in Hc.
  split; [|split; [|split; [|split]]].
  1-3: intros;
    try match goal with H : resultsPublished _ = true |- _ =>
          specialize (Hinv H) end;
    destruct Hc as [(? & H')|[(? & ? & H')|[(? & ? & ? & H')|[(? & ? & ? & ? & H')|
       [(? & ? & ? & ? & ? & s1 & H')|[(? & ? & ? & ? & ? & Hsig & H')|
        (? & ? & ? & ? & ? & Hsig & s' & H' & ?)]]]]]];
    try lia; try congruence; by rewrite (transact_Failure _ _ _ _ H').
  - intros Hlen.
    destruct Hc as [(? & H')|[(? & ? & H')|[(? & ? & ? & H')|[(? & ? & ? & ? & H')|
       [(? & ? & ? & ? & ? & s1 & H')|[(? & ? & ? & ? & ? & Hsig & H')|
        (? & ? & ? & ? & ? & Hsig & s' & H' & ?)]]]]]];
      try lia; try congruence; rewrite (transact_Failure _ _ _ _ H'); auto.
  - intros s' Hs.
    destruct Hc as [(? & H')|[(? & ? & H')|[(? & ? & ? & H')|[(? & ? & ? & ? & H')|
       [(? & ? & ? & ? & ? & s1 & H')|[(? & ? & ? & ? & ? & Hsig & H')|
        (_ & Hpr & Hrp & Hlen & _ & Hsig & s'' & H' &
         (Hp & _ & _ & Hcount & _))]]]]]];
      try (rewrite (transact_Failure _ _ _ _ H') in Hs; discriminate).
    rewrite (transact_Success _ _ _ _ H') in Hs. injection Hs as <-.
    do 3 (split; [done|]). rewrite Hp.
    cbn [publicCounts resultsPublished with_resultsPublished with_publicCounts].
    split; [|split; [|split; [done|]]].
    + intros i Hi. rewrite get_map_below.
      rewrite (proj2 (N.ltb_lt _ _)) by done.
      destruct (get_lt4 (publicCounts (poll_at s id)) i) as [x ->]; [lia|].
      cbn [fmap option_fmap option_map].
      destruct (clearCounts !! N.to_nat i) as [v|] eqn:Hv; [done|].
      apply lookup_ge_None in Hv. lia.
    + intros i Hi. rewrite get_map_below.
      by rewrite (proj2 (N.ltb_ge _ _)).
    + intros env2 cc2 proof2.
      assert (G1 : publicReady (poll_at s'' id) = true) by (by rewrite Hp).
      assert (G2 : resultsPublished (poll_at s'' id) = true)
        by (by rewrite Hp).
      destruct (publishResults_cases env2 id cc2 proof2 s'')
        as [(? & H2)|[(? & ? & H2)|[(? & ? & ? & H2)|[(? & ? & ? & ? & H2)|
           [(? & ? & ? & ? & ? & s1 & H2)|[(? & ? & ? & ? & ? & ? & H2)|
            (? & ? & ? & ? & ? & ? & s3 & H2 & ?)]]]]]];
        try lia; try congruence.
      by apply (transact_Failure _ _ _ _ H2).
Qed.
End Properties.

(** * The end-to-end scenario as an instance *)

Lemma reachable_opened : reachable Scenario.opened.
Proof. apply reachable_step, reachable_initial. Qed.
Lemma reachable_voted_a : reachable Scenario.voted_a.
Proof. apply reachable_step, reachable_opened. Qed.
Lemma reachable_voted_b : reachable Scenario.voted_b.
Proof. apply reachable_step, reachable_voted_a. Qed.
Lemma reachable_closed : reachable Scenario.closed.
Proof. apply reachable_step, reachable_voted_b. Qed.
Lemma reachable_final : reachable Scenario.final.
Proof. apply reachable_step, reachable_closed. Qed.

Lemma vote_updates_every_slot_witness :
  step (Scenario.env_at 101 2) (Scenario.vote_for 0 0) Scenario.opened
    = (Ok tt, Scenario.voted_a) /\
  Array4Ops.get (encryptedCounts (poll_at Scenario.voted_a 0)) 0 = Some 1 /\
  Array4Ops.get (encryptedCounts (poll_at Scenario.voted_a 0)) 1 = Some 0 /\
  Array4Ops.get (encryptedCounts (poll_at Scenario.voted_a 0)) 2 =
  Array4Ops.get (encryptedCounts (poll_at Scenario.opened 0)) 2.
Proof.
  assert (H : step (Scenario.env_at 101 2) (Scenario.vote_for 0 0)
                Scenario.opened = (Ok tt, Scenario.voted_a))
    by (vm_compute; reflexivity).
  split; [exact H|].
  destruct (vote_updates_every_slot _ _ _ _ _ _ _ H) as [Hhigh Hlow].
  destruct (Hlow eq_refl) as (c & Hc & Hslots & _).
  vm_compute in Hc. injection Hc as <-.
  destruct (Hslots 0 ltac:(vm_compute; reflexivity)) as (o0 & Ho0 & ->).
  destruct (Hslots 1 ltac:(vm_compute; reflexivity)) as (o1 & Ho1 & ->).
  vm_compute in Ho0, Ho1. injection Ho0 as <-. injection Ho1 as <-.
  split; [vm_compute; reflexivity|]. split; [vm_compute; reflexivity|].
  apply Hhigh. right. vm_compute. discriminate.
Defined.

Lemma vote_checks_in_order_witness :
  reachable Scenario.voted_a /\
  step (Scenario.env_at 103 2) (Scenario.vote_for 0 0) Scenario.voted_a
    = (Reverted DuplicateVote, Scenario.voted_a).
Proof.
  split; [exact reachable_voted_a|].
  destruct (@vote_checks_in_order Mock.lib (Scenario.env_at 103 2) 0 0
              [Byte.x01] Scenario.voted_a reachable_voted_a)
    as (_ & _ & _ & _ & Hdup & _).
  apply Hdup; vm_compute; try reflexivity. split; [discriminate|reflexivity].
Defined.

Lemma endPoll_seals_the_tally_witness :
  reachable Scenario.voted_b /\
  step (Scenario.env_at 3701 1) (EndPoll 0) Scenario.voted_b
    = (Ok tt, Scenario.closed) /\
  FHE.publiclyDecryptable (acl Scenario.closed) = [1; 1].
Proof.
  split; [exact reachable_voted_b|].
  assert (H : step (Scenario.env_at 3701 1) (EndPoll 0) Scenario.voted_b
              = (Ok tt, Scenario.closed)) by (vm_compute; reflexivity).
  split; [exact H|].
  destruct (endPoll_seals_the_tally (Scenario.env_at 3701 1) 0
              Scenario.voted_b reachable_voted_b)
    as (_ & _ & _ & _ & Hok).
  destruct (Hok _ H) as (_ & _ & _ & _ & _ & -> & _).
  vm_compute. reflexivity.
Defined.

Lemma failure_is_atomic_witness :
  step (Scenario.env_at 103 2) (Scenario.vote_for 0 0) Scenario.voted_a
    = (Reverted DuplicateVote, Scenario.voted_a) /\
  body_of (Scenario.env_at 103 2) (Scenario.vote_for 0 0) Scenario.voted_a
    = Failure DuplicateVote Scenario.voted_a.
Proof.
  assert (H : step (Scenario.env_at 103 2) (Scenario.vote_for 0 0)
                Scenario.voted_a = (Reverted DuplicateVote, Scenario.voted_a))
    by (vm_compute; reflexivity).
  split; [exact H|].
  exact (proj2 (failure_is_atomic _ _ _ _ _ H) reachable_voted_a).
Defined.

Lemma publishResults_binds_the_proof_witness :
  reachable Scenario.closed /\
  step (Scenario.env_at 3702 1) (PublishResults 0 [2; 1] [Byte.x01])
       Scenario.closed = (Reverted InvalidProof, Scenario.closed) /\
  exists s', step (Scenario.env_at 3702 1) (PublishResults 0 [1; 1] [Byte.x01])
                  Scenario.closed = (Ok tt, s').
Proof.
  split; [exact reachable_closed|]. split.
  - apply (@publishResults_binds_the_proof Mock.lib (Scenario.env_at 3702 1) 0
             [2; 1] [Byte.x01] Scenario.closed reachable_closed);
      vm_compute; reflexivity.
  - destruct (@publishResults_binds_the_proof Mock.lib (Scenario.env_at 3702 1)
                0 [1; 1] [Byte.x01] Scenario.closed reachable_closed)
      as (_ & _ & _ & _ & _ & _ & _ & Hok & _); try (vm_compute; reflexivity).
    destruct Hok as (s' & Hs & _); [vm_compute; reflexivity|].
    by exists s'.
Defined.

Lemma publishResults_checks_witness :
  reachable Scenario.closed /\
  step (Scenario.env_at 3702 1) (PublishResults 0 [1] [Byte.x01])
       Scenario.closed = (Reverted LengthMismatch, Scenario.closed) /\
  step (Scenario.env_at 3703 1) (PublishResults 0 [1; 1] [Byte.x01])
       Scenario.final = (Reverted AlreadyPublished, Scenario.final).
Proof.
  split; [exact reachable_closed|]. split.
  - destruct (@publishResults_checks Mock.lib (Scenario.env_at 3702 1) 0
                [1] [Byte.x01] Scenario.closed reachable_closed)
      as (_ & _ & Hlen & _); [vm_compute; reflexivity|].
    apply Hlen; vm_compute; first [reflexivity | discriminate].
  - destruct (@publishResults_checks Mock.lib (Scenario.env_at 3702 1) 0
                [1; 1] [Byte.x01] Scenario.closed reachable_closed)
      as (_ & _ & _ & _ & Hok); [vm_compute; reflexivity|].
    destruct (Hok Scenario.final ltac:(vm_compute; reflexivity))
      as (_ & _ & _ & _ & _ & _ & Hagain).
    apply Hagain.
Defined.

Lemma lifecycle_is_monotone_witness :
  reachable Scenario.opened /\
  exists l l',
    lifecycleState (poll_at Scenario.opened 0) = Some l /\
    lifecycleState
      (poll_at (run_calls [(Scenario.env_at 101 2, Scenario.vote_for 0 0);
                           (Scenario.env_at 3701 1, EndPoll 0)]
                          Scenario.opened) 0) = Some l' /\
    (stage l <= stage l')%nat.
Proof.
  split; [exact reachable_opened|].
  destruct (@lifecycle_is_monotone Mock.lib Scenario.opened 0
              [(Scenario.env_at 101 2, Scenario.vote_for 0 0);
               (Scenario.env_at 3701 1, EndPoll 0)] reachable_opened)
    as (_ & _ & _ & _ & _ & H).
  exact H.
Defined.

Lemma tally_frozen_after_end_witness :
  reachable Scenario.closed /\
  ended (poll_at Scenario.closed 0) = true /\
  encryptedCounts
    (poll_at (run_calls [(Scenario.env_at 3702 4, Scenario.vote_for 0 1);
                         (Scenario.env_at 3703 1, EndPoll 0)]
                        Scenario.closed) 0)
  = encryptedCounts (poll_at Scenario.closed 0).
Proof.
  split; [exact reachable_closed|].
  assert (H : ended (poll_at Scenario.closed 0) = true)
    by (vm_compute; reflexivity).
  split; [exact H|].
  exact (proj1 (@tally_frozen_after_end Mock.lib Scenario.closed 0
                  [(Scenario.env_at 3702 4, Scenario.vote_for 0 1);
                   (Scenario.env_at 3703 1, EndPoll 0)] reachable_closed H)).
Defined.

Lemma createPoll_allocates_witness :
  reachable (fhe := Mock.lib) initial /\
  exists s',
    transact (createPoll (fhe := Mock.lib) (Scenario.env_at 50 1) "City Budget"
                ["Parks"; "Transit"]%string 100 3700) initial = (Ok 0, s') /\
    lifecycleState (poll_at s' 0) = Some Open.
Proof.
  split; [exact reachable_initial|].
  destruct (@createPoll_allocates Mock.lib (Scenario.env_at 50 1) "City Budget"
              ["Parks"; "Transit"]%string 100 3700 initial reachable_initial)
    as (_ & Hok).
  destruct Hok as (s' & Hs & _ & _ & _ & _ & _ & _ & _ & _ & _ & _ & Hl & _);
    [vm_compute; split; discriminate|vm_compute; reflexivity
    |vm_compute; reflexivity|].
  exists s'. by split.
Defined.

Lemma createPoll_ignores_the_clock_witness :
  reachable (fhe := Mock.lib) initial /\
  exists s',
    transact (createPoll (fhe := Mock.lib) (Scenario.env_at 5000 1) "City Budget"
                ["Parks"; "Transit"]%string 100 3700) initial = (Ok 0, s') /\
    step (Scenario.env_at 5001 2) (Scenario.vote_for 0 0) s'
      = (Reverted PollExpired, s') /\
    exists s'', step (Scenario.env_at 5001 2) (EndPoll 0) s' = (Ok tt, s'').
Proof.
  split; [exact reachable_initial|].
  destruct (@createPoll_ignores_the_clock Mock.lib (Scenario.env_at 5000 1)
              "City Budget" ["Parks"; "Transit"]%string 100 3700 initial
              reachable_initial)
    as (_ & s' & Hs & _ & _ & Hpast);
    [vm_compute; split; discriminate|vm_compute; reflexivity
    |vm_compute; reflexivity|].
  exists s'. split; [exact Hs|].
  destruct (Hpast ltac:(vm_compute; discriminate) (Scenario.env_at 5001 2)
              ltac:(vm_compute; discriminate)) as (Hv & He & _).
  split; [apply Hv|exact He].
Defined.

(** The marks are ciphertexts: when the library gives two slots the same
    ciphertext, as the cleartext implementation does for the zeros of a
    fresh poll, marking a used slot marks the ciphertext an unused slot
    holds too. *)
Remark unused_slot_may_hold_a_marked_ciphertext :
  let s := snd (step (Scenario.env_at 3701 1) (EndPoll 0) Scenario.opened) in
  Array4Ops.get (encryptedCounts (poll_at s 0)) 3 = Some 0 /\
  FHE.publiclyDecryptable (acl s) = [0; 0].
Proof. vm_compute. by split. Qed.

(** * Further properties of the contract *)

Section StepFacts.
Context {fhe : FHE.Lib}.

(** Induction on the reachable states through the effect of the successful
    calls. *)
Lemma reachable_effect_ind (P : State -> Prop) :
  P initial ->
  (forall s env c s', reachable s -> P s -> effect env c s s' -> P s') ->
  forall s, reachable s -> P s.
Proof.
  intros Hinit Hstep s Hr.
  induction Hr as [|s env c Hr IH]; [done|].
  destruct (step_cases env c s) as [(e & ->)|(s' & -> & Heff)]; [done|].
  by eapply Hstep.
Qed.

(** The event a successful call appends, and nothing else. *)
Lemma effect_events env c s s' :
  effect env c s s' ->
  exists e, events s' = events s ++ [e] /\
    match c, e with
    | CreatePoll t o st en, PollCreated id who t' n st' en' =>
        id = _pollCount s /\ who = msg_sender env /\ t' = t /\
        n = N.of_nat (length o) /\ st' = st /\ en' = en
    | Vote id _ _, VoteCast id' who => id' = id /\ who = msg_sender env
    | EndPoll id, PollEnded id' => id' = id
    | PublishResults id _ _, ResultsPublished id' => id' = id
    | _, _ => False
    end.
Proof.
  intros Heff.
  inversion Heff as
    [t o st en ? ? Hlen Ht Hcnt (_ & _ & _ & _ & _ & _ & Hev)
    |id0 ec ip choice ? ? Hadm Hn Hx (_ & _ & _ & _ & _ & _ & _ & Hev)
    |id0 ? ? Hid0 He Hen Hn (_ & _ & _ & _ & _ & _ & Hev)
    |id0 cc proof ? ? Hid0 Hpr Hrp Hlen Hn Hsig (_ & _ & _ & _ & _ & Hev)];
    subst; eexists; (split; [exact Hev|]); by repeat split.
Qed.

(** What a successful call does to the polls and to the counter. *)
Lemma effect_polls env c s s' id :
  effect env c s s' ->
  (id <> target s c -> poll_at s' id = poll_at s id) /\
  _pollCount s <= _pollCount s' /\
  (id < _pollCount s -> metadata (poll_at s' id) = metadata (poll_at s id)).
Proof.
  intros Heff.
  inversion Heff as
    [t o st en ? ? Hlen Ht Hc (Hcount & Hp & Hoth & _)
    |id0 ec ip choice ? ? Hadm Hn Hx (Hp & Hoth & _ & _ & Hcount & _)
    |id0 ? ? Hid0 He Hen Hn (Hp & Hoth & _ & Hcount & _)
    |id0 cc proof ? ? Hid0 Hpr Hrp Hlen Hn Hsig (Hp & Hoth & _ & Hcount & _)];
    subst; cbn [target]; rewrite Hcount;
    (split; [apply Hoth|]); (split; [lia|]); intros Hid.
  - rewrite Hoth; [done|lia].
  - destruct (N.eq_dec id id0) as [->|Hne]; [by rewrite Hp|by rewrite Hoth].
  - destruct (N.eq_dec id id0) as [->|Hne]; [by rewrite Hp|by rewrite Hoth].
  - destruct (N.eq_dec id id0) as [->|Hne]; [by rewrite Hp|by rewrite Hoth].
Qed.

Lemma step_polls env c s id :
  _pollCount s <= _pollCount (snd (step env c s)) /\
  (id < _pollCount s ->
   metadata (poll_at (snd (step env c s)) id) = metadata (poll_at s id)).
Proof.
  destruct (step_cases env c s) as [(e & ->)|(s' & -> & Heff)]; [done|].
  by destruct (effect_polls env c s s' id Heff) as (_ & ? & ?).
Qed.

Lemma run_calls_polls calls s id :
  _pollCount s <= _pollCount (run_calls calls s) /\
  (id < _pollCount s ->
   metadata (poll_at (run_calls calls s) id) = metadata (poll_at s id)).
Proof.
  revert s. induction calls as [|[env c] calls IH]; intros s; cbn [run_calls];
    [done|].
  destruct (step_polls env c s id) as (Hc & Hm).
  destruct (IH (snd (step env c s))) as (Hc' & Hm').
  split; [lia|]. intros Hid. rewrite Hm' by lia. by apply Hm.
Qed.

End StepFacts.

(** Induction on the reachable states, through the effect of the successful
    calls; see [reachable_effect_ind]. *)
Ltac reachable_induction s Hr :=
  pattern s; revert s Hr; apply reachable_effect_ind; cbv beta.

Section Views.
Context {fhe : FHE.Lib}.

Lemma view_results s id voter :
  id < _pollCount s ->
  let p := poll_at s id in
  transact (getPoll id) s =
    (Ok (title p, options p, optionCount p, startTime p, endTime p,
         creator p, ended p, publicReady p, resultsPublished p), s) /\
  transact (getEncryptedCounts id) s = (Ok (encryptedCounts p), s) /\
  transact (getPublicCounts id) s = (Ok (publicCounts p), s) /\
  transact (hasVoted id voter) s = (Ok (voted_at s id voter), s).
Proof.
  intros Hid. apply N.ltb_lt in Hid.
  unfold transact, getPoll, getEncryptedCounts, getPublicCounts, hasVoted.
  mred. by rewrite Hid.
Qed.

(** X1. The four views that take a poll id revert with [NotFound], with
    the storage as it was, on every id at or above the counter.  On an id
    below the counter they return, also after any sequence of calls, and
    [getPoll] then still returns the title, options, option count, times
    and creator it returned before the calls. *)
Theorem views_know_the_assigned_ids s id voter calls :
  let s' := run_calls calls s in
  (_pollCount s <= id ->
   transact (getPoll id) s = (Reverted NotFound, s) /\
   transact (getEncryptedCounts id) s = (Reverted NotFound, s) /\
   transact (getPublicCounts id) s = (Reverted NotFound, s) /\
   transact (hasVoted id voter) s = (Reverted NotFound, s)) /\
  (id < _pollCount s ->
   (exists e pr rp,
      transact (getPoll id) s' =
        (Ok (title (poll_at s id), options (poll_at s id),
             optionCount (poll_at s id), startTime (poll_at s id),
             endTime (poll_at s id), creator (poll_at s id), e, pr, rp), s')) /\
   (exists counts, transact (getEncryptedCounts id) s' = (Ok counts, s')) /\
   (exists counts, transact (getPublicCounts id) s' = (Ok counts, s')) /\
   (exists b, transact (hasVoted id voter) s' = (Ok b, s'))).
Proof.
  intros s'. split.
  - intros Hid. apply N.ltb_ge in Hid.
    unfold transact, getPoll, getEncryptedCounts, getPublicCounts, hasVoted.
    mred. by rewrite Hid.
  - intros Hid. subst s'.
    destruct (run_calls_polls calls s id) as (Hc & Hm).
    specialize (Hm Hid). unfold metadata in Hm.
    injection Hm as <- <- <- <- <- <-.
    destruct (view_results (run_calls calls s) id voter) as (-> & -> & -> & ->);
      [lia|]. eauto 10.
Qed.

(** X2. On a reachable state the ids of the [PollCreated] events are
    0, 1, ..., [_pollCount - 1], in log order, and every [PollCreated] event
    carries the creator, title, option count and times the storage holds for
    its id. *)
Theorem ids_are_sequential s :
  reachable s ->
  created_ids (events s) = N.of_nat <$> seq 0 (N.to_nat (_pollCount s)) /\
  (forall id who t n st en,
     PollCreated id who t n st en ∈ events s ->
     id < _pollCount s /\
     creator (poll_at s id) = who /\ title (poll_at s id) = t /\
     optionCount (poll_at s id) = n /\
     startTime (poll_at s id) = st /\ endTime (poll_at s id) = en).
Proof.
  revert s. apply reachable_effect_ind.
  { split; [done|]. intros ? ? ? ? ? ? H. by apply elem_of_nil in H. }
  intros s env c s' Hr (IHids & IHev) Heff.
  destruct (effect_events env c s s' Heff) as (e & Hev & He).
  pose proof (fun id => effect_polls env c s s' id Heff) as Hpolls.
  rewrite Hev. unfold created_ids. rewrite omap_app. fold (created_ids (events s)).
  rewrite IHids. split.
  - inversion Heff as
      [t o st en ? ? Hlen Ht Hc (Hcount & _)
      |id0 ec ip choice ? ? Hadm Hn Hx (_ & _ & _ & _ & Hcount & _)
      |id0 ? ? Hid0 He' Hen Hn (_ & _ & _ & Hcount & _)
      |id0 cc proof ? ? Hid0 Hpr Hrp Hlen Hn Hsig (_ & _ & _ & Hcount & _)];
      subst; destruct e; try done; cbn [omap list_omap];
      rewrite Hcount, ?app_nil_r; try done.
    destruct He as (-> & _).
    replace (N.to_nat (_pollCount s + 1)) with (S (N.to_nat (_pollCount s)))
      by lia.
    rewrite seq_S, fmap_app. cbn. by rewrite N2Nat.id.
  - intros id who t n st en Hin. apply elem_of_app in Hin as [Hin|Hin].
    + destruct (IHev _ _ _ _ _ _ Hin) as (Hid & <- & <- & <- & <- & <-).
      destruct (Hpolls id) as (_ & Hc & Hm). specialize (Hm Hid).
      unfold metadata in Hm. injection Hm as -> _ -> -> -> ->.
      split; [lia|done].
    + apply list_elem_of_singleton in Hin as <-.
      inversion Heff as
        [t' o st' en' ? ? Hlen Ht Hc (Hcount & Hp & _)| | |];
        subst; try done.
      destruct He as (-> & -> & -> & -> & -> & ->).
      rewrite Hcount, Hp. split; [lia|done].
Qed.

End Views.

Section Receipts.
Context {fhe : FHE.Lib}.

(** What a successful call does to the receipts. *)
Lemma effect_receipts env c s s' id v :
  effect env c s s' ->
  voted_at s' id v =
    match c with
    | Vote id0 _ _ =>
        if decide ((id0, msg_sender env) = (id, v)) then true
        else voted_at s id v
    | _ => voted_at s id v
    end.
Proof.
  intros Heff.
  inversion Heff as
    [t o st en ? ? Hlen Ht Hc (_ & _ & _ & Hv & _)
    |id0 ec ip choice ? ? Hadm Hn Hx (_ & _ & Hv1 & Hv & _)
    |id0 ? ? Hid0 He Hen Hn (_ & _ & Hv & _)
    |id0 cc proof ? ? Hid0 Hpr Hrp Hlen Hn Hsig (_ & _ & Hv & _)];
    subst; try apply Hv.
  case_decide as Hd; [by injection Hd as <- <-|by apply Hv].
Qed.

Lemma step_receipts env c s id v :
  voted_at s id v = true -> voted_at (snd (step env c s)) id v = true.
Proof.
  intros Hv. destruct (step_cases env c s) as [(e & ->)|(s' & -> & Heff)];
    [done|]. cbn [snd]. rewrite (effect_receipts env c s s' id v Heff).
  destruct c; try done. by case_decide.
Qed.

Lemma receipts_iff s :
  reachable s ->
  forall id v, voted_at s id v = true <-> (id, v) ∈ cast_votes (events s).
Proof.
  intros Hr. reachable_induction s Hr.
  - intros id v. split; [discriminate|]. intros H. by apply elem_of_nil in H.
  - intros s env c s' Hr IH Heff id v.
    destruct (effect_events env c s s' Heff) as (e & Hev & He).
    rewrite Hev. unfold cast_votes. rewrite omap_app.
    fold (cast_votes (events s)).
    rewrite (effect_receipts env c s s' id v Heff), elem_of_app, <- IH.
    destruct c, e; try done; cbn [omap list_omap];
      rewrite ?elem_of_nil; try tauto.
    destruct He as (-> & ->). rewrite list_elem_of_singleton.
    case_decide as Hd.
    + injection Hd as -> ->. tauto.
    + split; [tauto|]. intros [?|Heq]; [done|]. congruence.
Qed.

(** X3. On a reachable state a voter holds a receipt for a poll exactly
    when a [VoteCast] event for this poll and voter is in the log; no such
    event is logged twice; a receipt is held only for an id below the
    counter; and no sequence of calls takes a receipt away. *)
Theorem receipts_match_the_votes_cast s calls :
  reachable s ->
  (forall id v, voted_at s id v = true <-> (id, v) ∈ cast_votes (events s)) /\
  NoDup (cast_votes (events s)) /\
  (forall id v, voted_at s id v = true -> id < _pollCount s) /\
  (forall id v, voted_at s id v = true ->
                voted_at (run_calls calls s) id v = true).
Proof.
  intros Hr. split; [by apply receipts_iff|]. split; [|split].
  3:{ clear Hr. revert s.
      induction calls as [|[env c] calls IH]; intros s id v Hv; cbn [run_calls];
        [done|]. by apply IH, step_receipts. }
  all: reachable_induction s Hr.
  - constructor.
  - intros s env c s' Hr IH Heff.
    destruct (effect_events env c s s' Heff) as (e & Hev & He).
    rewrite Hev. unfold cast_votes. rewrite omap_app.
    fold (cast_votes (events s)).
    destruct c, e; try done; cbn [omap list_omap]; rewrite ?app_nil_r;
      try done.
    destruct He as (-> & ->).
    apply NoDup_app. split; [done|]. split; [|apply NoDup_singleton].
    intros x Hx Hin. apply list_elem_of_singleton in Hin as ->.
    apply (receipts_iff s Hr) in Hx.
    inversion Heff as [|? ? ? ? ? ? (_ & _ & _ & _ & Hno) _ _ _ | |]; subst.
    congruence.
  - intros id v. discriminate.
  - intros s env c s' Hr IH Heff id v.
    rewrite (effect_receipts env c s s' id v Heff).
    destruct (effect_polls env c s s' id Heff) as (_ & Hc & _).
    destruct c; try (intros Hv; specialize (IH _ _ Hv); lia).
    case_decide as Hd; [|intros Hv; specialize (IH _ _ Hv); lia].
    intros _. injection Hd as <- <-.
    inversion Heff as [|? ? ? ? ? ? (Hid & _) _ _ (_ & _ & _ & _ & Hcount & _)
                       | |]; subst. lia.
Qed.

End Receipts.

Section Flags.
Context {fhe : FHE.Lib}.

(** What a successful call does to the flags of a poll. *)
Lemma effect_flag_values env c s s' id :
  wf s -> effect env c s s' ->
  ended (poll_at s' id) =
    (match c with
     | EndPoll id0 => if decide (id0 = id) then true else ended (poll_at s id)
     | _ => ended (poll_at s id)
     end) /\
  resultsPublished (poll_at s' id) =
    (match c with
     | PublishResults id0 _ _ =>
         if decide (id0 = id) then true else resultsPublished (poll_at s id)
     | _ => resultsPublished (poll_at s id)
     end).
Proof.
  intros Hwf Heff.
  inversion Heff as
    [t o st en ? ? Hlen Ht Hc (Hcount & Hp & Hoth & _)
    |id0 ec ip choice ? ? Hadm Hn Hx (Hp & Hoth & _)
    |id0 ? ? Hid0 He Hen Hn (Hp & Hoth & _)
    |id0 cc proof ? ? Hid0 Hpr Hrp Hlen Hn Hsig (Hp & Hoth & _)]; subst.
  - destruct (N.eq_dec id (_pollCount s)) as [->|Hne]; [|by rewrite Hoth].
    rewrite Hp, (proj2 (Hwf (_pollCount s))) by lia. by cbn.
  - destruct (N.eq_dec id id0) as [->|Hne]; [by rewrite Hp|by rewrite Hoth].
  - case_decide as Hd; [subst; by rewrite Hp|].
    rewrite Hoth by done. done.
  - case_decide as Hd; [subst; by rewrite Hp|].
    rewrite Hoth by done. done.
Qed.

Lemma ended_iff s :
  reachable s ->
  forall id, ended (poll_at s id) = true <-> id ∈ ended_ids (events s).
Proof.
  intros Hr. reachable_induction s Hr.
  - intros id. unfold poll_at, initial; cbn. rewrite lookup_empty. cbn.
    split; [discriminate|]. intros H. by apply elem_of_nil in H.
  - intros s env c s' Hr IH Heff id.
    destruct (effect_events env c s s' Heff) as (e & Hev & He).
    destruct (effect_flag_values env c s s' id (reachable_wf s Hr) Heff)
      as (-> & _).
    rewrite Hev. unfold ended_ids. rewrite omap_app.
    fold (ended_ids (events s)). rewrite elem_of_app, <- IH.
    destruct c, e; try done; cbn [omap list_omap];
      rewrite ?elem_of_nil; try tauto.
    subst. rewrite list_elem_of_singleton.
    case_decide; subst; [tauto|].
    split; [tauto|]. intros [?|?]; [done|congruence].
Qed.

Lemma published_iff s :
  reachable s ->
  forall id, resultsPublished (poll_at s id) = true
             <-> id ∈ published_ids (events s).
Proof.
  intros Hr. reachable_induction s Hr.
  - intros id. unfold poll_at, initial; cbn. rewrite lookup_empty. cbn.
    split; [discriminate|]. intros H. by apply elem_of_nil in H.
  - intros s env c s' Hr IH Heff id.
    destruct (effect_events env c s s' Heff) as (e & Hev & He).
    destruct (effect_flag_values env c s s' id (reachable_wf s Hr) Heff)
      as (_ & ->).
    rewrite Hev. unfold published_ids. rewrite omap_app.
    fold (published_ids (events s)). rewrite elem_of_app, <- IH.
    destruct c, e; try done; cbn [omap list_omap];
      rewrite ?elem_of_nil; try tauto.
    subst. rewrite list_elem_of_singleton.
    case_decide; subst; [tauto|].
    split; [tauto|]. intros [?|?]; [done|congruence].
Qed.

(** X4. On a reachable state a poll is ended exactly when a [PollEnded]
    event for it is in the log and has its results published exactly when a
    [ResultsPublished] event for it is; each of the two events is logged at
    most once per poll, and results are published only of polls that were
    ended. *)
Theorem flags_match_the_events s :
  reachable s ->
  (forall id, ended (poll_at s id) = true <-> id ∈ ended_ids (events s)) /\
  (forall id, resultsPublished (poll_at s id) = true
              <-> id ∈ published_ids (events s)) /\
  NoDup (ended_ids (events s)) /\ NoDup (published_ids (events s)) /\
  published_ids (events s) ⊆ ended_ids (events s).
Proof.
  intros Hr. split; [by apply ended_iff|]. split; [by apply published_iff|].
  split; [|split].
  - reachable_induction s Hr; [constructor|].
    intros s env c s' Hr IH Heff.
    destruct (effect_events env c s s' Heff) as (e & Hev & He).
    rewrite Hev. unfold ended_ids. rewrite omap_app.
    fold (ended_ids (events s)).
    destruct c, e; try done; cbn [omap list_omap]; rewrite ?app_nil_r;
      try done.
    subst. apply NoDup_app. split; [done|]. split; [|apply NoDup_singleton].
    intros x Hx Hin. apply list_elem_of_singleton in Hin as ->.
    apply (ended_iff s Hr) in Hx. inversion Heff; subst. congruence.
  - reachable_induction s Hr; [constructor|].
    intros s env c s' Hr IH Heff.
    destruct (effect_events env c s s' Heff) as (e & Hev & He).
    rewrite Hev. unfold published_ids. rewrite omap_app.
    fold (published_ids (events s)).
    destruct c, e; try done; cbn [omap list_omap]; rewrite ?app_nil_r;
      try done.
    subst. apply NoDup_app. split; [done|]. split; [|apply NoDup_singleton].
    intros x Hx Hin. apply list_elem_of_singleton in Hin as ->.
    apply (published_iff s Hr) in Hx. inversion Heff; subst. congruence.
  - intros id Hin. apply (ended_iff s Hr). apply (published_iff s Hr) in Hin.
    destruct (wf_lifecycle s id (reachable_wf s Hr)) as (-> & Hi). auto.
Qed.

End Flags.

Section Counts.
Context {fhe : FHE.Lib}.

Lemma get_fill {A} (x : A) i : i < 4 -> Array4Ops.get (Array4Ops.fill x) i = Some x.
Proof.
  intros Hi. assert (Hc : i = 0 \/ i = 1 \/ i = 2 \/ i = 3) by lia.
  by destruct Hc as [-> | [-> | [-> | ->]]].
Qed.

Lemma map_below_fill_const {A} n (x : A) (f : N -> A -> A) a :
  (forall i, n <= i -> i < 4 -> Array4Ops.get a i = Some x) ->
  forall i, n <= i -> i < 4 -> Array4Ops.get (map_below n f a) i = Some x.
Proof.
  intros H i Hn Hi. rewrite get_map_below.
  rewrite (proj2 (N.ltb_ge _ _)) by done. by apply H.
Qed.

(** X5. On a reachable state the tally slots at or above [optionCount] of
    a poll hold the encryption of zero [createPoll] stored there, and its
    public counts there are zero. *)
Theorem unused_slots_stay_zero s id i :
  reachable s -> id < _pollCount s ->
  optionCount (poll_at s id) <= i -> i < 4 ->
  Array4Ops.get (encryptedCounts (poll_at s id)) i = Some (FHE.asEuint32 0) /\
  Array4Ops.get (publicCounts (poll_at s id)) i = Some 0.
Proof.
  intros Hr. revert id i. reachable_induction s Hr.
  { intros id i Hid. unfold initial in Hid; cbn in Hid. lia. }
  intros s env c s' Hr IH Heff id i Hid Hn Hi.
  pose proof (reachable_wf s Hr) as Hwf.
  inversion Heff as
    [t o st en ? ? Hlen Ht Hc (Hcount & Hp & Hoth & _)
    |id0 ec ip choice ? ? Hadm Hn0 Hx (Hp & Hoth & _ & _ & Hcount & _)
    |id0 ? ? Hid0 He Hen Hn0 (Hp & Hoth & _ & Hcount & _)
    |id0 cc proof ? ? Hid0 Hpr Hrp Hlen Hn0 Hsig (Hp & Hoth & _ & Hcount & _)];
    subst; rewrite Hcount in Hid.
  - destruct (N.eq_dec id (_pollCount s)) as [->|Hne].
    + rewrite Hp, (proj2 (Hwf (_pollCount s))) by lia.
      cbn [encryptedCounts publicCounts created_poll with_encryptedCounts
           with_options with_creator with_endTime with_startTime
           with_optionCount with_title emptyPoll].
      by rewrite !get_fill.
    + rewrite Hoth in * by done. apply IH; [lia|done..].
  - destruct (N.eq_dec id id0) as [->|Hne];
      [|rewrite Hoth in * by done; by apply IH].
    rewrite Hp in *. cbn [optionCount encryptedCounts publicCounts
                          with_encryptedCounts] in *.
    destruct (IH id0 i Hid Hn Hi) as (He & Hpc). split; [|done].
    rewrite get_map_below. by rewrite (proj2 (N.ltb_ge _ _)).
  - destruct (N.eq_dec id id0) as [->|Hne];
      [|rewrite Hoth in * by done; by apply IH].
    rewrite Hp in *. cbn in *. by apply IH.
  - destruct (N.eq_dec id id0) as [->|Hne];
      [|rewrite Hoth in * by done; by apply IH].
    rewrite Hp in *. cbn [optionCount encryptedCounts publicCounts
                          with_resultsPublished with_publicCounts] in *.
    destruct (IH id0 i Hid Hn Hi) as (He & Hpc). split; [done|].
    rewrite get_map_below. by rewrite (proj2 (N.ltb_ge _ _)).
Qed.

(** The public tally is all zeros until the results are published. *)
Lemma unpublished_counts_zero s id :
  reachable s -> resultsPublished (poll_at s id) = false ->
  publicCounts (poll_at s id) = Array4Ops.fill 0.
Proof.
  intros Hr. revert id. reachable_induction s Hr.
  { intros id _. unfold poll_at, initial; cbn. by rewrite lookup_empty. }
  intros s env c s' Hr IH Heff id Hrp.
  pose proof (reachable_wf s Hr) as Hwf.
  destruct (effect_flag_values env c s s' id Hwf Heff) as (_ & Hf).
  inversion Heff as
    [t o st en ? ? Hlen Ht Hc (Hcount & Hp & Hoth & _)
    |id0 ec ip choice ? ? Hadm Hn0 Hx (Hp & Hoth & _ & _ & Hcount & _)
    |id0 ? ? Hid0 He Hen Hn0 (Hp & Hoth & _ & Hcount & _)
    |id0 cc proof ? ? Hid0 Hpr Hrp0 Hlen Hn0 Hsig (Hp & Hoth & _ & Hcount & _)];
    subst.
  - destruct (N.eq_dec id (_pollCount s)) as [->|Hne].
    + rewrite Hp, (proj2 (Hwf (_pollCount s))) by lia. done.
    + rewrite Hoth in * by done. by apply IH.
  - destruct (N.eq_dec id id0) as [->|Hne];
      [|rewrite Hoth in * by done; by apply IH].
    rewrite Hp in *. cbn in *. by apply IH.
  - destruct (N.eq_dec id id0) as [->|Hne];
      [|rewrite Hoth in * by done; by apply IH].
    rewrite Hp in *. cbn in *. by apply IH.
  - destruct (N.eq_dec id id0) as [->|Hne];
      [|rewrite Hoth in * by done; by apply IH].
    rewrite Hp in Hrp. discriminate.
Qed.

(** Published results are never rewritten. *)
Lemma effect_published_frozen env c s s' id :
  wf s -> effect env c s s' -> resultsPublished (poll_at s id) = true ->
  publicCounts (poll_at s' id) = publicCounts (poll_at s id).
Proof.
  intros Hwf Heff Hrp.
  assert (Hid : id < _pollCount s).
  { destruct (N.lt_ge_cases id (_pollCount s)) as [?|Hge]; [done|].
    rewrite (proj2 (Hwf id) Hge) in Hrp. discriminate. }
  inversion Heff as
    [t o st en ? ? Hlen Ht Hc (Hcount & Hp & Hoth & _)
    |id0 ec ip choice ? ? Hadm Hn Hx (Hp & Hoth & _)
    |id0 ? ? Hid0 He Hen Hn (Hp & Hoth & _)
    |id0 cc proof ? ? Hid0 Hpr Hrp0 Hlen Hn Hsig (Hp & Hoth & _)]; subst.
  - rewrite Hoth; [done|lia].
  - destruct (N.eq_dec id id0) as [->|Hne]; [by rewrite Hp|by rewrite Hoth].
  - destruct (N.eq_dec id id0) as [->|Hne]; [by rewrite Hp|by rewrite Hoth].
  - destruct (N.eq_dec id id0) as [->|Hne]; [congruence|by rewrite Hoth].
Qed.

Lemma run_calls_published_frozen calls s id :
  reachable s -> resultsPublished (poll_at s id) = true ->
  publicCounts (poll_at (run_calls calls s) id) = publicCounts (poll_at s id).
Proof.
  revert s. induction calls as [|[env c] calls IH]; intros s Hr Hrp;
    cbn [run_calls]; [done|].
  pose proof (reachable_wf s Hr) as Hwf.
  rewrite IH.
  - destruct (step_cases env c s) as [(e & ->)|(s' & -> & Heff)]; [done|].
    by eapply effect_published_frozen.
  - by constructor.
  - by apply (step_flags env c s id Hwf).
Qed.

Lemma to_list_map_below_fill n (f : N -> N) :
  n <= 4 ->
  Array4Ops.to_list (map_below n (fun i _ => f i) (Array4Ops.fill 0)) =
  (f <$> (N.of_nat <$> seq 0 (N.to_nat n))) ++ List.repeat 0 (4 - N.to_nat n).
Proof.
  intros Hn. count_cases n H; subst n; reflexivity.
Qed.

Lemma lookups_rebuild (l : list N) :
  (fun i => default 0 (l !! N.to_nat i)) <$> (N.of_nat <$> seq 0 (length l))
  = l.
Proof.
  apply list_eq. intros k. rewrite !list_lookup_fmap.
  destruct (decide (k < length l)%nat) as [Hk|Hk].
  - rewrite lookup_seq_lt by done. cbn. rewrite Nat2N.id.
    destruct (lookup_lt_is_Some_2 l k Hk) as [x ->]. done.
  - rewrite lookup_seq_ge by lia. cbn. symmetry. apply lookup_ge_None. lia.
Qed.

(** X6. On a reachable state on which [publishResults] succeeds,
    [getPublicCounts] returned four zeros before the call; after it, and
    after any further calls, it returns the published cleartexts, in order,
    followed by zeros. *)
Theorem getPublicCounts_returns_the_published_counts
    env id clearCounts proof s s' calls :
  reachable s ->
  step env (PublishResults id clearCounts proof) s = (Ok tt, s') ->
  let s2 := run_calls calls s' in
  transact (getPublicCounts id) s = (Ok (Array4Ops.fill 0), s) /\
  exists counts,
    transact (getPublicCounts id) s2 = (Ok counts, s2) /\
    Array4Ops.to_list counts =
      clearCounts ++ List.repeat 0 (4 - length clearCounts).
Proof.
  intros Hr Hs s2. subst s2.
  pose proof (step_Ok _ _ _ _ Hs) as Heff.
  inversion Heff as
    [| | |? cc ? ? ? Hid Hpr Hrp Hlen Hn Hsig (Hp & Hoth & _ & Hcount & _)];
    subst.
  pose proof (unpublished_counts_zero s id Hr Hrp) as Hz.
  assert (Hr' : reachable s').
  { replace s' with (snd (step env (PublishResults id clearCounts proof) s))
      by (by rewrite Hs). by constructor. }
  split.
  { destruct (view_results s id 0 Hid) as (_ & _ & -> & _). by rewrite Hz. }
  exists (publicCounts (poll_at s' id)). split.
  - destruct (run_calls_polls calls s' id) as (Hc & _).
    destruct (view_results (run_calls calls s') id 0) as (_ & _ & -> & _);
      [lia|].
    rewrite run_calls_published_frozen; [done|done|by rewrite Hp].
  - rewrite Hp. cbn [publicCounts with_resultsPublished with_publicCounts].
    rewrite Hz, to_list_map_below_fill by lia.
    rewrite <- Hlen, !Nat2N.id. f_equal.
    apply lookups_rebuild.
Qed.

End Counts.

Section AccessControl.
Context {fhe : FHE.Lib}.

Lemma get_elem_of_take {A} (a : Array4 A) n i h :
  n <= 4 -> i < n -> Array4Ops.get a i = Some h ->
  h ∈ take (N.to_nat n) (Array4Ops.to_list a).
Proof.
  intros Hn Hi Hg. apply list_elem_of_lookup. exists (N.to_nat i).
  apply take_to_list_lookup; [done|]. rewrite N2Nat.id. by split.
Qed.

Lemma elem_of_take_get {A} (a : Array4 A) n h :
  n <= 4 -> h ∈ take (N.to_nat n) (Array4Ops.to_list a) ->
  exists i, i < n /\ Array4Ops.get a i = Some h.
Proof.
  intros Hn Hin. apply list_elem_of_lookup in Hin as (k & Hk).
  apply take_to_list_lookup in Hk as (? & ?); [|done]. eauto.
Qed.

(** X7. On a reachable state every tally slot of every poll below the
    counter holds a ciphertext that was passed to [FHE.allowThis]. *)
Theorem stored_ciphertexts_are_allowed s id i :
  reachable s -> id < _pollCount s -> i < 4 ->
  exists h, Array4Ops.get (encryptedCounts (poll_at s id)) i = Some h /\
            h ∈ FHE.allowed (acl s).
Proof.
  intros Hr. revert id i. reachable_induction s Hr.
  { intros id i Hid. unfold initial in Hid; cbn in Hid. lia. }
  intros s env c s' Hr IH Heff id i Hid Hi.
  pose proof (reachable_wf s Hr) as Hwf.
  inversion Heff as
    [t o st en ? ? Hlen Ht Hc (Hcount & Hp & Hoth & _ & Ha & _)
    |id0 ec ip choice ? ? Hadm Hn0 Hx (Hp & Hoth & _ & _ & Hcount & Ha & _)
    |id0 ? ? Hid0 He Hen Hn0 (Hp & Hoth & _ & Hcount & Ha & _)
    |id0 cc proof ? ? Hid0 Hpr Hrp Hlen Hn0 Hsig (Hp & Hoth & _ & Hcount & Ha & _)];
    subst; rewrite Hcount in Hid; rewrite Ha.
  - destruct (N.eq_dec id (_pollCount s)) as [->|Hne].
    + exists (FHE.asEuint32 0). rewrite Hp. split; [by apply get_fill|].
      apply elem_of_app. right. cbn. left.
    + rewrite Hoth by done. destruct (IH id i) as (h & ? & ?); [lia|done|].
      exists h. split; [done|]. apply elem_of_app. by left.
  - destruct (N.eq_dec id id0) as [->|Hne].
    + rewrite Hp. cbn [encryptedCounts with_encryptedCounts].
      destruct (get_lt4 (map_below (optionCount (poll_at s id0))
                  (incremented choice) (encryptedCounts (poll_at s id0))) i Hi)
        as [h Hh].
      exists h. split; [done|]. apply elem_of_app.
      destruct (N.lt_ge_cases i (optionCount (poll_at s id0))) as [Hlt|Hge].
      * right. by eapply get_elem_of_take.
      * left. rewrite get_map_below, (proj2 (N.ltb_ge _ _)) in Hh by done.
        destruct (IH id0 i Hid Hi) as (h' & ? & ?). congruence.
    + rewrite Hoth by done. destruct (IH id i Hid Hi) as (h & ? & ?).
      exists h. split; [done|]. apply elem_of_app. by left.
  - destruct (IH id i Hid Hi) as (h & ? & ?). exists h. split; [|done].
    destruct (N.eq_dec id id0) as [->|Hne]; [by rewrite Hp|by rewrite Hoth].
  - destruct (IH id i Hid Hi) as (h & ? & ?). exists h. split; [|done].
    destruct (N.eq_dec id id0) as [->|Hne]; [by rewrite Hp|by rewrite Hoth].
Qed.

(** X8. On a reachable state every ciphertext that was passed to
    [FHE.makePubliclyDecryptable] is held by a slot below [optionCount] of
    an ended poll, and every ciphertext held by such a slot was passed to
    it. *)
Theorem marks_are_the_tallies_of_ended_polls s :
  reachable s ->
  (forall h,
     h ∈ FHE.publiclyDecryptable (acl s) ->
     exists id i,
       id < _pollCount s /\ ended (poll_at s id) = true /\
       i < optionCount (poll_at s id) /\
       Array4Ops.get (encryptedCounts (poll_at s id)) i = Some h) /\
  (forall id i h,
     ended (poll_at s id) = true -> i < optionCount (poll_at s id) ->
     Array4Ops.get (encryptedCounts (poll_at s id)) i = Some h ->
     h ∈ FHE.publiclyDecryptable (acl s)).
Proof.
  intros Hr. reachable_induction s Hr.
  { split.
    - intros h H. by apply elem_of_nil in H.
    - intros id i h H. unfold poll_at, initial in H; cbn in H.
      rewrite lookup_empty in H. discriminate. }
  intros s env c s' Hr (IH1 & IH2) Heff.
  pose proof (reachable_wf s Hr) as Hwf.
  assert (Hex : forall id, ended (poll_at s id) = true -> id < _pollCount s).
  { intros id He. destruct (N.lt_ge_cases id (_pollCount s)) as [?|Hge];
      [done|]. rewrite (proj2 (Hwf id) Hge) in He. discriminate. }
  inversion Heff as
    [t o st en ? ? Hlen Ht Hc (Hcount & Hp & Hoth & _ & _ & Hd & _)
    |id0 ec ip choice ? ? Hadm Hn0 Hx (Hp & Hoth & _ & _ & Hcount & _ & Hd & _)
    |id0 ? ? Hid0 He Hen Hn0 (Hp & Hoth & _ & Hcount & _ & Hd & _)
    |id0 cc proof ? ? Hid0 Hpr Hrp Hlen Hn0 Hsig (Hp & Hoth & _ & Hcount & Ha & _)];
    subst; rewrite ?Hd, ?Ha, Hcount.
  - split.
    + intros h Hh. destruct (IH1 h Hh) as (id & i & Hid & ? & ? & ?).
      exists id, i. rewrite Hoth by lia. split; [lia|done].
    + intros id i h He. destruct (N.eq_dec id (_pollCount s)) as [->|Hne].
      * rewrite Hp, (proj2 (Hwf (_pollCount s))) in He by lia. discriminate.
      * rewrite Hoth in * by done. by apply IH2.
  - destruct Hadm as (_ & Hopen & _). split.
    + intros h Hh. destruct (IH1 h Hh) as (id & i & Hid & He & ? & ?).
      exists id, i. rewrite Hoth by congruence. done.
    + intros id i h He. destruct (N.eq_dec id id0) as [->|Hne].
      * rewrite Hp in He. cbn in He. congruence.
      * rewrite Hoth in * by done. by apply IH2.
  - split.
    + intros h Hh. apply elem_of_app in Hh as [Hh|Hh].
      * destruct (IH1 h Hh) as (id & i & Hid & He' & ? & ?).
        exists id, i. rewrite Hoth by congruence. done.
      * apply elem_of_take_get in Hh as (i & Hi & Hg); [|done].
        exists id0, i. rewrite Hp. done.
    + intros id i h He' Hi Hg. apply elem_of_app.
      destruct (N.eq_dec id id0) as [->|Hne].
      * right. rewrite Hp in Hi, Hg. by eapply get_elem_of_take.
      * left. rewrite Hoth in * by done. by eapply IH2.
  - split.
    + intros h Hh. destruct (IH1 h Hh) as (id & i & Hid & He' & ? & ?).
      exists id, i. destruct (N.eq_dec id id0) as [->|Hne];
        [by rewrite Hp|by rewrite Hoth].
    + intros id i h. destruct (N.eq_dec id id0) as [->|Hne];
        [rewrite Hp; apply IH2|rewrite Hoth by done; apply IH2].
Qed.


(** X10. On a reachable state [vote] succeeds exactly when its five checks
    pass and the library accepts the input proof; when the checks pass and
    the library rejects the proof it reverts with [InvalidInputProof]; and
    at a time at which a vote on a poll succeeds, [endPoll] on this poll
    reverts. *)
Theorem vote_is_accepted_when_admissible env id ec ip s :
  reachable s ->
  ((exists s', step env (Vote id ec ip) s = (Ok tt, s')) <->
   admissible env id s /\ is_Some (FHE.fromExternal ec ip)) /\
  (admissible env id s -> FHE.fromExternal ec ip = None ->
   step env (Vote id ec ip) s = (Reverted InvalidInputProof, s)) /\
  (forall s' env2,
     step env (Vote id ec ip) s = (Ok tt, s') ->
     block_timestamp env2 = block_timestamp env ->
     exists e, step env2 (EndPoll id) s = (Reverted e, s)).
Proof.
  intros Hr. pose proof (reachable_wf s Hr) as Hwf.
  pose proof (vote_cases env id ec ip s) as Hc. cbv zeta in Hc.
  assert (Hstep : forall env c, step env c s = transact (body_of env c) s)
    by done.
  split; [split|split].
  - intros (s' & Hs). apply step_Ok in Hs.
    inversion Hs as [|? ? ? choice ? ? Hadm Hn Hx _ | |]; subst.
    split; [done|by eexists].
  - intros (Hadm & choice & Hx).
    pose proof Hadm as (Hid & Hopen & Hst & Hen & Hv).
    destruct (proj1 (Hwf id) Hid) as ((? & ?) & _).
    destruct Hc as [(? & H')|[(? & ? & H')|[(? & ? & ? & H')|
      [(? & ? & ? & ? & H')|[(? & ? & ? & ? & ? & H')|
      [(? & ? & H')|[(? & ? & s1 & H')|
      (? & ? & c & s1 & s' & ? & ? & ? & ? & H' & ?)]]]]]]];
      try lia; try congruence.
    exists s'. rewrite Hstep. by apply transact_Success.
  - intros Hadm Hx.
    pose proof Hadm as (Hid & Hopen & Hst & Hen & Hv).
    destruct Hc as [(? & H')|[(? & ? & H')|[(? & ? & ? & H')|
      [(? & ? & ? & ? & H')|[(? & ? & ? & ? & ? & H')|
      [(? & ? & H')|[(? & ? & s1 & H')|
      (? & ? & c & s1 & s' & ? & ? & ? & ? & H' & ?)]]]]]]];
      try lia; try congruence.
    + rewrite Hstep. by apply (transact_Failure _ _ _ _ H').
    + destruct (proj1 (Hwf id) Hid) as ((? & ?) & _). lia.
  - intros s' env2 Hs Ht. apply step_Ok in Hs.
    inversion Hs as [|? ? ? choice ? ? (Hid & Hopen & Hst & Hen & Hv) _ _ _ | |];
      subst.
    destruct (endPoll_cases env2 id s)
      as [(? & H')|[(? & ? & H')|[(? & ? & ? & H')|
         [(? & ? & ? & ? & s1 & H')|(? & ? & ? & ? & s2 & H' & ?)]]]];
      try lia; eexists; rewrite Hstep; by apply (transact_Failure _ _ _ _ H').
Qed.

End AccessControl.

Section Calls.
Context {fhe : FHE.Lib}.

Lemma endPoll_accepted env id s :
  reachable s ->
  (exists s', step env (EndPoll id) s = (Ok tt, s')) <->
  id < _pollCount s /\ ended (poll_at s id) = false /\
  endTime (poll_at s id) <= block_timestamp env.
Proof.
  intros Hr. pose proof (reachable_wf s Hr) as Hwf. split.
  - intros (s' & Hs). apply step_Ok in Hs.
    by inversion Hs as [| |? ? ? Hid He Hen _ _|]; subst.
  - intros (Hid & He & Hen).
    destruct (proj1 (Hwf id) Hid) as ((? & ?) & _).
    destruct (endPoll_cases env id s)
      as [(? & H')|[(? & ? & H')|[(? & ? & ? & H')|
         [(? & ? & ? & ? & s1 & H')|(? & ? & ? & ? & s2 & H' & ?)]]]];
      try lia; try congruence.
    exists s2. by apply (transact_Success _ _ _ _ H').
Qed.

Lemma publishResults_accepted env id clearCounts proof s :
  reachable s ->
  id < _pollCount s ->
  publicReady (poll_at s id) = true ->
  resultsPublished (poll_at s id) = false ->
  N.of_nat (length clearCounts) = optionCount (poll_at s id) ->
  FHE.checkSignatures (tallyHandles (poll_at s id)) (abi_encode clearCounts)
    proof = true ->
  exists s', step env (PublishResults id clearCounts proof) s = (Ok tt, s').
Proof.
  intros Hr Hid Hpr Hrp Hlen Hsig. pose proof (reachable_wf s Hr) as Hwf.
  destruct (proj1 (Hwf id) Hid) as ((? & ?) & _).
  destruct (publishResults_cases env id clearCounts proof s)
    as [(? & H')|[(? & ? & H')|[(? & ? & ? & H')|[(? & ? & ? & ? & H')|
       [(? & ? & ? & ? & ? & s1 & H')|[(? & ? & ? & ? & ? & ? & H')|
        (? & ? & ? & ? & ? & ? & s' & H' & ?)]]]]]];
    try lia; try congruence.
  exists s'. by apply (transact_Success _ _ _ _ H').
Qed.





(** X12. On a reachable state [endPoll] succeeds exactly when the poll
    exists, is not ended and the time has reached its [endTime]: its
    outcome depends on the time and not on the sender, and the outcome of
    [publishResults] depends on neither. *)
Theorem closing_and_publishing_are_open_to_anyone
    env env' id clearCounts proof s :
  reachable s ->
  ((exists s', step env (EndPoll id) s = (Ok tt, s')) <->
   id < _pollCount s /\ ended (poll_at s id) = false /\
   endTime (poll_at s id) <= block_timestamp env) /\
  (block_timestamp env' = block_timestamp env ->
   step env' (EndPoll id) s = step env (EndPoll id) s) /\
  step env' (PublishResults id clearCounts proof) s
    = step env (PublishResults id clearCounts proof) s.
Proof.
  intros Hr. split; [by apply endPoll_accepted|]. split.
  - intros Ht. unfold step, body_of, endPoll. by rewrite Ht.
  - reflexivity.
Qed.

End Calls.

Section Decryption.
Context {fhe : FHE.Lib}.
Variable dec : FHE.euint32 -> N.
Variable decb : FHE.ebool -> bool.
Hypothesis dec_asEuint32 : forall v, dec (FHE.asEuint32 v) = v mod 2 ^ 32.
Hypothesis dec_eq : forall a b, decb (FHE.eq a b) = (dec a =? dec b).
Hypothesis dec_select :
  forall c a b, dec (FHE.select c a b) = if decb c then dec a else dec b.
Hypothesis dec_add :
  forall a b, dec (FHE.add a b) = (dec a + dec b) mod 2 ^ 32.

Lemma mod_uint32_lt x : x mod 2 ^ 32 < 2 ^ 32.
Proof using Type. by apply N.mod_lt. Qed.

Lemma dec_incremented choice i old :
  i < 4 ->
  dec (incremented choice i old) =
  (dec old + (if dec choice =? i then 1 else 0)) mod 2 ^ 32.
Proof using dec_asEuint32 dec_eq dec_select dec_add.
  intros Hi. unfold incremented.
  rewrite dec_add, dec_select, dec_eq, !dec_asEuint32.
  rewrite (N.mod_small i) by (change (2 ^ 32) with 4294967296; lia).
  by destruct (dec choice =? i).
Qed.

Lemma tally_total_incremented choice p :
  optionCount p <= 4 ->
  tally_total dec
    (with_encryptedCounts
       (map_below (optionCount p) (incremented choice) (encryptedCounts p)) p)
  <= tally_total dec p + 1.
Proof using dec_asEuint32 dec_eq dec_select dec_add.
  unfold tally_total. cbn [encryptedCounts with_encryptedCounts optionCount].
  generalize (optionCount p) as n. destruct (encryptedCounts p) as [a0 a1 a2 a3].
  intros n Hn. unfold map_below. cbn [slot0 slot1 slot2 slot3].
  pose proof (N.Div0.mod_le (dec a0 + 1) (2 ^ 32)).
  pose proof (N.Div0.mod_le (dec a1 + 1) (2 ^ 32)).
  pose proof (N.Div0.mod_le (dec a2 + 1) (2 ^ 32)).
  pose proof (N.Div0.mod_le (dec a3 + 1) (2 ^ 32)).
  pose proof (N.Div0.mod_le (dec a0 + 0) (2 ^ 32)).
  pose proof (N.Div0.mod_le (dec a1 + 0) (2 ^ 32)).
  pose proof (N.Div0.mod_le (dec a2 + 0) (2 ^ 32)).
  pose proof (N.Div0.mod_le (dec a3 + 0) (2 ^ 32)).
  count_cases n Hc; subst n; unfold Array4Ops.to_list;
    cbn [N.ltb N.compare Pos.compare Pos.compare_cont];
    vm_compute (N.to_nat _);
    cbn [take fmap list_fmap foldr slot0 slot1 slot2 slot3];
    rewrite ?dec_incremented by lia;
    destruct (N.eqb_spec (dec choice) 0); destruct (N.eqb_spec (dec choice) 1);
    destruct (N.eqb_spec (dec choice) 2); destruct (N.eqb_spec (dec choice) 3);
    lia.
Qed.

Lemma voters_snoc id evs e :
  voters id (evs ++ [e]) =
  voters id evs ++
  match e with
  | VoteCast id' voter => if decide (id' = id) then [voter] else []
  | _ => []
  end.
Proof.
  unfold voters. rewrite omap_app. f_equal.
  destruct e; try done. cbn [omap list_omap]. by case_decide.
Qed.

(** X13. For any decryption under which [FHE.asEuint32], [FHE.eq],
    [FHE.select] and [FHE.add] compute on 32-bit cleartexts: a successful
    vote takes the cleartext [v] of every slot [i] below [optionCount] to
    [(v + 1) mod 2 ^ 32] when the choice decrypts to [i] and to
    [v mod 2 ^ 32] otherwise, and keeps the other slots; so a vote whose
    choice decrypts to [optionCount] or more is accepted and adds to no
    slot. *)
Theorem vote_adds_one_to_the_chosen_slot env id ec ip s s' :
  step env (Vote id ec ip) s = (Ok tt, s') ->
  exists choice,
    FHE.fromExternal ec ip = Some choice /\
    (forall i h,
       Array4Ops.get (encryptedCounts (poll_at s id)) i = Some h ->
       exists h',
         Array4Ops.get (encryptedCounts (poll_at s' id)) i = Some h' /\
         dec h' =
           if i <? optionCount (poll_at s id)
           then (dec h + (if dec choice =? i then 1 else 0)) mod 2 ^ 32
           else dec h) /\
    (optionCount (poll_at s id) <= dec choice ->
     forall i h',
       Array4Ops.get (encryptedCounts (poll_at s' id)) i = Some h' ->
       exists h,
         Array4Ops.get (encryptedCounts (poll_at s id)) i = Some h /\
         dec h' = if i <? optionCount (poll_at s id)
                  then dec h mod 2 ^ 32 else dec h).
Proof using dec_asEuint32 dec_eq dec_select dec_add.
  intros Hs. apply step_Ok in Hs.
  inversion Hs as [|? ? ? choice ? ? Hadm Hn Hx (Hp & _) | |]; subst.
  exists choice. split; [done|]. rewrite Hp.
  cbn [encryptedCounts with_encryptedCounts]. split.
  - intros i h Hg. rewrite get_map_below, Hg. cbn [fmap option_fmap option_map].
    destruct (N.ltb_spec i (optionCount (poll_at s id))) as [Hi|Hi].
    + eexists. split; [done|]. apply dec_incremented. lia.
    + by eexists.
  - intros Hout i h'. rewrite get_map_below.
    destruct (N.ltb_spec i (optionCount (poll_at s id))) as [Hi|Hi];
      [|by eauto].
    destruct (Array4Ops.get (encryptedCounts (poll_at s id)) i) as [h|];
      [|discriminate].
    cbn [fmap option_fmap option_map]. intros [= <-]. exists h.
    split; [done|]. rewrite dec_incremented by lia.
    destruct (N.eqb_spec (dec choice) i); [lia|]. by rewrite N.add_0_r.
Qed.

Lemma slots_in_range s :
  reachable s ->
  forall id i h,
    id < _pollCount s ->
    Array4Ops.get (encryptedCounts (poll_at s id)) i = Some h ->
    dec h < 2 ^ 32.
Proof using dec_asEuint32 dec_eq dec_select dec_add.
  intros Hr. reachable_induction s Hr.
  { intros id i h Hid. unfold initial in Hid; cbn in Hid. lia. }
  intros s env c s' Hr IH Heff id i h Hid.
  inversion Heff as
    [t o st en ? ? Hlen Ht Hc (Hcount & Hp & Hoth & _)
    |id0 ec ip choice ? ? Hadm Hn0 Hx (Hp & Hoth & _ & _ & Hcount & _)
    |id0 ? ? Hid0 He Hen Hn0 (Hp & Hoth & _ & Hcount & _)
    |id0 cc proof ? ? Hid0 Hpr Hrp Hlen Hn0 Hsig (Hp & Hoth & _ & Hcount & _)];
    subst; rewrite Hcount in Hid.
  - destruct (N.eq_dec id (_pollCount s)) as [->|Hne].
    + rewrite Hp. unfold created_poll.
      cbn [encryptedCounts with_encryptedCounts]. intros Hg.
      destruct (N.le_gt_cases 4 i) as [Hi|Hi];
        [by rewrite get_ge4 in Hg|].
      rewrite get_fill in Hg by done. injection Hg as <-.
      rewrite dec_asEuint32. apply mod_uint32_lt.
    + rewrite Hoth by done. apply IH. lia.
  - destruct (N.eq_dec id id0) as [->|Hne]; [|rewrite Hoth by done; by apply IH].
    rewrite Hp. cbn [encryptedCounts with_encryptedCounts].
    rewrite get_map_below.
    destruct (N.ltb_spec i (optionCount (poll_at s id0))) as [Hi|Hi];
      [|by apply IH].
    destruct (Array4Ops.get (encryptedCounts (poll_at s id0)) i) as [h0|];
      [|discriminate].
    cbn [fmap option_fmap option_map]. intros [= <-].
    rewrite dec_incremented by lia. apply mod_uint32_lt.
  - destruct (N.eq_dec id id0) as [->|Hne];
      [rewrite Hp|rewrite Hoth by done]; by apply IH.
  - destruct (N.eq_dec id id0) as [->|Hne];
      [rewrite Hp|rewrite Hoth by done]; by apply IH.
Qed.

(** X14. For such a decryption, on a reachable state every tally slot of
    a poll below the counter decrypts below [2 ^ 32], and the cleartexts of
    the slots below [optionCount] of a poll add up to at most the number of
    [VoteCast] events logged for it. *)
Theorem tally_is_bounded_by_the_votes_cast s id :
  reachable s ->
  (forall i h,
     id < _pollCount s ->
     Array4Ops.get (encryptedCounts (poll_at s id)) i = Some h ->
     dec h < 2 ^ 32) /\
  tally_total dec (poll_at s id) <= N.of_nat (length (voters id (events s))).
Proof using dec_asEuint32 dec_eq dec_select dec_add.
  intros Hr. split; [intros i h; by apply slots_in_range|].
  revert id. reachable_induction s Hr.
  { intros id. unfold tally_total, initial, poll_at; cbn.
    rewrite lookup_empty. cbn. change (N.to_nat 0) with O. cbn. lia. }
  intros s env c s' Hr IH Heff id.
  pose proof (reachable_wf s Hr) as Hwf.
  inversion Heff as
    [t o st en ? ? Hlen Ht Hc (Hcount & Hp & Hoth & _ & _ & _ & Hev)
    |id0 ec ip choice ? ? Hadm Hn0 Hx (Hp & Hoth & _ & _ & _ & _ & _ & Hev)
    |id0 ? ? Hid0 He Hen Hn0 (Hp & Hoth & _ & _ & _ & _ & Hev)
    |id0 cc proof ? ? Hid0 Hpr Hrp Hlen Hn0 Hsig (Hp & Hoth & _ & _ & _ & Hev)];
    subst; rewrite Hev, voters_snoc, ?app_nil_r.
  - destruct (N.eq_dec id (_pollCount s)) as [->|Hne];
      [|rewrite Hoth by done; apply IH].
    rewrite Hp. unfold created_poll.
    match goal with
    | |- tally_total dec ?p <= _ =>
        replace (tally_total dec p) with 0; [lia|]
    end.
    symmetry. unfold tally_total.
    cbn [encryptedCounts with_encryptedCounts optionCount with_optionCount].
    assert (Hc4 : N.of_nat (length o) = 2 \/ N.of_nat (length o) = 3 \/
                  N.of_nat (length o) = 4) by lia.
    destruct Hc4 as [-> | [-> | ->]]; vm_compute (N.to_nat _);
      cbn [Array4Ops.to_list Array4Ops.fill take fmap list_fmap foldr
           slot0 slot1 slot2 slot3];
      rewrite ?dec_asEuint32; reflexivity.
  - destruct (N.eq_dec id id0) as [->|Hne].
    + rewrite Hp, decide_True, length_app by done. cbn [length].
      pose proof (tally_total_incremented choice (poll_at s id0) Hn0).
      specialize (IH id0). lia.
    + rewrite Hoth, decide_False, app_nil_r by done. apply IH.
  - destruct (N.eq_dec id id0) as [->|Hne];
      [rewrite Hp|rewrite Hoth by done]; apply IH.
  - destruct (N.eq_dec id id0) as [->|Hne];
      [rewrite Hp|rewrite Hoth by done]; apply IH.
Qed.

End Decryption.

(** * Properties of the web client *)

Section ClientFacts.
Context {fhe : FHE.Lib}.

Lemma Number_exact x : x < 2 ^ 53 -> VoteApp.Number x = x.
Proof.
  intros Hx. unfold VoteApp.Number.
  assert (He : N.log2 x - 52 = 0).
  { destruct (N.eq_dec x 0) as [->|Hne]; [done|].
    assert (N.log2 x < 53) by (apply N.log2_lt_pow2; lia). lia. }
  by rewrite He.
Qed.

Lemma Number_large x : 2 ^ 53 <= x -> 2 ^ 53 <= VoteApp.Number x.
Proof.
  intros Hx. unfold VoteApp.Number.
  assert (Hl : 53 <= N.log2 x).
  { apply N.log2_le_pow2; [|done]. 
    assert (0 < 2 ^ 53) by (by vm_compute). lia. }
  set (e := N.log2 x - 52). assert (He : 1 <= e) by lia.
  destruct (N.eqb_spec e 0) as [?|_]; [lia|].
  assert (Hq : 2 ^ 52 <= N.shiftr x e).
  { rewrite N.shiftr_div_pow2.
    assert (Hpow : 2 ^ N.log2 x = 2 ^ 52 * 2 ^ e).
    { rewrite <- N.pow_add_r. f_equal. lia. }
    pose proof (N.log2_spec x ltac:(assert (0 < 2 ^ 53) by (by vm_compute); lia))
      as [Hlo _].
    rewrite Hpow in Hlo.
    apply N.div_le_lower_bound; [apply N.pow_nonzero; lia|]. lia. }
  assert (Hp : 2 <= 2 ^ e).
  { change 2 with (2 ^ 1) at 1. apply N.pow_le_mono_r; lia. }
  assert (H53 : 2 ^ 53 = 2 ^ 52 * 2) by (by vm_compute).
  destruct (_ || _); rewrite N.shiftl_mul_pow2, H53; nia.
Qed.

(** What [loadPoll] reads of a poll that exists. *)
Lemma loadPoll_Success address id s poll s' :
  VoteApp.loadPoll address id s = Success poll s' ->
  let p := poll_at s id in
  s' = s /\ id < _pollCount s /\
  PollItem.id poll = id /\
  PollItem.title poll = title p /\
  PollItem.options poll =
    take (N.to_nat (optionCount p)) (Array4Ops.to_list (options p)) /\
  PollItem.optionCount poll = optionCount p /\
  PollItem.startTime poll = VoteApp.Number (startTime p) /\
  PollItem.endTime poll = VoteApp.Number (endTime p) /\
  PollItem.creator poll = creator p /\
  PollItem.ended poll = ended p /\
  PollItem.publicReady poll = publicReady p /\
  PollItem.resultsPublished poll = resultsPublished p /\
  PollItem.encryptedCounts poll =
    FHE.unwrap <$> Array4Ops.to_list (encryptedCounts p) /\
  PollItem.publicCounts poll =
    take (N.to_nat (optionCount p)) (Array4Ops.to_list (publicCounts p)) /\
  PollItem.hasVoted poll =
    match address with Some a => voted_at s id a | None => false end.
Proof.
  unfold VoteApp.loadPoll, getPoll, getEncryptedCounts, getPublicCounts,
    hasVoted.
  mred. destruct (id <? _pollCount s) eqn:Hlt; [|discriminate].
  apply N.ltb_lt in Hlt as Hid.
  destruct address as [a|]; mred; rewrite ?Hlt; mred; intros [= <- <-];
    done.
Qed.

Lemma loadPoll_defined address id s :
  id < _pollCount s ->
  exists poll, VoteApp.loadPoll address id s = Success poll s.
Proof.
  intros Hid. apply N.ltb_lt in Hid.
  unfold VoteApp.loadPoll, getPoll, getEncryptedCounts, getPublicCounts,
    hasVoted.
  mred. rewrite Hid. destruct address as [a|]; mred; rewrite ?Hid; mred;
    by eexists.
Qed.

Lemma loadPoll_missing address id s :
  _pollCount s <= id -> VoteApp.loadPoll address id s = Failure NotFound s.
Proof.
  intros Hid. apply N.ltb_ge in Hid.
  unfold VoteApp.loadPoll, getPoll. mred. by rewrite Hid.
Qed.

Lemma promise_all_loadPoll address s n k :
  N.of_nat (k + n) <= _pollCount s ->
  exists polls,
    VoteApp.promise_all (VoteApp.loadPoll address)
      (N.of_nat <$> seq k n) s = Success polls s /\
    length polls = n /\
    forall j, (j < n)%nat ->
      exists poll, polls !! j = Some poll /\
        VoteApp.loadPoll address (N.of_nat (k + j)) s = Success poll s.
Proof.
  revert k. induction n as [|n IH]; intros k Hk.
  - exists []. split; [done|]. split; [done|]. intros j Hj. lia.
  - destruct (loadPoll_defined address (N.of_nat k) s) as [poll Hpoll]; [lia|].
    destruct (IH (S k)) as (polls & Hall & Hlen & Hget); [lia|].
    exists (poll :: polls). cbn [seq fmap list_fmap VoteApp.promise_all].
    unfold bind at 1. rewrite Hpoll. unfold bind at 1.
    change (list_fmap nat N N.of_nat (seq (S k) n))
      with (N.of_nat <$> seq (S k) n).
    rewrite Hall. split; [done|]. split; [by rewrite <- Hlen|].
    intros [|j] Hj.
    + exists poll. by rewrite Nat.add_0_r.
    + destruct (Hget j) as (poll' & ? & Hl); [lia|]. exists poll'.
      split; [done|]. by replace (k + S j)%nat with (S k + j)%nat by lia.
Qed.

(** X15. [loadPolls] asks for the ids below the counter and no others:
    while the counter is at most the largest array length it succeeds with
    one item per poll, in id order, the item at position [id] being what
    [loadPoll] reads of poll [id]; above that length it fails. *)
Theorem loadPolls_lists_every_poll address s :
  (_pollCount s <= VoteApp.MAX_ARRAY_LENGTH ->
   exists polls,
     VoteApp.loadPolls address s = Some polls /\
     length polls = N.to_nat (_pollCount s) /\
     forall id, id < _pollCount s ->
       exists poll, polls !! N.to_nat id = Some poll /\
         PollItem.id poll = id /\
         VoteApp.loadPoll address id s = Success poll s) /\
  (VoteApp.MAX_ARRAY_LENGTH < _pollCount s ->
   VoteApp.loadPolls address s = None).
Proof.
  unfold VoteApp.loadPolls, getPollCount. mred. split.
  - intros Hc. assert (H53 : _pollCount s < 2 ^ 53).
    { unfold VoteApp.MAX_ARRAY_LENGTH in Hc.
      assert (2 ^ 32 - 1 < 2 ^ 53) by (by vm_compute). lia. }
    rewrite Number_exact by done.
    rewrite (proj2 (N.ltb_ge _ _) Hc).
    destruct (promise_all_loadPoll address s (N.to_nat (_pollCount s)) 0)
      as (polls & -> & Hlen & Hget); [lia|].
    exists polls. split; [done|]. split; [done|]. intros id Hid.
    destruct (Hget (N.to_nat id)) as (poll & Hl & Hp); [lia|].
    cbn [Nat.add] in Hp. rewrite N2Nat.id in Hp. exists poll.
    split; [done|]. split; [|done].
    by destruct (loadPoll_Success _ _ _ _ _ Hp) as (_ & _ & ? & _).
  - intros Hc. destruct (N.lt_ge_cases (_pollCount s) (2 ^ 53)) as [Hs|Hl].
    + rewrite Number_exact by done. by rewrite (proj2 (N.ltb_lt _ _) Hc).
    + pose proof (Number_large _ Hl) as Hn.
      assert (Hlt : VoteApp.MAX_ARRAY_LENGTH < VoteApp.Number (_pollCount s)).
      { unfold VoteApp.MAX_ARRAY_LENGTH.
        assert (2 ^ 32 - 1 < 2 ^ 53) by (by vm_compute). lia. }
      by rewrite (proj2 (N.ltb_lt _ _) Hlt).
Qed.

End ClientFacts.

Section ClientProperties.
Context {fhe : FHE.Lib}.

Lemma take_options_stored (o : list string) (a : Array4 string) :
  2 <= N.of_nat (length o) <= 4 ->
  take (N.to_nat (N.of_nat (length o)))
       (Array4Ops.to_list
          (map_below (N.of_nat (length o))
             (fun i _ => default ""%string (o !! N.to_nat i)) a)) = o.
Proof.
  intros Hlen.
  destruct o as [|x0 [|x1 [|x2 [|x3 [|x4 o]]]]]; cbn [length] in Hlen;
    try lia; reflexivity.
Qed.

Lemma createPoll_Ok env t o st en s id s' :
  transact (createPoll env t o st en) s = (Ok id, s') ->
  id = _pollCount s /\ 2 <= N.of_nat (length o) <= 4 /\
  created env t o st en s s'.
Proof.
  unfold transact.
  destruct (createPoll_cases env t o st en s)
    as [(? & ->)|[(? & ? & ->)|[(? & ? & ? & ->)|
        (? & ? & ? & s1 & -> & Hc)]]]; try discriminate.
  by intros [= <- <-].
Qed.

(** X16. After a successful [createPoll] on a reachable state, and after
    any further calls, the client reads of the new poll the title, the
    options, in order and as many as were passed, the times and the creator
    of the call, with four tally handles and as many public counts as
    options. *)
Theorem created_poll_is_shown_as_created
    env title_ options_ startTime_ endTime_ s id s' calls address :
  reachable s ->
  transact (createPoll env title_ options_ startTime_ endTime_) s
    = (Ok id, s') ->
  let s2 := run_calls calls s' in
  exists poll,
    VoteApp.loadPoll address id s2 = Success poll s2 /\
    PollItem.id poll = id /\
    PollItem.title poll = title_ /\
    PollItem.options poll = options_ /\
    PollItem.optionCount poll = N.of_nat (length options_) /\
    PollItem.startTime poll = VoteApp.Number startTime_ /\
    PollItem.endTime poll = VoteApp.Number endTime_ /\
    PollItem.creator poll = msg_sender env /\
    length (PollItem.encryptedCounts poll) = 4%nat /\
    length (PollItem.publicCounts poll) = length options_.
Proof.
  intros Hr Hs s2. subst s2.
  destruct (createPoll_Ok _ _ _ _ _ _ _ _ Hs) as (-> & Hlen & Hc).
  destruct Hc as (Hcount & Hp & _).
  pose proof (reachable_wf s Hr (_pollCount s)) as (_ & Hempty).
  destruct (run_calls_polls calls s' (_pollCount s)) as (Hge & Hmeta).
  specialize (Hmeta ltac:(lia)). rewrite Hp in Hmeta.
  unfold metadata in Hmeta.
  destruct (created_poll_fields env title_ options_ startTime_ endTime_
              (poll_at s (_pollCount s)))
    as (Ht & Hn & Hst & Hen & Hcr & _ & _ & _ & _ & _ & Ho).
  cbv zeta in *. rewrite Ht, Hn, Hst, Hen, Hcr, Ho in Hmeta.
  injection Hmeta as Ht' Ho' Hn' Hst' Hen' Hcr'.
  destruct (loadPoll_defined address (_pollCount s) (run_calls calls s'))
    as (poll & Hpoll); [lia|].
  exists poll. split; [done|].
  destruct (loadPoll_Success _ _ _ _ _ Hpoll)
    as (_ & _ & Hid & G1 & G2 & G3 & G4 & G5 & G6 & _ & _ & _ & G7 & G8 & _).
  cbv zeta in *.
  rewrite Hid, G1, G2, G3, G4, G5, G6, G7, G8.
  rewrite Ht', Ho', Hn', Hst', Hen', Hcr'.
  rewrite take_options_stored by done.
  repeat split; try done.
  rewrite length_take. cbn [Array4Ops.to_list length]. lia.
Qed.


End ClientProperties.

Section Publishing.
Context {fhe : FHE.Lib}.

Lemma encode_decrypted_counts (clearValues : gmap bytes32 N) handles values :
  Forall2 (fun h v => clearValues !! h = Some v /\ v < 2 ^ 32) handles values ->
  VoteApp.encode_uint32s
    ((fun handle => VoteApp.Number <$> clearValues !! handle) <$> handles)
  = Some values.
Proof.
  induction 1 as [|h v handles values (Hv & Hlt) _ IH]; [done|].
  cbn [fmap list_fmap VoteApp.encode_uint32s]. rewrite Hv.
  cbn [fmap option_fmap option_map].
  rewrite Number_exact
    by (assert (2 ^ 32 < 2 ^ 53) by (by vm_compute); lia).
  rewrite (proj2 (N.ltb_lt _ _) Hlt).
  change (list_fmap _ _ ?f handles) with (f <$> handles).
  by rewrite IH.
Qed.

Lemma published_counts_list id clearCounts s s' :
  reachable s ->
  resultsPublished (poll_at s id) = false ->
  N.of_nat (length clearCounts) = optionCount (poll_at s id) ->
  optionCount (poll_at s id) <= 4 ->
  published id clearCounts s s' ->
  take (N.to_nat (optionCount (poll_at s' id)))
       (Array4Ops.to_list (publicCounts (poll_at s' id))) = clearCounts.
Proof.
  intros Hr Hrp Hlen Hn (Hp & _).
  rewrite Hp. cbn [publicCounts optionCount with_resultsPublished
                   with_publicCounts].
  rewrite (unpublished_counts_zero s id Hr Hrp).
  rewrite to_list_map_below_fill by done.
  rewrite <- Hlen, !Nat2N.id, lookups_rebuild.
  by rewrite take_app_length.
Qed.

Lemma shown_handles p :
  take (N.to_nat (optionCount p))
       (FHE.unwrap <$> Array4Ops.to_list (encryptedCounts p))
  = tallyHandles p.
Proof. unfold tallyHandles. symmetry. apply fmap_take. Qed.

(** X18. For a poll read from a reachable state whose card shows the
    result actions, and a gateway whose answers carry a 32-bit cleartext
    for each handle and a proof the library accepts for the handles and the
    cleartexts: after [handleDecrypt], [handlePublish] sends
    [publishResults] with one cleartext per option; after any calls in
    between, this call reverts with [AlreadyPublished] when the results
    were published meanwhile and succeeds otherwise, and the client then
    reads the poll as published with these cleartexts as its counts. *)
Theorem decrypted_results_can_be_published
    s address id poll publicDecrypt decryptedResults decryptedResults'
    calls env :
  reachable s ->
  VoteApp.loadPoll address id s = Success poll s ->
  VoteApp.resultActions poll = true ->
  VoteApp.handleDecrypt publicDecrypt decryptedResults poll
    = Some decryptedResults' ->
  (forall handles answer,
     publicDecrypt handles = Some answer ->
     exists values,
       Forall2 (fun h v => VoteApp.clearValues answer !! h = Some v /\
                           v < 2 ^ 32) handles values /\
       FHE.checkSignatures handles (abi_encode values)
         (VoteApp.decryptionProof answer) = true) ->
  let s1 := run_calls calls s in
  exists clearCounts proof,
    VoteApp.handlePublish decryptedResults' id
      = Some (PublishResults id clearCounts proof) /\
    N.of_nat (length clearCounts) = PollItem.optionCount poll /\
    (resultsPublished (poll_at s1 id) = true ->
     step env (PublishResults id clearCounts proof) s1
       = (Reverted AlreadyPublished, s1)) /\
    (resultsPublished (poll_at s1 id) = false ->
     exists s2 poll2,
       step env (PublishResults id clearCounts proof) s1 = (Ok tt, s2) /\
       VoteApp.loadPoll address id s2 = Success poll2 s2 /\
       PollItem.resultsPublished poll2 = true /\
       PollItem.publicCounts poll2 = clearCounts).
Proof.
  intros Hr Hload Hshown Hdec Hgw s1. subst s1.
  destruct (loadPoll_Success _ _ _ _ _ Hload)
    as (_ & Hid & Gid & _ & _ & Gn & _ & _ & _ & Ge & Gpr & _ & Gh & _).
  cbv zeta in *.
  unfold VoteApp.resultActions in Hshown. rewrite Gpr in Hshown.
  destruct (reachable_poll_wf s id Hr Hid) as ((Hn2 & Hn4) & _ & Hflags & _).
  assert (Hended : ended (poll_at s id) = true) by congruence.
  unfold VoteApp.handleDecrypt in Hdec. rewrite Gn, Gh, Gid in Hdec.
  clear Gid.
  rewrite (shown_handles (poll_at s id)) in Hdec.
  destruct (publicDecrypt (tallyHandles (poll_at s id)))
    as [answer|] eqn:Hanswer; [|discriminate].
  injection Hdec as <-.
  destruct (Hgw _ _ Hanswer) as (values & Hvalues & Hsig).
  exists values, (VoteApp.decryptionProof answer).
  assert (Hlen : N.of_nat (length values) = optionCount (poll_at s id)).
  { rewrite <- (Forall2_length _ _ _ Hvalues), tallyHandles_length by done.
    lia. }
  split; [|split; [by rewrite Gn|]].
  { unfold VoteApp.handlePublish. rewrite lookup_insert_eq.
    cbn [VoteApp.counts VoteApp.proof].
    by rewrite (encode_decrypted_counts _ _ _ Hvalues). }
  set (s1 := run_calls calls s).
  assert (Hr1 : reachable s1) by (by apply reachable_run_calls).
  destruct (run_calls_polls calls s id) as (Hcount & Hmeta).
  specialize (Hmeta Hid). fold s1 in Hcount, Hmeta.
  assert (Hn1 : optionCount (poll_at s1 id) = optionCount (poll_at s id)).
  { unfold metadata in Hmeta. by injection Hmeta. }
  assert (Hid1 : id < _pollCount s1) by lia.
  assert (Hpr1 : publicReady (poll_at s1 id) = true)
    by (by apply (run_calls_flags calls s id Hr)).
  assert (Hh1 : tallyHandles (poll_at s1 id) = tallyHandles (poll_at s id)).
  { unfold tallyHandles. rewrite Hn1. subst s1.
    by rewrite run_calls_frozen. }
  split.
  - intros Hrp.
    destruct (publishResults_cases env id values
                (VoteApp.decryptionProof answer) s1)
      as [(? & H')|[(? & ? & H')|[(? & ? & ? & H')|[(? & ? & ? & ? & H')|
         [(? & ? & ? & ? & ? & s' & H')|[(? & ? & ? & ? & ? & ? & H')|
          (? & ? & ? & ? & ? & ? & s' & H' & ?)]]]]]];
      try lia; try congruence.
    by apply (transact_Failure _ _ _ _ H').
  - intros Hrp.
    destruct (publishResults_accepted env id values
                (VoteApp.decryptionProof answer) s1) as (s2 & Hs2);
      try done; [congruence|congruence|].
    pose proof (step_Ok _ _ _ _ Hs2) as Heff.
    inversion Heff as
      [| | |? cc ? ? ? _ _ _ Hlen' Hn' _ Hpub]; subst.
    pose proof Hpub as (Hp & _ & _ & Hc2 & _).
    destruct (loadPoll_defined address id s2) as (poll2 & Hpoll2); [lia|].
    exists s2, poll2. split; [done|]. split; [done|].
    destruct (loadPoll_Success _ _ _ _ _ Hpoll2)
      as (_ & _ & _ & _ & _ & _ & _ & _ & _ & _ & _ & -> & _ & -> & _).
    split; [by rewrite Hp|].
    apply (published_counts_list id values s1 s2); try done; lia.
Qed.

End Publishing.

(** * Properties of the tasks *)

Section TaskFacts.
Context {fhe : FHE.Lib}.

Lemma trimStart_head s c :
  head (JS.trimStart s) = Some c -> JS.isWhiteSpace c = false.
Proof.
  induction s as [|x s IH]; cbn [JS.trimStart]; [done|].
  destruct (JS.isWhiteSpace x) eqn:Hx; [done|]. cbn. congruence.
Qed.

Lemma trimStart_suffix s : suffix (JS.trimStart s) s.
Proof.
  induction s as [|x s IH]; cbn [JS.trimStart]; [done|].
  destruct (JS.isWhiteSpace x); [by apply suffix_cons_r|done].
Qed.

Lemma trim_head s c : head (JS.trim s) = Some c -> JS.isWhiteSpace c = false.
Proof.
  unfold JS.trim, JS.trimEnd. intros Hh.
  set (t := JS.trimStart s) in *.
  destruct (trimStart_suffix (reverse t)) as [p Hp].
  apply (f_equal reverse) in Hp.
  rewrite reverse_involutive, reverse_app in Hp.
  destruct (reverse (JS.trimStart (reverse t))) as [|y u] eqn:Hu; [done|].
  cbn in Hh. injection Hh as ->.
  apply (trimStart_head s). fold t. by rewrite Hp.
Qed.

Lemma trim_last s c : last (JS.trim s) = Some c -> JS.isWhiteSpace c = false.
Proof.
  unfold JS.trim, JS.trimEnd. rewrite last_reverse. apply trimStart_head.
Qed.

Lemma trimStart_elem c s : c ∈ JS.trimStart s -> c ∈ s.
Proof.
  intros H. destruct (trimStart_suffix s) as [p ->].
  apply elem_of_app. by right.
Qed.

Lemma trim_elem c s : c ∈ JS.trim s -> c ∈ s.
Proof.
  unfold JS.trim, JS.trimEnd. rewrite elem_of_reverse. intros H.
  apply trimStart_elem in H. rewrite elem_of_reverse in H.
  by apply trimStart_elem.
Qed.

Lemma split_no_sep sep s : Forall (fun w => sep ∉ w) (JS.split sep s).
Proof.
  induction s as [|c s IH]; cbn [JS.split].
  - constructor; [|done]. apply not_elem_of_nil.
  - destruct (N.eqb_spec c sep) as [->|Hne].
    + constructor; [apply not_elem_of_nil|done].
    + destruct (JS.split sep s) as [|w ws].
      * constructor; [|done]. intros Hin.
        apply list_elem_of_singleton in Hin. congruence.
      * apply Forall_cons in IH as (Hw & Hws). constructor; [|done].
        intros Hin. apply elem_of_cons in Hin as [?|?]; [congruence|done].
Qed.

Lemma create_poll_options_clean options :
  Forall (fun v =>
            v <> [] /\ (JS.COMMA ∉ v) /\
            (forall c, head v = Some c -> JS.isWhiteSpace c = false) /\
            (forall c, last v = Some c -> JS.isWhiteSpace c = false))
         (Tasks.create_poll_options options).
Proof.
  apply Forall_forall. intros v Hv. unfold Tasks.create_poll_options in Hv.
  apply list_elem_of_In, filter_In in Hv as (Hin & Hb).
  apply list_elem_of_In, list_elem_of_fmap in Hin as (w & -> & Hw).
  split; [by destruct (JS.trim w)|]. split; [|split].
  - intros Hc. apply trim_elem in Hc.
    pose proof (split_no_sep JS.COMMA options) as Hall.
    rewrite Forall_forall in Hall. by apply (Hall w).
  - apply trim_head.
  - apply trim_last.
Qed.

(** X19. The options [task:create-poll] keeps are non-empty, contain no
    comma and neither start nor end with white space.  When the task sends
    a call, it is [createPoll] with the encodings of the title and of the
    kept options, 2 to 4 of them, and the given times; while the counter is
    below the top of [uint256] this call succeeds when
    [startTime < endTime] and reverts with "Invalid time range" otherwise,
    so never with "Invalid option count". *)
Theorem task_create_poll_sends_clean_options
    toUtf8Bytes title options startTime endTime c :
  Tasks.create_poll toUtf8Bytes title options startTime endTime = Some c ->
  let cleaned := Tasks.create_poll_options options in
  Forall (fun v =>
            v <> [] /\ (JS.COMMA ∉ v) /\
            (forall c, head v = Some c -> JS.isWhiteSpace c = false) /\
            (forall c, last v = Some c -> JS.isWhiteSpace c = false))
         cleaned /\
  exists title_ options_,
    c = CreatePoll title_ options_ (Z.to_N startTime) (Z.to_N endTime) /\
    toUtf8Bytes title = Some title_ /\
    Forall2 (fun v o => toUtf8Bytes v = Some o) cleaned options_ /\
    (2 <= length options_ <= 4)%nat /\
    forall env s,
      _pollCount s < MAX_UINT256 ->
      ((startTime < endTime)%Z ->
       exists s', step env c s = (Ok tt, s') /\
                  _pollCount s' = _pollCount s + 1) /\
      ((endTime <= startTime)%Z ->
       step env c s = (Reverted (Revert "Invalid time range"), s)).
Proof.
  intros Hc cleaned. split; [apply create_poll_options_clean|].
  unfold Tasks.create_poll in Hc. fold cleaned in Hc.
  destruct (Nat.ltb_spec (length cleaned) 2) as [?|Hlo]; [done|].
  destruct (Nat.ltb_spec 4 (length cleaned)) as [?|Hhi]; [done|].
  cbn [orb] in Hc.
  destruct (toUtf8Bytes title) as [title_|]; [|done].
  destruct (mapM toUtf8Bytes cleaned) as [options_|] eqn:Hopts; [|done].
  unfold Tasks.encode_uint64 in Hc.
  destruct (Z.leb_spec 0 startTime) as [Hs0|?]; [|done].
  destruct (Z.ltb_spec startTime (2 ^ 64)) as [Hs1|?]; [|done].
  destruct (Z.leb_spec 0 endTime) as [He0|?]; [|done].
  destruct (Z.ltb_spec endTime (2 ^ 64)) as [He1|?]; [|done].
  cbn [andb] in Hc. injection Hc as <-.
  apply mapM_Some in Hopts. pose proof (Forall2_length _ _ _ Hopts) as Hlen.
  exists title_, options_. split; [done|]. split; [done|]. split; [done|].
  split; [lia|]. intros env s Hmax. rewrite step_create.
  destruct (createPoll_cases env title_ options_ (Z.to_N startTime)
              (Z.to_N endTime) s)
    as [(? & H')|[(? & ? & H')|[(? & ? & ? & H')|
        (? & ? & ? & s1 & H' & Hcr)]]]; rewrite H'.
  - lia.
  - split; [lia|done].
  - unfold MAX_UINT256 in *. lia.
  - split; [|lia]. intros _. exists s1. split; [done|]. by destruct Hcr.
Qed.

End TaskFacts.

(** * The scenario, continued *)

Lemma views_know_the_assigned_ids_witness :
  transact (getPoll 5) Scenario.opened
    = (Reverted NotFound, Scenario.opened) /\
  exists b,
    transact (hasVoted 0 2)
      (run_calls [(Scenario.env_at 101 2, Scenario.vote_for 0 0)]
                 Scenario.opened)
    = (Ok b, run_calls [(Scenario.env_at 101 2, Scenario.vote_for 0 0)]
                       Scenario.opened).
Proof.
  pose proof (@views_know_the_assigned_ids Mock.lib Scenario.opened 5 2 [])
    as Hmiss.
  pose proof (@views_know_the_assigned_ids Mock.lib Scenario.opened 0 2
                [(Scenario.env_at 101 2, Scenario.vote_for 0 0)]) as Hok.
  cbv zeta in Hmiss, Hok. split.
  - apply (proj1 Hmiss). vm_compute. discriminate.
  - apply (proj2 Hok). vm_compute. reflexivity.
Defined.

Lemma ids_are_sequential_witness :
  reachable Scenario.final /\
  created_ids (events Scenario.final) = [0].
Proof.
  split; [exact reachable_final|].
  rewrite (proj1 (@ids_are_sequential Mock.lib Scenario.final reachable_final)).
  vm_compute. reflexivity.
Defined.

Lemma receipts_match_the_votes_cast_witness :
  reachable Scenario.voted_b /\
  (voted_at Scenario.voted_b 0 2 = true <->
   (0, 2) ∈ cast_votes (events Scenario.voted_b)) /\
  NoDup (cast_votes (events Scenario.voted_b)).
Proof.
  split; [exact reachable_voted_b|].
  destruct (@receipts_match_the_votes_cast Mock.lib Scenario.voted_b []
              reachable_voted_b) as (Hiff & Hnd & _).
  split; [apply Hiff|exact Hnd].
Defined.

Lemma flags_match_the_events_witness :
  reachable Scenario.final /\
  (ended (poll_at Scenario.final 0) = true <->
   0 ∈ ended_ids (events Scenario.final)) /\
  published_ids (events Scenario.final) ⊆ ended_ids (events Scenario.final).
Proof.
  split; [exact reachable_final|].
  destruct (@flags_match_the_events Mock.lib Scenario.final reachable_final)
    as (He & _ & _ & _ & Hsub).
  split; [apply He|exact Hsub].
Defined.

Lemma unused_slots_stay_zero_witness :
  reachable Scenario.final /\
  Array4Ops.get (encryptedCounts (poll_at Scenario.final 0)) 2 = Some 0 /\
  Array4Ops.get (publicCounts (poll_at Scenario.final 0)) 3 = Some 0.
Proof.
  split; [exact reachable_final|]. split.
  - apply (@unused_slots_stay_zero Mock.lib Scenario.final 0 2
             reachable_final); vm_compute; (reflexivity || discriminate).
  - apply (@unused_slots_stay_zero Mock.lib Scenario.final 0 3
             reachable_final); vm_compute; (reflexivity || discriminate).
Defined.

Lemma getPublicCounts_returns_the_published_counts_witness :
  reachable Scenario.closed /\
  step (Scenario.env_at 3702 1) (PublishResults 0 [1; 1] [Byte.x01])
    Scenario.closed = (Ok tt, Scenario.final) /\
  exists counts,
    transact (getPublicCounts 0) Scenario.final = (Ok counts, Scenario.final) /\
    Array4Ops.to_list counts = [1; 1; 0; 0].
Proof.
  split; [exact reachable_closed|].
  assert (H : step (Scenario.env_at 3702 1) (PublishResults 0 [1; 1] [Byte.x01])
                Scenario.closed = (Ok tt, Scenario.final))
    by (vm_compute; reflexivity).
  split; [exact H|].
  pose proof (@getPublicCounts_returns_the_published_counts Mock.lib
                (Scenario.env_at 3702 1) 0 [1; 1] [Byte.x01]
                Scenario.closed Scenario.final [] reachable_closed H) as Hp.
  cbv zeta in Hp. exact (proj2 Hp).
Defined.

Lemma stored_ciphertexts_are_allowed_witness :
  reachable Scenario.voted_b /\
  exists h,
    Array4Ops.get (encryptedCounts (poll_at Scenario.voted_b 0)) 1 = Some h /\
    h ∈ FHE.allowed (acl Scenario.voted_b).
Proof.
  split; [exact reachable_voted_b|].
  apply (@stored_ciphertexts_are_allowed Mock.lib Scenario.voted_b 0 1
           reachable_voted_b); vm_compute; reflexivity.
Defined.

Lemma marks_are_the_tallies_of_ended_polls_witness :
  reachable Scenario.closed /\
  forall h,
    h ∈ FHE.publiclyDecryptable (acl Scenario.closed) ->
    exists id i,
      id < _pollCount Scenario.closed /\
      ended (poll_at Scenario.closed id) = true /\
      i < optionCount (poll_at Scenario.closed id) /\
      Array4Ops.get (encryptedCounts (poll_at Scenario.closed id)) i = Some h.
Proof.
  split; [exact reachable_closed|].
  exact (proj1 (@marks_are_the_tallies_of_ended_polls Mock.lib Scenario.closed
                  reachable_closed)).
Defined.


Lemma vote_is_accepted_when_admissible_witness :
  reachable Scenario.opened /\
  admissible (Scenario.env_at 101 2) 0 Scenario.opened /\
  exists s',
    step (Scenario.env_at 101 2) (Scenario.vote_for 0 0) Scenario.opened
      = (Ok tt, s').
Proof.
  split; [exact reachable_opened|].
  assert (Ha : admissible (Scenario.env_at 101 2) 0 Scenario.opened).
  { unfold admissible. vm_compute. repeat split; discriminate. }
  split; [exact Ha|].
  destruct (@vote_is_accepted_when_admissible Mock.lib (Scenario.env_at 101 2)
              0 0 [Byte.x01] Scenario.opened reachable_opened)
    as (Hiff & _).
  apply Hiff. split; [exact Ha|]. vm_compute. by eexists.
Defined.

Lemma vote_adds_one_to_the_chosen_slot_witness :
  step (Scenario.env_at 102 3) (Scenario.vote_for 0 1) Scenario.voted_a
    = (Ok tt, Scenario.voted_b) /\
  exists choice,
    FHE.fromExternal (Lib := Mock.lib) 1 [Byte.x01] = Some choice /\
    forall i h,
      Array4Ops.get (encryptedCounts (poll_at Scenario.voted_a 0)) i = Some h ->
      exists h',
        Array4Ops.get (encryptedCounts (poll_at Scenario.voted_b 0)) i
          = Some h' /\
        h' = if i <? optionCount (poll_at Scenario.voted_a 0)
             then (h + (if choice =? i then 1 else 0)) mod 2 ^ 32
             else h.
Proof.
  assert (H : step (Scenario.env_at 102 3) (Scenario.vote_for 0 1)
                Scenario.voted_a = (Ok tt, Scenario.voted_b))
    by (vm_compute; reflexivity).
  split; [exact H|].
  destruct (@vote_adds_one_to_the_chosen_slot Mock.lib (fun h => h)
              (fun b => b) (fun _ => eq_refl) (fun _ _ => eq_refl)
              (fun _ _ _ => eq_refl) (fun _ _ => eq_refl)
              (Scenario.env_at 102 3) 0 1 [Byte.x01]
              Scenario.voted_a Scenario.voted_b H)
    as (choice & Hc & Hslots & _).
  exists choice. split; [exact Hc|exact Hslots].
Defined.

Lemma tally_is_bounded_by_the_votes_cast_witness :
  reachable Scenario.voted_b /\
  tally_total (fhe := Mock.lib) (fun h => h) (poll_at Scenario.voted_b 0)
    <= N.of_nat (length (voters 0 (events Scenario.voted_b))).
Proof.
  split; [exact reachable_voted_b|].
  exact (proj2 (@tally_is_bounded_by_the_votes_cast Mock.lib (fun h => h)
                  (fun b => b) (fun _ => eq_refl) (fun _ _ => eq_refl)
                  (fun _ _ _ => eq_refl) (fun _ _ => eq_refl)
                  Scenario.voted_b 0 reachable_voted_b)).
Defined.


Lemma closing_and_publishing_are_open_to_anyone_witness :
  reachable Scenario.voted_b /\
  step (Scenario.env_at 3701 7) (EndPoll 0) Scenario.voted_b
    = step (Scenario.env_at 3701 1) (EndPoll 0) Scenario.voted_b.
Proof.
  split; [exact reachable_voted_b|].
  destruct (@closing_and_publishing_are_open_to_anyone Mock.lib
              (Scenario.env_at 3701 1) (Scenario.env_at 3701 7) 0 [] []
              Scenario.voted_b reachable_voted_b) as (_ & Hsame & _).
  apply Hsame. reflexivity.
Defined.

Lemma loadPolls_lists_every_poll_witness :
  exists polls,
    VoteApp.loadPolls (Some 2) Scenario.voted_a = Some polls /\
    length polls = 1%nat.
Proof.
  destruct (proj1 (@loadPolls_lists_every_poll Mock.lib (Some 2)
                     Scenario.voted_a))
    as (polls & Hp & Hlen & _); [vm_compute; discriminate|].
  exists polls. split; [exact Hp|exact Hlen].
Defined.

Lemma created_poll_is_shown_as_created_witness :
  reachable (fhe := Mock.lib) initial /\
  transact (createPoll (fhe := Mock.lib) (Scenario.env_at 50 1) "City Budget"
              ["Parks"; "Transit"]%string 100 3700) initial
    = (Ok 0, Scenario.opened) /\
  exists poll,
    VoteApp.loadPoll (Some 2) 0
      (run_calls [(Scenario.env_at 101 2, Scenario.vote_for 0 0)]
                 Scenario.opened)
    = Success poll
        (run_calls [(Scenario.env_at 101 2, Scenario.vote_for 0 0)]
                   Scenario.opened) /\
    PollItem.options poll = ["Parks"; "Transit"]%string.
Proof.
  split; [exact reachable_initial|].
  assert (H : transact (createPoll (fhe := Mock.lib) (Scenario.env_at 50 1)
                          "City Budget" ["Parks"; "Transit"]%string 100 3700)
                initial = (Ok 0, Scenario.opened))
    by (vm_compute; reflexivity).
  split; [exact H|].
  pose proof (@created_poll_is_shown_as_created Mock.lib (Scenario.env_at 50 1)
                "City Budget" ["Parks"; "Transit"]%string 100 3700 initial 0
                Scenario.opened
                [(Scenario.env_at 101 2, Scenario.vote_for 0 0)] (Some 2)
                reachable_initial H) as Hp.
  cbv zeta in Hp. destruct Hp as (poll & Hl & _ & _ & Ho & _).
  exists poll. split; [exact Hl|exact Ho].
Defined.


Lemma decrypted_results_can_be_published_witness :
  reachable Scenario.closed /\
  exists poll decryptedResults,
    VoteApp.loadPoll None 0 Scenario.closed = Success poll Scenario.closed /\
    VoteApp.handleDecrypt ClientScenario.publicDecrypt ∅ poll
      = Some decryptedResults /\
    exists proof s2,
      VoteApp.handlePublish (fhe := Mock.lib) decryptedResults 0
        = Some (PublishResults 0 [1; 1] proof) /\
      step (Scenario.env_at 3702 1) (PublishResults 0 [1; 1] proof)
        Scenario.closed = (Ok tt, s2).
Proof.
  split; [exact reachable_closed|].
  destruct (@loadPoll_defined Mock.lib None 0 Scenario.closed)
    as (poll & Hl); [vm_compute; reflexivity|].
  exists poll.
  assert (Hpoll : poll =
    PollItem.mk 0 "City Budget" ["Parks"; "Transit"]%string 2 100 3700 1
      true true false [1; 1; 0; 0] [0; 0] false).
  { vm_compute in Hl. by injection Hl as <-. }
  assert (Hd : VoteApp.handleDecrypt ClientScenario.publicDecrypt ∅ poll
               = Some {[0 := VoteApp.mkDecryptedResult [Some 1; Some 1]
                                [Byte.x01]]}).
  { rewrite Hpoll. reflexivity. }
  eexists. split; [exact Hl|]. split; [exact Hd|].
  pose proof (@decrypted_results_can_be_published Mock.lib Scenario.closed
                None 0 poll ClientScenario.publicDecrypt ∅ _ []
                (Scenario.env_at 3702 1) reachable_closed Hl
                ltac:(rewrite Hpoll; reflexivity) Hd) as Hp.
  cbv zeta in Hp.
  destruct Hp as (clearCounts & proof & Hpub & _ & _ & Hok).
  { intros handles answer. unfold ClientScenario.publicDecrypt.
    case_decide as Hh; [|discriminate]. intros [= <-]. subst handles.
    exists [1; 1]. split; [|vm_compute; reflexivity].
    repeat constructor. }
  assert (Hcc : clearCounts = [1; 1]).
  { vm_compute in Hpub. by injection Hpub as <- _. }
  subst clearCounts.
  destruct Hok as (s2 & _ & Hs2 & _); [vm_compute; reflexivity|].
  exists proof, s2. split; [exact Hpub|exact Hs2].
Defined.

Lemma task_create_poll_sends_clean_options_witness :
  exists c,
    Tasks.create_poll (fhe := Mock.lib) ClientScenario.toUtf8Bytes
      (ClientScenario.of_ascii "City Budget")
      (ClientScenario.of_ascii " Parks, ,Transit ") 100 3700 = Some c /\
    c = CreatePoll "City Budget" ["Parks"; "Transit"]%string 100 3700 /\
    exists s', step (Scenario.env_at 50 1) c initial = (Ok tt, s').
Proof.
  eexists. split; [vm_compute; reflexivity|]. split; [reflexivity|].
  pose proof (@task_create_poll_sends_clean_options Mock.lib
                ClientScenario.toUtf8Bytes
                (ClientScenario.of_ascii "City Budget")
                (ClientScenario.of_ascii " Parks, ,Transit ") 100 3700 _
                ltac:(vm_compute; reflexivity)) as Hp.
  cbv zeta in Hp.
  destruct Hp as (_ & title_ & options_ & _ & _ & _ & _ & Hrun).
  destruct (Hrun (Scenario.env_at 50 1) initial
              ltac:(vm_compute; reflexivity)) as (Hok & _).
  destruct (Hok ltac:(lia)) as (s' & Hs & _). exists s'. exact Hs.
Defined.
